(** * MessagingApp: the message feed and collection hooks over Firestore

    A shallow embedding of [hooks/useMessages.ts] and [hooks/useLists.ts],
    and of the handlers of the components that call them. The hooks are
    asynchronous functions over a remote document store; they are modelled
    as computations in a state-and-exception monad over an explicit
    [World] (the store, its clocks, the list of store operations issued so
    far and the rejections the store is going to answer with). Each hook
    call runs to completion before the next one starts; a callback that
    closes over the state of a render takes what that render saw as an
    argument.

    Document names are taken as the store accepts them. Texts are their
    UTF-8 encodings, and a like set is a plain object, which inherits the
    members of [Object.prototype]. *)

From stdpp Require Import gmap strings list fin_maps sorting pretty.

Open Scope string_scope.
Open Scope list_scope.

#[local] Set Warnings "-clear-no-such-hyp".

(** ** Async functions: state passing with thrown errors *)

Inductive Result (A : Type) : Type :=
| Ok (a : A)
| Throw (e : string).
Arguments Ok {A} a.
Arguments Throw {A} e.

(** A JavaScript exception does not roll the state back, so the state is
    threaded through both outcomes. *)
Definition Eff (St A : Type) : Type := St → Result A * St.

Definition ret {St A} (a : A) : Eff St A := λ s, (Ok a, s).

Definition bind {St A B} (c : Eff St A) (k : A → Eff St B) : Eff St B :=
  λ s, match c s with
       | (Ok a, s') => k a s'
       | (Throw e, s') => (Throw e, s')
       end.

Definition throw {St A} (e : string) : Eff St A := λ s, (Throw e, s).

Definition get {St} : Eff St St := λ s, (Ok s, s).
Definition modify {St} (f : St → St) : Eff St unit := λ s, (Ok tt, f s).

(** [try { c } catch (err) { h }] *)
Definition try_catch {St A} (c : Eff St A) (h : string → Eff St A) : Eff St A :=
  λ s, match c s with
       | (Ok a, s') => (Ok a, s')
       | (Throw e, s') => h e s'
       end.

(** [try { c } finally { f }] *)
Definition try_finally {St A} (c : Eff St A) (f : Eff St unit) : Eff St A :=
  λ s, match c s with
       | (r, s') => match f s' with
                    | (Ok _, s'') => (r, s'')
                    | (Throw e, s'') => (Throw e, s'')
                    end
       end.

Declare Scope eff_scope.
Delimit Scope eff_scope with eff.
Notation "'let!' x := c 'in' k" := (bind c (λ x, k))
  (at level 100, x name, c at level 99, k at level 200) : eff_scope.
Notation "c ;; k" := (bind c (λ _, k))
  (at level 100, k at level 200, right associativity) : eff_scope.
Open Scope eff_scope.

(** Every promise of the list is started, in order, before any is awaited. *)
Fixpoint start_all {St A} (cs : list (Eff St A)) (s : St) : list (Result A) * St :=
  match cs with
  | [] => ([], s)
  | c :: cs' =>
      let '(r, s1) := c s in
      let '(rs, s2) := start_all cs' s1 in
      (r :: rs, s2)
  end.

Fixpoint settle {A} (rs : list (Result A)) : Result (list A) :=
  match rs with
  | [] => Ok []
  | Throw e :: _ => Throw e
  | Ok a :: rs' =>
      match settle rs' with
      | Ok l => Ok (a :: l)
      | Throw e => Throw e
      end
  end.

(** [await Promise.all(cs)]: rejects when one of the promises rejects, but
    the operations already started are not taken back. *)
Definition promise_all {St A} (cs : list (Eff St A)) : Eff St (list A) :=
  λ s, let '(rs, s') := start_all cs s in (settle rs, s').

(** Running a computation on one component of a larger state. *)
Definition liftW {S W A} (c : Eff W A) : Eff (S * W) A :=
  λ sw, let '(r, w') := c sw.2 in (r, (sw.1, w')).
Definition liftS {S W A} (c : Eff S A) : Eff (S * W) A :=
  λ sw, let '(r, s') := c sw.1 in (r, (s', sw.2)).

(** ** JavaScript values *)

(** [!!s] for [s : string | null | undefined]: the empty string is falsy. *)
Definition truthy (s : option string) : bool :=
  match s with
  | Some s => negb (String.eqb s "")
  | None => false
  end.

(** [s || null] *)
Definition or_null (s : option string) : option string :=
  if truthy s then s else None.

(** [s || ''] *)
Definition or_empty (s : option string) : string :=
  match s with
  | Some s => s
  | None => ""
  end.

(** What every plain object inherits from [Object.prototype]: under these
    names [o[k]] is a function, or the prototype itself, when [o] has no
    property of its own. *)
Definition object_prototype_names : list string :=
  ["constructor"; "hasOwnProperty"; "isPrototypeOf"; "propertyIsEnumerable";
   "toLocaleString"; "toString"; "valueOf"; "__defineGetter__"; "__defineSetter__";
   "__lookupGetter__"; "__lookupSetter__"; "__proto__"].

(** [!!o[k]] for a plain object [o] of booleans: its own property when it
    has one, and what it inherits, which is truthy, otherwise. *)
Definition truthy_at (o : gmap string bool) (k : string) : bool :=
  match o !! k with
  | Some b => b
  | None => bool_decide (k ∈ object_prototype_names)
  end.

(** [new Set(l)] spread back into an array: first occurrences, in order. *)
Fixpoint unique_from (seen l : list string) : list string :=
  match l with
  | [] => []
  | x :: l' =>
      if bool_decide (x ∈ seen) then unique_from seen l'
      else x :: unique_from (x :: seen) l'
  end.
Definition unique (l : list string) : list string := unique_from [] l.

(** ** [String.prototype.trim]

    A string is the UTF-8 encoding of the program's text. [trim] removes
    the WhiteSpace and LineTerminator code points from both ends: TAB, LF,
    VT, FF, CR and SP in one byte, U+00A0 in two, and U+1680,
    U+2000..U+200A, U+2028, U+2029, U+202F, U+205F, U+3000 and U+FEFF in
    three. *)

Definition byte_of (c : Ascii.ascii) : nat := Ascii.nat_of_ascii c.

Definition white1 (c : Ascii.ascii) : bool :=
  let n := byte_of c in
  bool_decide (n = 32 ∨ 9 ≤ n ≤ 13)%nat.

Definition white2 (c1 c2 : Ascii.ascii) : bool :=
  bool_decide (byte_of c1 = 194 ∧ byte_of c2 = 160)%nat.

Definition white3 (c1 c2 c3 : Ascii.ascii) : bool :=
  let a := byte_of c1 in
  let b := byte_of c2 in
  let c := byte_of c3 in
  bool_decide
    ((a = 225 ∧ b = 154 ∧ c = 128) ∨
     (a = 226 ∧ b = 128 ∧ (128 ≤ c ≤ 138 ∨ c = 168 ∨ c = 169 ∨ c = 175)) ∨
     (a = 226 ∧ b = 129 ∧ c = 159) ∨
     (a = 227 ∧ b = 128 ∧ c = 128) ∨
     (a = 239 ∧ b = 187 ∧ c = 191))%nat.

(** Removing white space from the front, for white space recognised by
    [w1], [w2] and [w3] on its one, two or three bytes. *)
Section strip.
Variable w1 : Ascii.ascii → bool.
Variable w2 : Ascii.ascii → Ascii.ascii → bool.
Variable w3 : Ascii.ascii → Ascii.ascii → Ascii.ascii → bool.

(** The text behind one leading white-space character, when there is one. *)
Definition lead (s : string) : option string :=
  match s with
  | String c1 s1 =>
      if w1 c1 then Some s1
      else match s1 with
           | String c2 s2 =>
               if w2 c1 c2 then Some s2
               else match s2 with
                    | String c3 s3 => if w3 c1 c2 c3 then Some s3 else None
                    | EmptyString => None
                    end
           | EmptyString => None
           end
  | EmptyString => None
  end.

Fixpoint strip (s : string) : string :=
  match s with
  | String c1 s1 =>
      if w1 c1 then strip s1
      else match s1 with
           | String c2 s2 =>
               if w2 c1 c2 then strip s2
               else match s2 with
                    | String c3 s3 => if w3 c1 c2 c3 then strip s3 else s
                    | EmptyString => s
                    end
           | EmptyString => s
           end
  | EmptyString => EmptyString
  end.
End strip.

Definition trim_start (s : string) : string := strip white1 white2 white3 s.

(** From the end the bytes of a character come last byte first. *)
Definition trim_end (s : string) : string :=
  String.rev (strip white1 (λ c2 c1, white2 c1 c2) (λ c3 c2 c1, white3 c1 c2 c3)
                (String.rev s)).

(** [s.trim()] *)
Definition trim (s : string) : string := trim_end (trim_start s).

(** The text with the given bytes. *)
Definition utf8 (bytes : list nat) : string :=
  String.string_of_list_ascii (Ascii.ascii_of_nat <$> bytes).

(** ** The data model: [types/index.ts] *)

Abbreviation Timestamp := nat.

Record WithId (D : Type) : Type := MkDoc { doc_id : string; doc_data : D }.
Arguments MkDoc {D}.
Arguments doc_id {D}.
Arguments doc_data {D}.

Record MessageData : Type := MkMessage {
  senderId : string;
  content : option string;
  imageUrl : option string;
  timestamp : Timestamp;
  replyTo : option string;
  likes : gmap string bool;
}.

(** [{ id: docSnap.id, ...docSnap.data() } as Message] *)
Abbreviation Message := (WithId MessageData).

Record MessageWithReply : Type := MkWithReply {
  message_of : Message;
  replyToMessage : option Message;
}.

Inductive Visibility := public | private.
Inductive ListType := collection | checklist.

Record ListData : Type := MkList {
  name : string;
  ownerId : string;
  visibility : Visibility;
  type : ListType;
  createdAt : Timestamp;
  emoji : string;
}.

Record ListItemData : Type := MkListItem {
  listId : string;
  messageId : string;
  addedAt : Timestamp;
  completed : bool;
}.
Abbreviation ListItem := (WithId ListItemData).

Record ListItemWithMessage : Type := MkWithMessage {
  item_of : ListItem;
  message : option Message;
}.

Record DrawingData : Type := MkDrawing {
  dataUrl : string;
  width : nat;
  height : nat;
}.

#[global] Instance Visibility_eq_dec : EqDecision Visibility.
Proof. solve_decision. Defined.
#[global] Instance ListType_eq_dec : EqDecision ListType.
Proof. solve_decision. Defined.
#[global] Instance MessageData_eq_dec : EqDecision MessageData.
Proof. solve_decision. Defined.
#[global] Instance ListItemData_eq_dec : EqDecision ListItemData.
Proof. solve_decision. Defined.

(** ** The remote document store (Firestore) and object storage *)

Record Store : Type := MkStore {
  duoboard_messages : gmap string MessageData;  (* 'duoboard_messages' *)
  messages_docs : gmap string MessageData;      (* 'messages' *)
  lists_docs : gmap string ListData;            (* 'lists' *)
  listItems_docs : gmap string ListItemData;    (* 'listItems' *)
  objects : gmap string string;                 (* storage path to payload *)
}.

(** A collection reference: its name and where its documents live. *)
Record Collection (D : Type) : Type := MkColl {
  path : string;
  docs : Store → gmap string D;
  set_docs : gmap string D → Store → Store;
}.
Arguments path {D}.
Arguments docs {D}.
Arguments set_docs {D}.

Definition duoboard_messages_ref : Collection MessageData :=
  MkColl _ "duoboard_messages" duoboard_messages
    (λ m s, MkStore m (messages_docs s) (lists_docs s) (listItems_docs s) (objects s)).
Definition messages_ref : Collection MessageData :=
  MkColl _ "messages" messages_docs
    (λ m s, MkStore (duoboard_messages s) m (lists_docs s) (listItems_docs s) (objects s)).
Definition lists_ref : Collection ListData :=
  MkColl _ "lists" lists_docs
    (λ m s, MkStore (duoboard_messages s) (messages_docs s) m (listItems_docs s) (objects s)).
Definition listItems_ref : Collection ListItemData :=
  MkColl _ "listItems" listItems_docs
    (λ m s, MkStore (duoboard_messages s) (messages_docs s) (lists_docs s) m (objects s)).
Definition set_objects (o : gmap string string) (s : Store) : Store :=
  MkStore (duoboard_messages s) (messages_docs s) (lists_docs s) (listItems_docs s) o.

(** The fields of a document a query can filter or order on. *)
Class Document (D : Type) : Type := {
  str_field : D → string → option string;
  time_field : D → string → option Timestamp;
}.

#[global] Instance MessageData_document : Document MessageData := {|
  str_field d f :=
    if String.eqb f "senderId" then Some (senderId d)
    else if String.eqb f "content" then content d
    else if String.eqb f "imageUrl" then imageUrl d
    else if String.eqb f "replyTo" then replyTo d
    else None;
  time_field d f := if String.eqb f "timestamp" then Some (timestamp d) else None;
|}.

#[global] Instance ListData_document : Document ListData := {|
  str_field d f :=
    if String.eqb f "name" then Some (name d)
    else if String.eqb f "ownerId" then Some (ownerId d)
    else if String.eqb f "visibility" then
      Some (match visibility d with public => "public" | private => "private" end)
    else if String.eqb f "type" then
      Some (match type d with collection => "collection" | checklist => "checklist" end)
    else if String.eqb f "emoji" then Some (emoji d)
    else None;
  time_field d f := if String.eqb f "createdAt" then Some (createdAt d) else None;
|}.

#[global] Instance ListItemData_document : Document ListItemData := {|
  str_field d f :=
    if String.eqb f "listId" then Some (listId d)
    else if String.eqb f "messageId" then Some (messageId d)
    else None;
  time_field d f := if String.eqb f "addedAt" then Some (addedAt d) else None;
|}.

(** Query constraints, as the hooks pass them to [query(...)]. *)
Inductive Constraint (D : Type) : Type :=
| Where (field value : string)          (* where(field, '==', value) *)
| OrderByDesc (field : string)          (* orderBy(field, 'desc') *)
| StartAfter (cursor : WithId D)        (* startAfter(snapshot) *)
| Limit (n : nat).                      (* limit(n) *)
Arguments Where {D}.
Arguments OrderByDesc {D}.
Arguments StartAfter {D}.
Arguments Limit {D}.

(** What the store sees of a constraint. *)
Inductive QueryPart : Type :=
| QWhere (field value : string)
| QOrderByDesc (field : string)
| QStartAfter (id : string)
| QLimit (n : nat).

Definition describe {D} (c : Constraint D) : QueryPart :=
  match c with
  | Where f v => QWhere f v
  | OrderByDesc f => QOrderByDesc f
  | StartAfter c => QStartAfter (doc_id c)
  | Limit n => QLimit n
  end.

Section query.
Context {D : Type} `{Document D}.

Definition time_of (f : string) (r : WithId D) : Timestamp :=
  default 0%nat (time_field (doc_data r) f).

(** Descending on the field; equal values are ordered by document name,
    descending as well. *)
Definition desc_on (f : string) (a b : WithId D) : bool :=
  (time_of f b <? time_of f a)%nat
  || ((time_of f a =? time_of f b)%nat && String.leb (doc_id b) (doc_id a)).

Definition newest_first (f : string) : relation (WithId D) :=
  λ a b, Is_true (desc_on f a b).
Definition by_name : relation (WithId D) :=
  λ a b, Is_true (String.leb (doc_id a) (doc_id b)).

#[global] Instance newest_first_dec f a b : Decision (newest_first f a b).
Proof. unfold newest_first. apply _. Defined.
#[global] Instance by_name_dec a b : Decision (by_name a b).
Proof. unfold by_name. apply _. Defined.

Definition strictly_after (ord : option string) (c r : WithId D) : bool :=
  match ord with
  | Some f =>
      (time_of f r <? time_of f c)%nat
      || ((time_of f r =? time_of f c)%nat && String.ltb (doc_id r) (doc_id c))
  | None => String.ltb (doc_id c) (doc_id r)
  end.

Fixpoint constrain (ord : option string) (q : list (Constraint D))
    (rows : list (WithId D)) : list (WithId D) :=
  match q with
  | [] => rows
  | Where f v :: q' =>
      constrain ord q'
        (filter (λ r, str_field (doc_data r) f = Some v) rows)
  | OrderByDesc f :: q' =>
      constrain (Some f) q'
        (merge_sort (newest_first f)
           (filter (λ r, is_Some (time_field (doc_data r) f)) rows))
  | StartAfter c :: q' =>
      constrain ord q' (filter (λ r, strictly_after ord c r = true) rows)
  | Limit n :: q' => constrain ord q' (take n rows)
  end.

(** Without an [orderBy] the rows come by document name. *)
Definition rows_of (m : gmap string D) : list (WithId D) :=
  merge_sort by_name
    ((λ kv, MkDoc kv.1 kv.2) <$> map_to_list m).

Definition run_query (q : list (Constraint D)) (m : gmap string D) : list (WithId D) :=
  constrain None q (rows_of m).
End query.

(** The operations a client issues. *)
Inductive Op : Type :=
| OpGetDoc (coll id : string)
| OpGetDocs (coll : string) (q : list QueryPart)
| OpAddDoc (coll : string)
| OpUpdateDoc (coll id : string)
| OpDeleteDoc (coll id : string)
| OpFetch (url : string)
| OpUploadBytes (file : string)
| OpGetDownloadURL (file : string).

(** [faults] is what the network is going to do to the coming operations,
    one entry each: [true] rejects the operation. Past the end of the list
    every operation succeeds. *)
Record World : Type := MkWorld {
  store : Store;
  clock : Timestamp;       (* the server's clock, for serverTimestamp() *)
  now : nat;               (* the client's clock, for Date.now() *)
  faults : list bool;
  log : list Op;
  console : list string;   (* console.error *)
}.

Definition set_store (f : Store → Store) (w : World) : World :=
  MkWorld (f (store w)) (clock w) (now w) (faults w) (log w) (console w).

Definition console_error (msg : string) : Eff World unit :=
  modify (λ w, MkWorld (store w) (clock w) (now w) (faults w) (log w)
                 (console w ++ [msg])).

(** Sending one operation: it is logged, and rejected when the network
    says so; a rejected operation leaves the store as it was. *)
Definition request (op : Op) : Eff World unit :=
  λ w,
    let w' := MkWorld (store w) (clock w) (now w) (tail (faults w))
                (log w ++ [op]) (console w) in
    match faults w with
    | true :: _ => (Throw "unavailable", w')
    | _ => (Ok tt, w')
    end.

Abbreviation DocumentSnapshot D := (WithId (option D)).

Section operations.
Context {D : Type} `{Document D}.

Definition getDoc (c : Collection D) (id : string) : Eff World (DocumentSnapshot D) :=
  request (OpGetDoc (path c) id) ;;
  let! w := get in
  ret (MkDoc id (docs c (store w) !! id)).

Definition getDocs (c : Collection D) (q : list (Constraint D)) : Eff World (list (WithId D)) :=
  request (OpGetDocs (path c) (describe <$> q)) ;;
  let! w := get in
  ret (run_query q (docs c (store w))).

(** [addDoc]: the store names the document; [mk] receives the server's
    time for the fields written as [serverTimestamp()]. *)
Definition addDoc (c : Collection D) (mk : Timestamp → D) : Eff World string :=
  request (OpAddDoc (path c)) ;;
  let! w := get in
  let id := fresh (dom (docs c (store w))) in
  modify (λ w, MkWorld (set_docs c (<[id := mk (clock w)]> (docs c (store w))) (store w))
                 (S (clock w)) (now w) (faults w) (log w) (console w)) ;;
  ret id.

(** [updateDoc] patches fields of an existing document and rejects when
    there is none. *)
Definition updateDoc (c : Collection D) (id : string) (patch : D → D) : Eff World unit :=
  request (OpUpdateDoc (path c) id) ;;
  let! w := get in
  match docs c (store w) !! id with
  | Some d => modify (set_store (set_docs c (<[id := patch d]> (docs c (store w)))))
  | None => throw "not-found"
  end.

Definition deleteDoc (c : Collection D) (id : string) : Eff World unit :=
  request (OpDeleteDoc (path c) id) ;;
  let! w := get in
  modify (set_store (set_docs c (delete id (docs c (store w))))).
End operations.

(** Object storage and [fetch] of a data URL. *)
Definition fetch_blob (url : string) : Eff World string :=
  request (OpFetch url) ;; ret url.

Definition uploadBytes (file blob : string) : Eff World unit :=
  request (OpUploadBytes file) ;;
  modify (set_store (λ s, set_objects (<[file := blob]> (objects s)) s)).

Definition getDownloadURL (file : string) : Eff World string :=
  request (OpGetDownloadURL file) ;;
  ret ("https://firebasestorage.googleapis.com/" ++ file)%string.

(** [new Map()] filled by [docs.forEach] from the snapshots that exist:
    [if (docSnap.exists()) map.set(docSnap.id, { id: docSnap.id, ...docSnap.data() })] *)
Definition snapshot_map {D} (snaps : list (DocumentSnapshot D)) : gmap string (WithId D) :=
  foldl (λ acc docSnap,
           match doc_data docSnap with
           | Some d => <[doc_id docSnap := MkDoc (doc_id docSnap) d]> acc
           | None => acc
           end) ∅ snaps.

(** ** [hooks/useMessages.ts] *)

Module UseMessages.

Definition MESSAGES_PER_PAGE : nat := 50.
Definition MESSAGES_COLLECTION : Collection MessageData := duoboard_messages_ref.

(** The [useState] cells and [useRef] boxes of the hook. *)
Record Hook : Type := MkHook {
  messages : list MessageWithReply;
  loading : bool;
  loadingMore : bool;
  hasMore : bool;
  error : option string;
  lastDocRef : option Message;
  initialLoadRef : option Timestamp;
}.

Definition initial : Hook := MkHook [] true false true None None None.

(** What a render hands to the callbacks it creates: the state cells in
    the dependency list of their [useCallback]. A box made by [useRef] is
    not among them: it is read when the callback runs. *)
Record Render : Type := MkRender {
  seen_loadingMore : bool;
  seen_hasMore : bool;
}.

Definition render (h : Hook) : Render := MkRender (loadingMore h) (hasMore h).

Abbreviation M := (Eff (Hook * World)).

Definition setMessages (f : list MessageWithReply → list MessageWithReply) : M unit :=
  liftS (modify (λ h, MkHook (f (messages h)) (loading h) (loadingMore h) (hasMore h)
                         (error h) (lastDocRef h) (initialLoadRef h))).
Definition setLoading (b : bool) : M unit :=
  liftS (modify (λ h, MkHook (messages h) b (loadingMore h) (hasMore h)
                         (error h) (lastDocRef h) (initialLoadRef h))).
Definition setLoadingMore (b : bool) : M unit :=
  liftS (modify (λ h, MkHook (messages h) (loading h) b (hasMore h)
                         (error h) (lastDocRef h) (initialLoadRef h))).
Definition setHasMore (b : bool) : M unit :=
  liftS (modify (λ h, MkHook (messages h) (loading h) (loadingMore h) b
                         (error h) (lastDocRef h) (initialLoadRef h))).
Definition setError (e : option string) : M unit :=
  liftS (modify (λ h, MkHook (messages h) (loading h) (loadingMore h) (hasMore h)
                         e (lastDocRef h) (initialLoadRef h))).
Definition setLastDocRef (d : option Message) : M unit :=
  liftS (modify (λ h, MkHook (messages h) (loading h) (loadingMore h) (hasMore h)
                         (error h) d (initialLoadRef h))).
Definition setInitialLoadRef (t : option Timestamp) : M unit :=
  liftS (modify (λ h, MkHook (messages h) (loading h) (loadingMore h) (hasMore h)
                         (error h) (lastDocRef h) t)).

(** [replyMap] *)
Definition reply_map (replyDocs : list (DocumentSnapshot MessageData)) : gmap string Message :=
  snapshot_map replyDocs.

(** [m.replyTo ? replyMap.get(m.replyTo) || null : null] *)
Definition attach_reply (replyMap : gmap string Message) (m : Message) : MessageWithReply :=
  MkWithReply m
    (if truthy (replyTo (doc_data m))
     then replyMap !! or_empty (replyTo (doc_data m))
     else None).

Definition fetchReplyMessages (msgs : list Message) : Eff World (list MessageWithReply) :=
  let replyIds :=
    (λ m, or_empty (replyTo (doc_data m)))
      <$> filter (λ m, truthy (replyTo (doc_data m)) = true) msgs in
  if (length replyIds =? 0)%nat then
    ret ((λ m, MkWithReply m None) <$> msgs)
  else
    let uniqueReplyIds := unique replyIds in
    let! replyDocs := promise_all (getDoc MESSAGES_COLLECTION <$> uniqueReplyIds) in
    ret (attach_reply (reply_map replyDocs) <$> msgs).

Definition initialQuery : list (Constraint MessageData) :=
  [OrderByDesc "timestamp"; Limit MESSAGES_PER_PAGE].

(** The success callback of [onSnapshot]. *)
Definition on_snapshot (snapshot : list Message) : M unit :=
  try_catch
    (let newMessages := snapshot in
     let lastDoc := last snapshot in
     let! hw := get in
     (match head newMessages, initialLoadRef hw.1 with
      | Some m0, None => setInitialLoadRef (Some (timestamp (doc_data m0)))
      | _, _ => ret tt
      end) ;;
     setLastDocRef lastDoc ;;
     setHasMore (length newMessages =? MESSAGES_PER_PAGE)%nat ;;
     let! messagesWithReplies := liftW (fetchReplyMessages newMessages) in
     setMessages (λ _, reverse messagesWithReplies) ;;
     setLoading false)
    (λ err,
       liftW (console_error "Error fetching messages:") ;;
       setError (Some "Failed to load messages") ;;
       setLoading false).

(** The error callback of [onSnapshot]. *)
Definition on_snapshot_error : M unit :=
  liftW (console_error "Snapshot error:") ;;
  setError (Some "Failed to connect to messages") ;;
  setLoading false.

(** One delivery of the live query: the newest page as the store has it. *)
Definition deliver : M unit :=
  let! hw := get in
  on_snapshot (run_query initialQuery (docs MESSAGES_COLLECTION (store hw.2))).

Section hook.
Variable userId : option string.

(** The body of the effect, up to the subscription. *)
Definition activate : M unit :=
  if negb (truthy userId) then setLoading false
  else setLoading true ;; setError None.

(** [loadMore] as the render [r] created it: [loadingMore] and [hasMore]
    are the values that render saw, the cursor is what the box holds when
    the call is made. The guard
    [!userId || loadingMore || !hasMore || !lastDocRef.current] is split:
    the cursor is taken out of the box first. *)
Definition loadMore_of (r : Render) : M unit :=
  let! hw := get in
  match lastDocRef hw.1 with
  | Some cursor =>
      if negb (truthy userId) || seen_loadingMore r || negb (seen_hasMore r) then ret tt
      else
        setLoadingMore true ;;
        try_finally
          (try_catch
             (let olderQuery :=
                [OrderByDesc "timestamp"; StartAfter cursor; Limit MESSAGES_PER_PAGE] in
              let! snapshot := liftW (getDocs MESSAGES_COLLECTION olderQuery) in
              let olderMessages := snapshot in
              (match last snapshot with
               | Some lastDoc => setLastDocRef (Some lastDoc)
               | None => ret tt
               end) ;;
              setHasMore (length olderMessages =? MESSAGES_PER_PAGE)%nat ;;
              if (0 <? length olderMessages)%nat then
                let! olderWithReplies := liftW (fetchReplyMessages olderMessages) in
                setMessages (λ prev, reverse olderWithReplies ++ prev)
              else ret tt)
             (λ err,
                liftW (console_error "Error loading more messages:") ;;
                setError (Some "Failed to load more messages")))
          (setLoadingMore false)
  | None => ret tt
  end.

(** A call of [loadMore] once the component has rendered the state it is
    called in. *)
Definition loadMore : M unit :=
  let! hw := get in
  loadMore_of (render hw.1).

Definition sendMessage (content : string) (replyTo : option string) : Eff World unit :=
  if negb (truthy userId) || negb (truthy (Some (trim content))) then ret tt
  else
    try_catch
      (addDoc MESSAGES_COLLECTION
         (λ serverTimestamp,
            MkMessage (or_empty userId) (Some (trim content)) None
              serverTimestamp (or_null replyTo) ∅) ;;
       ret tt)
      (λ err,
         console_error "Error sending message:" ;;
         throw "Failed to send message").

Definition sendDrawing (drawing : DrawingData) (replyTo : option string) : Eff World unit :=
  if negb (truthy userId) then ret tt
  else
    try_catch
      (let! blob := fetch_blob (dataUrl drawing) in
       let! w := get in
       let fileName :=
         ("duoboard_drawings/" ++ or_empty userId ++ "_" ++ pretty (now w) ++ ".png")%string in
       uploadBytes fileName blob ;;
       let! imageUrl := getDownloadURL fileName in
       addDoc MESSAGES_COLLECTION
         (λ serverTimestamp,
            MkMessage (or_empty userId) None (Some imageUrl)
              serverTimestamp (or_null replyTo) ∅) ;;
       ret tt)
      (λ err,
         console_error "Error sending drawing:" ;;
         throw "Failed to send drawing").

(** [newLikes]: a copy of the like set in which the acting identity's entry
    is deleted when [newLikes[userId]] is truthy and set to [true]
    otherwise. *)
Definition flip_like (currentLikes : gmap string bool) : gmap string bool :=
  if truthy_at currentLikes (or_empty userId)
  then delete (or_empty userId) currentLikes
  else <[or_empty userId := true]> currentLikes.

Definition with_likes (newLikes : gmap string bool) (d : MessageData) : MessageData :=
  MkMessage (senderId d) (content d) (imageUrl d) (timestamp d) (replyTo d) newLikes.

Definition patch_likes (messageId : string) (newLikes : gmap string bool)
    (m : MessageWithReply) : MessageWithReply :=
  if String.eqb (doc_id (message_of m)) messageId
  then MkWithReply (MkDoc (doc_id (message_of m))
                      (with_likes newLikes (doc_data (message_of m))))
         (replyToMessage m)
  else m.

Definition toggleLike (messageId : string) : M unit :=
  if negb (truthy userId) then ret tt
  else
    try_catch
      (let! messageDoc := liftW (getDoc MESSAGES_COLLECTION messageId) in
       match doc_data messageDoc with
       | None => ret tt
       | Some d =>
           let currentLikes := likes d in
           let newLikes := flip_like currentLikes in
           liftW (updateDoc MESSAGES_COLLECTION messageId (with_likes newLikes)) ;;
           setMessages (λ prev, patch_likes messageId newLikes <$> prev)
       end)
      (λ err, liftW (console_error "Error toggling like:")).
End hook.

Definition getMessageById (h : Hook) (messageId : string) : option MessageWithReply :=
  list_find (λ m, doc_id (message_of m) = messageId) (messages h) ≫= λ im, Some im.2.

End UseMessages.

(** ** [hooks/useLists.ts] *)

Module UseLists.

Definition LISTS_COLLECTION : Collection ListData := lists_ref.
Definition LIST_ITEMS_COLLECTION : Collection ListItemData := listItems_ref.
Definition MESSAGES_COLLECTION : Collection MessageData := messages_ref.

(** [Partial<Pick<List, 'name' | 'visibility' | 'type' | 'emoji'>>] *)
Record ListUpdates : Type := MkUpdates {
  new_name : option string;
  new_visibility : option Visibility;
  new_type : option ListType;
  new_emoji : option string;
}.

Definition apply_updates (u : ListUpdates) (d : ListData) : ListData :=
  MkList (default (name d) (new_name u)) (ownerId d)
    (default (visibility d) (new_visibility u))
    (default (type d) (new_type u)) (createdAt d)
    (default (emoji d) (new_emoji u)).

Definition with_completed (b : bool) (d : ListItemData) : ListItemData :=
  MkListItem (listId d) (messageId d) (addedAt d) b.

Section hook.
Variable userId : option string.

Definition createList (name : string) (visibility : Visibility) (type : ListType)
    (emoji : option string) : Eff World (option string) :=
  if negb (truthy userId) then ret None
  else
    try_catch
      (let! docRef :=
         addDoc LISTS_COLLECTION
           (λ serverTimestamp,
              MkList name (or_empty userId) visibility type serverTimestamp
                (or_empty emoji)) in
       ret (Some docRef))
      (λ err,
         console_error "Error creating list:" ;;
         throw "Failed to create list").

Definition updateList (listId : string) (updates : ListUpdates) : Eff World unit :=
  if negb (truthy userId) then ret tt
  else
    try_catch
      (updateDoc LISTS_COLLECTION listId (apply_updates updates))
      (λ err,
         console_error "Error updating list:" ;;
         throw "Failed to update list").

Definition deleteList (listId : string) : Eff World unit :=
  if negb (truthy userId) then ret tt
  else
    try_catch
      (let itemsQuery := [Where "listId" listId] in
       let! itemsSnapshot := getDocs LIST_ITEMS_COLLECTION itemsQuery in
       let deletePromises :=
         (λ d, deleteDoc LIST_ITEMS_COLLECTION (doc_id d)) <$> itemsSnapshot in
       promise_all deletePromises ;;
       deleteDoc LISTS_COLLECTION listId)
      (λ err,
         console_error "Error deleting list:" ;;
         throw "Failed to delete list").

Definition addMessageToList (listId messageId : string) : Eff World unit :=
  if negb (truthy userId) then ret tt
  else
    try_catch
      (let existingQuery := [Where "listId" listId; Where "messageId" messageId] in
       let! existing := getDocs LIST_ITEMS_COLLECTION existingQuery in
       match existing with
       | _ :: _ => ret tt
       | [] =>
           addDoc LIST_ITEMS_COLLECTION
             (λ serverTimestamp, MkListItem listId messageId serverTimestamp false) ;;
           ret tt
       end)
      (λ err,
         console_error "Error adding message to list:" ;;
         throw "Failed to add to list").

Definition removeFromList (listId messageId : string) : Eff World unit :=
  if negb (truthy userId) then ret tt
  else
    try_catch
      (let itemsQuery := [Where "listId" listId; Where "messageId" messageId] in
       let! snapshot := getDocs LIST_ITEMS_COLLECTION itemsQuery in
       let deletePromises :=
         (λ d, deleteDoc LIST_ITEMS_COLLECTION (doc_id d)) <$> snapshot in
       promise_all deletePromises ;;
       ret tt)
      (λ err,
         console_error "Error removing from list:" ;;
         throw "Failed to remove from list").

Definition toggleItemCompleted (itemId : string) : Eff World unit :=
  if negb (truthy userId) then ret tt
  else
    try_catch
      (let! itemSnap := getDoc LIST_ITEMS_COLLECTION itemId in
       match doc_data itemSnap with
       | Some d =>
           let currentCompleted := completed d in
           updateDoc LIST_ITEMS_COLLECTION itemId (with_completed (negb currentCompleted))
       | None => ret tt
       end)
      (λ err,
         console_error "Error toggling item completion:" ;;
         throw "Failed to update item").
End hook.

(** [getListItems] does not look at the identity. *)
Definition getListItems (listId : string) : Eff World (list ListItemWithMessage) :=
  try_catch
    (let itemsQuery := [Where "listId" listId; OrderByDesc "addedAt"] in
     let! snapshot := getDocs LIST_ITEMS_COLLECTION itemsQuery in
     let items := snapshot in
     let messageIds := (λ item, messageId (doc_data item)) <$> items in
     let messagePromises := getDoc MESSAGES_COLLECTION <$> messageIds in
     let! messageDocs := promise_all messagePromises in
     let messageMap := snapshot_map messageDocs in
     ret ((λ item, MkWithMessage item (messageMap !! messageId (doc_data item))) <$> items))
    (λ err,
       console_error "Error fetching list items:" ;;
       throw "Failed to load list items").

End UseLists.

(** ** Vocabulary of the statements *)

Import UseMessages UseLists.

(** What a call leaves behind. *)
Definition outcome {St A} (x : Result A * St) : Result A := x.1.
Definition after {St A} (x : Result A * St) : St := x.2.
Definition hook_after {A} (x : Result A * (UseMessages.Hook * World)) : UseMessages.Hook := x.2.1.
Definition world_after {A} (x : Result A * (UseMessages.Hook * World)) : World := x.2.2.

(** [n] calls in a row, each started when the previous one has completed. *)
Fixpoint repeatedly {St A} (n : nat) (c : Eff St A) (s : St) : list (Result A) * St :=
  match n with
  | O => ([], s)
  | S n' =>
      let '(r, s1) := c s in
      let '(rs, s2) := repeatedly n' c s1 in
      (r :: rs, s2)
  end.

(** The network rejects the next operation. *)
Definition head_fault (w : World) : bool :=
  match faults w with
  | true :: _ => true
  | _ => false
  end.

(** One of the next [n] operations is going to be rejected. *)
Definition rejects (n : nat) (fs : list bool) : bool :=
  existsb (λ b, b) (take n fs).

(** The network rejects none of the next [n] operations. *)
Definition calm (n : nat) (w : World) : Prop := rejects n (faults w) = false.

(** What a batch of operations started together is answered, one entry of
    [fs] each. *)
Fixpoint answers {A} (fs : list bool) (vals : list A) : list (Result A) :=
  match vals with
  | [] => []
  | v :: vals' =>
      (match fs with
       | true :: _ => Throw "unavailable"
       | _ => Ok v
       end) :: answers (tail fs) vals'
  end.

(** The snapshot a point-read of [id] is answered with. *)
Definition snapshot_of {D} (c : Collection D) (w : World) (id : string) : DocumentSnapshot D :=
  MkDoc id (docs c (store w) !! id).

(** The world once [op] has been sent. *)
Definition sent (op : Op) (w : World) : World :=
  MkWorld (store w) (clock w) (now w) (tail (faults w)) (log w ++ [op]) (console w).

(** The world once the batch [ops] has been sent. *)
Definition sent_all (ops : list Op) (w : World) : World :=
  MkWorld (store w) (clock w) (now w) (drop (length ops) (faults w))
    (log w ++ ops) (console w).

(** The world once [msg] has been written to the console. *)
Definition logged (msg : string) (w : World) : World :=
  MkWorld (store w) (clock w) (now w) (faults w) (log w) (console w ++ [msg]).

(** The operations sent since [w]. *)
Definition ops_since (w w' : World) : list Op := drop (length (log w)) (log w').

(** The hook with another visible window. *)
Definition with_messages (ms : list MessageWithReply) (h : Hook) : Hook :=
  MkHook ms (loading h) (loadingMore h) (hasMore h) (error h) (lastDocRef h)
    (initialLoadRef h).

(** Membership in a like set, as [toggleLike] tests it: [likes[u]] is truthy. *)
Definition liked (u : string) (l : gmap string bool) : bool := truthy_at l u.

(** An identity as the sign-in provider issues them: not one of the names
    of [Object.prototype]. *)
Definition plain_identity (u : string) : Prop := u ∉ object_prototype_names.

(** The world once the message [id] has been given the likes [l]. *)
Definition likes_written (id : string) (l : gmap string bool) (d : MessageData) (w : World) : World :=
  set_store (set_docs UseMessages.MESSAGES_COLLECTION
               (<[id := with_likes l d]> (duoboard_messages (store w))))
    (sent (OpUpdateDoc "duoboard_messages" id) (sent (OpGetDoc "duoboard_messages" id) w)).

(** The like set of the message [id] as the store has it. *)
Definition likes_in (w : World) (id : string) : gmap string bool :=
  default ∅ (likes <$> duoboard_messages (store w) !! id).

(** A small conversation to run the hooks on: [alice] says hi, [bob]
    replies to it, and then replies to a message that is no longer there. *)
Module Sample.
Definition hi : MessageData := MkMessage "alice" (Some "hi") None 1 None ∅.
Definition hello : MessageData := MkMessage "bob" (Some "hello") None 2 (Some "m1") ∅.
Definition yo : MessageData := MkMessage "bob" (Some "yo") None 3 (Some "gone") ∅.
Definition feed : gmap string MessageData := {[ "m1" := hi; "m2" := hello; "m3" := yo ]}.
Definition page : list Message := [MkDoc "m3" yo; MkDoc "m2" hello; MkDoc "m1" hi].
Definition groceries : ListData := MkList "Groceries" "alice" private checklist 4 "".
Definition saved : ListItemData := MkListItem "l1" "m2" 5 false.
Definition saved_again : ListItemData := MkListItem "l1" "m3" 6 false.
(** The same conversation under the name [useLists] reads it by. *)
Definition store : Store :=
  MkStore feed feed {[ "l1" := groceries ]} {[ "i1" := saved; "i2" := saved_again ]} ∅.
Definition world (fs : list bool) : World := MkWorld store 10 1000 fs [] [].
End Sample.

(** The reference a message carries: [replyTo] when it is truthy. *)
Definition reply_ref (m : Message) : option string := or_null (replyTo (doc_data m)).

(** The distinct references of a batch, in order of first appearance:
    [uniqueReplyIds]. *)
Definition reply_ids (msgs : list Message) : list string :=
  unique ((λ m, or_empty (replyTo (doc_data m)))
            <$> filter (λ m, truthy (replyTo (doc_data m)) = true) msgs).

(** A message with the document its reference names in the store: [null]
    when it has no reference or the store has no such document. *)
Definition resolve (s : Store) (m : Message) : MessageWithReply :=
  MkWithReply m (reply_ref m ≫= λ id, MkDoc id <$> duoboard_messages s !! id).

(** A list item with the message it names in the ['messages'] collection. *)
Definition join_message (s : Store) (item : ListItem) : ListItemWithMessage :=
  MkWithMessage item
    (MkDoc (messageId (doc_data item)) <$> messages_docs s !! messageId (doc_data item)).

(** A batch ordered newest first. *)
Definition newest_first_page (batch : list Message) : Prop :=
  StronglySorted (λ a b, (timestamp (doc_data b) ≤ timestamp (doc_data a))%nat) batch.

(** The boxes and cells a delivery sets before it awaits anything. *)
Definition initial_load (snapshot : list Message) (h : Hook) : option Timestamp :=
  match head snapshot, initialLoadRef h with
  | Some m0, None => Some (timestamp (doc_data m0))
  | _, _ => initialLoadRef h
  end.

(** The items that record the membership of message [m] in list [l]. *)
Definition membership (l m : string) (items : gmap string ListItemData) : gmap string ListItemData :=
  filter (λ kv, listId kv.2 = l ∧ messageId kv.2 = m) items.

(** Membership is a set: no pair has two items. *)
Definition set_semantics (items : gmap string ListItemData) : Prop :=
  ∀ l m, (size (membership l m items) ≤ 1)%nat.

(** The items of list [l]. *)
Definition items_of (l : string) (items : gmap string ListItemData) : gmap string ListItemData :=
  filter (λ kv, listId kv.2 = l) items.

(** What a batch of deletions started together leaves of a collection:
    the deletions that are rejected remove nothing. *)
Fixpoint delete_answered {D} (fs : list bool) (ids : list string) (m : gmap string D) : gmap string D :=
  match ids with
  | [] => m
  | id :: ids' =>
      delete_answered (tail fs) ids'
        (match fs with
         | true :: _ => m
         | _ => delete id m
         end)
  end.

(** The world once the deletions of the items [ids] have been sent. *)
Definition items_deleted (ids : list string) (w : World) : World :=
  MkWorld
    (MkStore (duoboard_messages (store w)) (messages_docs (store w)) (lists_docs (store w))
       (delete_answered (faults w) ids (listItems_docs (store w))) (objects (store w)))
    (clock w) (now w) (drop (length ids) (faults w))
    (log w ++ (OpDeleteDoc "listItems" <$> ids)) (console w).

(** ** [components/message/MessageBubble.tsx]: what a bubble shows of the likes *)

Module MessageBubble.
(** [message.likes && Object.keys(message.likes).length > 0] *)
Definition isLiked (likes : gmap string bool) : bool := (0 <? size likes)%nat.

(** [message.likes?.[currentUserId]], as a condition *)
Definition likedByMe (likes : gmap string bool) (currentUserId : string) : bool :=
  truthy_at likes currentUserId.

(** [message.likes ? Object.keys(message.likes).length : 0] *)
Definition likeCount (likes : gmap string bool) : nat := size likes.
End MessageBubble.

(** ** Vocabulary of the further statements *)

(** The page [loadMore] asks the store for, behind [cursor]. *)
Definition older_page (w : World) (cursor : Message) : list Message :=
  run_query [OrderByDesc "timestamp"; StartAfter cursor; Limit MESSAGES_PER_PAGE]
    (duoboard_messages (store w)).

(** The whole conversation as the store orders it, newest first. *)
Definition conversation (w : World) : list Message :=
  run_query [OrderByDesc "timestamp"] (duoboard_messages (store w)).

(** The hook lets [loadMore] through. *)
Definition may_load (h : Hook) (cursor : Message) : Prop :=
  loadingMore h = false ∧ hasMore h = true ∧ lastDocRef h = Some cursor.

(** A message has a text or an image, and not both. *)
Definition one_payload (d : MessageData) : Prop :=
  (is_Some (content d) ∧ imageUrl d = None) ∨ (content d = None ∧ is_Some (imageUrl d)).

#[global] Instance one_payload_dec d : Decision (one_payload d).
Proof. unfold one_payload. apply _. Defined.

(** Every entry of a like set is [true] and stands under an identity: the
    keys are the identities that like the message. *)
Definition clean_likes (l : gmap string bool) : Prop :=
  map_Forall (λ k b, b = true ∧ plain_identity k) l.

(** The white-space characters of the language, encoded. *)
Definition white_space : list string :=
  (utf8 <$> [[9]; [10]; [11]; [12]; [13]; [32]; [194; 160]; [225; 154; 128]])
  ++ ((λ c, utf8 [226; 128; c]) <$> seq 128 11)
  ++ (utf8 <$> [[226; 128; 168]; [226; 128; 169]; [226; 128; 175]; [226; 129; 159];
                [227; 128; 128]; [239; 187; 191]]).

(** A text made of white space only. *)
Inductive blank : string → Prop :=
| blank_empty : blank ""
| blank_more tok s : tok ∈ white_space → blank s → blank (tok +:+ s).

(** Where [sendDrawing] stores the image of a drawing. *)
Definition drawing_file (u : string) (w : World) : string :=
  ("duoboard_drawings/" ++ u ++ "_" ++ pretty (now w) ++ ".png")%string.

(** The reference object storage gives for a stored file. *)
Definition download_url (file : string) : string :=
  ("https://firebasestorage.googleapis.com/" ++ file)%string.

(** The server's clock is ahead of every message it has stamped. *)
Definition clock_ahead (w : World) : Prop :=
  map_Forall (λ _ d, (timestamp d < clock w)%nat) (duoboard_messages (store w)).

(** A longer conversation: sixty notes, one per tick of the server clock. *)
Module Archive.
Definition note (n : nat) : MessageData := MkMessage "alice" (Some "note") None n None ∅.
Definition feed : gmap string MessageData :=
  list_to_map ((λ n, (pretty n, note n)) <$> seq 0 60).
Definition world : World := MkWorld (MkStore feed ∅ ∅ ∅ ∅) 60 1000 [] [] [].
End Archive.

(** ** Invariants of a computation *)

(** [c] keeps the invariant [I]: whatever it returns or throws, the state
    it leaves satisfies [I] when the state it started from did. *)
Definition keeps {St A} (I : St → Prop) (c : Eff St A) : Prop :=
  ∀ s, I s → I (c s).2.

(** [c] leaves the part [part] of the state as it was. *)
Definition leaves {St A X} (part : St → X) (c : Eff St A) : Prop :=
  ∀ s, part (c s).2 = part s.

(** Invariants that only speak of the store. *)
Definition inv_W (J : Store → Prop) : World → Prop := λ w, J (store w).
Definition inv_M (J : Store → Prop) : Hook * World → Prop := λ hw, J (store hw.2).

(** Writes to the collection [c] cannot break [J]. *)
Definition untouched_by {D} (J : Store → Prop) (c : Collection D) : Prop :=
  ∀ m s, J s → J (set_docs c m s).

(** What [useMessages] has no business with, and what [useLists] has no
    business with. Nothing writes the ['messages'] collection. *)
Definition lists_side (s : Store) :
    gmap string MessageData * gmap string ListData * gmap string ListItemData :=
  (messages_docs s, lists_docs s, listItems_docs s).
Definition feed_side (s : Store) :
    gmap string MessageData * gmap string MessageData * gmap string string :=
  (duoboard_messages s, messages_docs s, objects s).

(** ** Promises nobody awaits *)

(** A call whose promise is dropped: what it does is done, its rejection
    reaches nobody. *)
Definition detach {St A} (c : Eff St A) : Eff St unit :=
  λ s, (Ok tt, (c s).2).

(** ** [components/message/MessageInput.tsx] *)

Module MessageInput.
Section input.
Context {St : Type}.
Variable onSend : string → Eff St unit.
Variable disabled : bool.

(** The state is the text of the box. *)
Definition setMessage (m : string) : Eff (string * St) unit :=
  liftS (modify (λ _, m)).

Definition handleSubmit : Eff (string * St) unit :=
  let! s := get in
  let message := s.1 in
  if truthy (Some (trim message)) && negb disabled then
    liftW (detach (onSend (trim message))) ;;
    setMessage ""
  else ret tt.
End input.
End MessageInput.

(** ** [pages/ChatPage.tsx] *)

Module ChatPage.

Record Page : Type := MkPage {
  showDrawCanvas : bool;
  showListPicker : bool;
  showListView : bool;
  replyingTo : option MessageWithReply;
  selectedMessageForList : option MessageWithReply;
  likeAnimatingId : option string;
  scrollToMessageId : option string;
}.

Definition initial : Page := MkPage false false false None None None None.

Abbreviation App := (Page * (Hook * World))%type.

Definition setShowListPicker (b : bool) : Eff App unit :=
  liftS (modify (λ p, MkPage (showDrawCanvas p) b (showListView p) (replyingTo p)
                         (selectedMessageForList p) (likeAnimatingId p)
                         (scrollToMessageId p))).
Definition setShowListView (b : bool) : Eff App unit :=
  liftS (modify (λ p, MkPage (showDrawCanvas p) (showListPicker p) b (replyingTo p)
                         (selectedMessageForList p) (likeAnimatingId p)
                         (scrollToMessageId p))).
Definition setReplyingTo (m : option MessageWithReply) : Eff App unit :=
  liftS (modify (λ p, MkPage (showDrawCanvas p) (showListPicker p) (showListView p) m
                         (selectedMessageForList p) (likeAnimatingId p)
                         (scrollToMessageId p))).
Definition setSelectedMessageForList (m : option MessageWithReply) : Eff App unit :=
  liftS (modify (λ p, MkPage (showDrawCanvas p) (showListPicker p) (showListView p)
                         (replyingTo p) m (likeAnimatingId p) (scrollToMessageId p))).
Definition setScrollToMessageId (id : option string) : Eff App unit :=
  liftS (modify (λ p, MkPage (showDrawCanvas p) (showListPicker p) (showListView p)
                         (replyingTo p) (selectedMessageForList p) (likeAnimatingId p) id)).

(** [m.id] of a [MessageWithReply] *)
Definition id_of (m : MessageWithReply) : string := doc_id (message_of m).

Section page.
Variable userId : option string.   (* user?.uid *)

Definition handleSendMessage (content : string) : Eff App unit :=
  try_catch
    (let! s := get in
     liftW (liftW (UseMessages.sendMessage userId content (id_of <$> replyingTo s.1))) ;;
     setReplyingTo None)
    (λ error, liftW (liftW (console_error "Failed to send message:"))).

Definition handleSendDrawing (drawing : DrawingData) : Eff App unit :=
  try_catch
    (let! s := get in
     liftW (liftW (UseMessages.sendDrawing userId drawing (id_of <$> replyingTo s.1))) ;;
     setReplyingTo None)
    (λ error, liftW (liftW (console_error "Failed to send drawing:"))).

Definition handleSwipeReply (message : MessageWithReply) : Eff App unit :=
  setReplyingTo (Some message).

Definition handleSwipeAddToList (message : MessageWithReply) : Eff App unit :=
  setSelectedMessageForList (Some message) ;;
  setShowListPicker true.

Definition handleSelectList (listId : string) : Eff App unit :=
  let! s := get in
  match selectedMessageForList s.1 with
  | Some m =>
      liftW (liftW (UseLists.addMessageToList userId listId (id_of m))) ;;
      setShowListPicker false ;;
      setSelectedMessageForList None
  | None => ret tt
  end.

Definition handleCreateList (name : string) (visibility : Visibility) (type : ListType)
    (emoji : option string) : Eff App (option string) :=
  liftW (liftW (UseLists.createList userId name visibility type emoji)).

Definition handleNavigateToMessage (messageId : string) : Eff App unit :=
  setScrollToMessageId (Some messageId) ;;
  setShowListView false.
End page.
End ChatPage.

(** ** [components/lists/ListPicker.tsx] *)

Module ListPicker.

Record Form : Type := MkForm {
  showCreateForm : bool;
  newListName : string;
  newListVisibility : Visibility;
  newListType : ListType;
  newListEmoji : string;
  creating : bool;
}.

Definition clipboard : string := "📋".

Definition initial : Form := MkForm false "" public collection clipboard false.

Section picker.
Context {St : Type}.
Variable onClose : Eff St unit.
Variable onSelectList : string → Eff St unit.
Variable onCreateList :
  string → Visibility → ListType → option string → Eff St (option string).
(** [console.error], on the state of the caller *)
Variable console_error_in : string → Eff St unit.

Definition setCreating (b : bool) : Eff (Form * St) unit :=
  liftS (modify (λ f, MkForm (showCreateForm f) (newListName f) (newListVisibility f)
                         (newListType f) (newListEmoji f) b)).

Definition resetForm : Eff (Form * St) unit :=
  liftS (modify (λ f, MkForm false "" public collection clipboard (creating f))).

Definition handleCreateList : Eff (Form * St) unit :=
  let! s := get in
  let f := s.1 in
  if negb (truthy (Some (trim (newListName f)))) then ret tt
  else
    setCreating true ;;
    try_finally
      (try_catch
         (let! listId :=
            liftW (onCreateList (trim (newListName f)) (newListVisibility f)
                     (newListType f) (Some (newListEmoji f))) in
          (if truthy listId then liftW (detach (onSelectList (or_empty listId)))
           else ret tt) ;;
          resetForm)
         (λ error, liftW (console_error_in "Failed to create list:")))
      (setCreating false).

Definition handleClose : Eff (Form * St) unit :=
  resetForm ;;
  liftW onClose.
End picker.
End ListPicker.

(** ** [components/lists/ListView.tsx] *)

Module ListView.

Record View : Type := MkView {
  selectedList : option (WithId ListData);
  items : list ListItemWithMessage;
  loading : bool;
  confirmDelete : option string;
}.

Definition initial : View := MkView None [] false None.

Section view.
Context {St : Type}.
Variable onClose : Eff St unit.
Variable onGetListItems : string → Eff St (list ListItemWithMessage).
Variable onToggleCompleted : string → Eff St unit.
Variable onRemoveFromList : string → string → Eff St unit.
Variable onDeleteList : string → Eff St unit.

Definition setSelectedList (l : option (WithId ListData)) : Eff (View * St) unit :=
  liftS (modify (λ v, MkView l (items v) (loading v) (confirmDelete v))).
Definition setItems (l : list ListItemWithMessage) : Eff (View * St) unit :=
  liftS (modify (λ v, MkView (selectedList v) l (loading v) (confirmDelete v))).
Definition setConfirmDelete (c : option string) : Eff (View * St) unit :=
  liftS (modify (λ v, MkView (selectedList v) (items v) (loading v) c)).

Definition handleToggleCompleted (itemId : string) : Eff (View * St) unit :=
  let! s := get in
  liftW (onToggleCompleted itemId) ;;
  match selectedList s.1 with
  | Some l =>
      let! updatedItems := liftW (onGetListItems (doc_id l)) in
      setItems updatedItems
  | None => ret tt
  end.

Definition handleRemove (messageId : string) : Eff (View * St) unit :=
  let! s := get in
  match selectedList s.1 with
  | None => ret tt
  | Some l =>
      liftW (onRemoveFromList (doc_id l) messageId) ;;
      let! updatedItems := liftW (onGetListItems (doc_id l)) in
      setItems updatedItems
  end.

Definition handleDeleteList (listId : string) : Eff (View * St) unit :=
  liftW (onDeleteList listId) ;;
  setSelectedList None ;;
  setConfirmDelete None.

Definition handleClose : Eff (View * St) unit :=
  setSelectedList None ;;
  setItems [] ;;
  setConfirmDelete None ;;
  liftW onClose.
End view.
End ListView.

(** ** [hooks/useGestures.ts] *)

Module UseGestures.

(** [handleTap] of [useDoubleTap]: the time of the tap and the content of
    [lastTapRef] give whether [onDoubleTap] is called and what the box
    holds afterwards. *)
Definition handleTap (delay now lastTapRef : Z) : bool * Z :=
  let timeDiff := (now - lastTapRef)%Z in
  if (0 <? timeDiff)%Z && (timeDiff <? delay)%Z then (true, 0%Z)
  else (false, now).

Definition default_delay : Z := 300.
End UseGestures.

(** The taps of a gesture, one after the other: which of them call
    [onDoubleTap]. *)
Fixpoint taps (delay : Z) (times : list Z) (lastTapRef : Z) : list bool :=
  match times with
  | [] => []
  | now :: times' =>
      let r := UseGestures.handleTap delay now lastTapRef in
      r.1 :: taps delay times' r.2
  end.

(** A burst of taps: each within [delay] of the one before. *)
Fixpoint burst (delay : Z) (times : list Z) : Prop :=
  match times with
  | t1 :: ((t2 :: _) as times') => (t1 < t2 < t1 + delay)%Z ∧ burst delay times'
  | _ => True
  end.

(** Taps that are at least [delay] apart. *)
Fixpoint apart (delay : Z) (times : list Z) : Prop :=
  match times with
  | t1 :: ((t2 :: _) as times') => (t1 + delay ≤ t2)%Z ∧ apart delay times'
  | _ => True
  end.

(** [false, true, false, true, ...] *)
Fixpoint every_second (n : nat) : list bool :=
  match n with
  | 0%nat => []
  | 1%nat => [false]
  | S (S n') => false :: true :: every_second n'
  end.

(** ** The live query of [hooks/useLists.ts] *)

Module ListsFeed.

Record Hook : Type := MkHook {
  lists : list (WithId ListData);
  loading : bool;
  error : option string;
}.

Definition initial : Hook := MkHook [] true None.

Abbreviation M := (Eff (Hook * World)).

Definition setLists (l : list (WithId ListData)) : M unit :=
  liftS (modify (λ h, MkHook l (loading h) (error h))).
Definition setLoading (b : bool) : M unit :=
  liftS (modify (λ h, MkHook (lists h) b (error h))).
Definition setError (e : option string) : M unit :=
  liftS (modify (λ h, MkHook (lists h) (loading h) e)).

(** [or(where('visibility', '==', 'public'), where('ownerId', '==', userId))] *)
Definition shown (userId : string) (d : ListData) : Prop :=
  str_field d "visibility" = Some "public" ∨ str_field d "ownerId" = Some userId.

#[global] Instance shown_dec userId d : Decision (shown userId d).
Proof. unfold shown. apply _. Defined.

Definition listsQuery (userId : string) (m : gmap string ListData) : list (WithId ListData) :=
  run_query [OrderByDesc "createdAt"] (filter (λ kv, shown userId kv.2) m).

Definition on_snapshot (snapshot : list (WithId ListData)) : M unit :=
  let fetchedLists := snapshot in
  setLists fetchedLists ;;
  setLoading false.

Definition on_snapshot_error : M unit :=
  liftW (console_error "Error fetching lists:") ;;
  setError (Some "Failed to load lists") ;;
  setLoading false.

Section hook.
Variable userId : option string.

Definition activate : M unit :=
  if negb (truthy userId) then setLoading false
  else setLoading true.

(** One delivery of the live query; without an identity the effect has
    returned before subscribing. *)
Definition deliver : M unit :=
  if negb (truthy userId) then ret tt
  else
    let! hw := get in
    on_snapshot (listsQuery (or_empty userId) (lists_docs (store hw.2))).
End hook.
End ListsFeed.

(** ** The components as [ChatPage] mounts them *)

(** [<ListPicker onSelectList={handleSelectList} onCreateList={handleCreateList} />] *)
Definition mounted_picker (userId : option string) : Eff (ListPicker.Form * ChatPage.App) unit :=
  ListPicker.handleCreateList
    (ChatPage.handleSelectList userId)
    (ChatPage.handleCreateList userId)
    (λ msg, liftW (liftW (console_error msg))).

(** [<MessageInput onSend={handleSendMessage} />]: [disabled] is not passed. *)
Definition mounted_input (userId : option string) : Eff (string * ChatPage.App) unit :=
  MessageInput.handleSubmit (ChatPage.handleSendMessage userId) false.

(** The form with another [creating] flag. *)
Definition with_creating (b : bool) (f : ListPicker.Form) : ListPicker.Form :=
  ListPicker.MkForm (ListPicker.showCreateForm f) (ListPicker.newListName f)
    (ListPicker.newListVisibility f) (ListPicker.newListType f)
    (ListPicker.newListEmoji f) b.

(** The page with the picker closed and no message selected. *)
Definition picker_closed (p : ChatPage.Page) : ChatPage.Page :=
  ChatPage.MkPage (ChatPage.showDrawCanvas p) false (ChatPage.showListView p)
    (ChatPage.replyingTo p) None (ChatPage.likeAnimatingId p)
    (ChatPage.scrollToMessageId p).

(** ** [loadMore] behind its guard *)

Lemma loadMore_guard userId h w :
  hasMore h = false ∨ loadingMore h = true ∨ lastDocRef h = None ∨ truthy userId = false →
  UseMessages.loadMore userId (h, w) = (Ok tt, (h, w)).
Proof.
  intros Hg. unfold UseMessages.loadMore, UseMessages.loadMore_of, bind, get; simpl.
  destruct (lastDocRef h) as [cursor|] eqn:Hc; [|reflexivity].
  destruct Hg as [Hm | [Hl | [Hn | Hu]]]; try discriminate.
  - rewrite Hm. by rewrite !orb_true_r.
  - rewrite Hl. by rewrite orb_true_r.
  - by rewrite Hu.
Qed.

Lemma repeatedly_noop {St A} (c : Eff St A) (a : A) (s : St) (n : nat) :
  c s = (Ok a, s) → repeatedly n c s = (replicate n (Ok a), s).
Proof.
  intros Hc. induction n as [|n IH]; simpl; [done|].
  by rewrite Hc, IH.
Qed.

(** The guard as far as it goes: the callback of a render that saw
    [hasMore] false or a load in flight returns at once, and so does a
    call made while the cursor box is empty or without an identity. *)
Lemma loadMore_of_guard userId r h w :
  seen_hasMore r = false ∨ seen_loadingMore r = true ∨ lastDocRef h = None ∨
    truthy userId = false →
  UseMessages.loadMore_of userId r (h, w) = (Ok tt, (h, w)).
Proof.
  intros Hg. unfold UseMessages.loadMore_of, bind, get; simpl.
  destruct (lastDocRef h) as [cursor|] eqn:Hc; [|reflexivity].
  destruct Hg as [Hm | [Hl | [Hn | Hu]]]; try discriminate.
  - rewrite Hm. by rewrite !orb_true_r.
  - rewrite Hl. by rewrite orb_true_r.
  - by rewrite Hu.
Qed.

(** Once the component has rendered the state, any number of [loadMore]
    calls in a row return at once whenever [hasMore] is false, or
    [loadingMore] is set, or there is no pagination cursor. *)
Lemma loadMore_noop userId h w n :
  hasMore h = false ∨ loadingMore h = true ∨ lastDocRef h = None →
  repeatedly n (UseMessages.loadMore userId) (h, w) = (replicate n (Ok tt), (h, w)).
Proof.
  intros Hg. apply repeatedly_noop, loadMore_guard. tauto.
Qed.

(** C3. The code where the claim fails. The feed holds sixty messages and
    the first page has been delivered; [loadMore] of the render that
    followed is called twice before the component renders again. The
    second call is made while the first is in flight, [loadingMore] being
    set in the hook: it passes the guard, which tests what the render saw,
    queries the store and changes the window. And when the first call has
    completed and set [hasMore] to false, the same callback still queries
    the store. *)
Lemma loadMore_stale_render_queries :
  let s0 := after (UseMessages.deliver (UseMessages.initial, Archive.world)) in
  let r := UseMessages.render s0.1 in
  let in_flight := after (UseMessages.setLoadingMore true s0) in
  let second := UseMessages.loadMore_of (Some "alice") r in_flight in
  let s1 := after (UseMessages.loadMore_of (Some "alice") r s0) in
  let again := UseMessages.loadMore_of (Some "alice") r s1 in
  (loadingMore in_flight.1 = true ∧
   ops_since in_flight.2 (world_after second) =
     [OpGetDocs "duoboard_messages"
        [QOrderByDesc "timestamp"; QStartAfter "10"; QLimit 50]] ∧
   length (messages in_flight.1) = 50%nat ∧
   length (messages (hook_after second)) = 60%nat) ∧
  (hasMore s1.1 = false ∧
   ops_since s1.2 (world_after again) =
     [OpGetDocs "duoboard_messages"
        [QOrderByDesc "timestamp"; QStartAfter "0"; QLimit 50]]).
Proof. vm_compute. done. Qed.

(** ** The store operations, run *)

Lemma request_run op w :
  request op w = (if head_fault w then Throw "unavailable" else Ok tt, sent op w).
Proof. unfold request, head_fault, sent. by destruct (faults w) as [|[] ?]. Qed.

Lemma head_fault_rejects w : head_fault w = rejects 1 (faults w).
Proof.
  unfold head_fault, rejects.
  destruct (faults w) as [|[] fs]; simpl; rewrite ?take_0; done.
Qed.

Lemma calm_S n w : calm (S n) w ↔ head_fault w = false ∧ rejects n (tail (faults w)) = false.
Proof.
  unfold calm, rejects, head_fault.
  destruct (faults w) as [|[] fs]; simpl; rewrite ?take_nil; simpl;
    intuition congruence.
Qed.

Lemma rejects_tail n fs : rejects (S n) fs = false → rejects n (tail fs) = false.
Proof.
  unfold rejects. destruct fs as [|b fs]; simpl; [by rewrite take_nil|].
  by intros [_ ?]%orb_false_iff.
Qed.

Lemma sent_all_nil w : sent_all [] w = w.
Proof. destruct w. unfold sent_all. simpl. by rewrite app_nil_r, drop_0. Qed.

Lemma sent_all_cons op ops w : sent_all (op :: ops) w = sent_all ops (sent op w).
Proof.
  unfold sent_all, sent. simpl. f_equal.
  - destruct (faults w); simpl; by rewrite ?drop_nil.
  - by rewrite <- app_assoc.
Qed.

Section run.
Context {D : Type} `{Document D}.
Implicit Types (c : Collection D) (w : World).

Lemma getDoc_run c id w :
  getDoc c id w =
    (if head_fault w then Throw "unavailable" else Ok (snapshot_of c w id),
     sent (OpGetDoc (path c) id) w).
Proof.
  unfold getDoc, bind. rewrite request_run. by destruct (head_fault w).
Qed.

Lemma getDocs_run c q w :
  getDocs c q w =
    (if head_fault w then Throw "unavailable"
     else Ok (run_query q (docs c (store w))),
     sent (OpGetDocs (path c) (describe <$> q)) w).
Proof.
  unfold getDocs, bind. rewrite request_run. by destruct (head_fault w).
Qed.

Lemma start_all_getDoc c ids w :
  start_all (getDoc c <$> ids) w =
    (answers (faults w) (snapshot_of c w <$> ids),
     sent_all (OpGetDoc (path c) <$> ids) w).
Proof.
  revert w. induction ids as [|id ids IH]; intros w; simpl.
  - by rewrite sent_all_nil.
  - rewrite getDoc_run, IH, sent_all_cons. simpl.
    unfold head_fault. by destruct (faults w) as [|[] fs].
Qed.
End run.

Lemma settle_answers {A} (fs : list bool) (vals : list A) :
  settle (answers fs vals) =
    if rejects (length vals) fs then Throw "unavailable" else Ok vals.
Proof.
  revert fs. induction vals as [|v vals IH]; intros fs; simpl; [done|].
  destruct fs as [|[] fs]; simpl.
  - rewrite IH. unfold rejects. by rewrite take_nil.
  - done.
  - rewrite IH. unfold rejects. simpl. by destruct (existsb _ _).
Qed.

Lemma promise_all_getDoc {D} `{Document D} (c : Collection D) ids w :
  promise_all (getDoc c <$> ids) w =
    (if rejects (length ids) (faults w) then Throw "unavailable"
     else Ok (snapshot_of c w <$> ids),
     sent_all (OpGetDoc (path c) <$> ids) w).
Proof.
  unfold promise_all. rewrite start_all_getDoc, settle_answers.
  by rewrite length_fmap.
Qed.

Section run_writes.
Context {D : Type} `{Document D}.
Implicit Types (c : Collection D) (w : World).

Lemma addDoc_run c mk w :
  addDoc c mk w =
    if head_fault w then (Throw "unavailable", sent (OpAddDoc (path c)) w)
    else
      let id := fresh (dom (docs c (store w))) in
      (Ok id,
       MkWorld (set_docs c (<[id := mk (clock w)]> (docs c (store w))) (store w))
         (S (clock w)) (now w) (tail (faults w))
         (log w ++ [OpAddDoc (path c)]) (console w)).
Proof.
  unfold addDoc, bind. rewrite request_run. by destruct (head_fault w).
Qed.

Lemma updateDoc_run c id patch w :
  updateDoc c id patch w =
    if head_fault w then (Throw "unavailable", sent (OpUpdateDoc (path c) id) w)
    else
      match docs c (store w) !! id with
      | Some d =>
          (Ok tt,
           set_store (set_docs c (<[id := patch d]> (docs c (store w))))
             (sent (OpUpdateDoc (path c) id) w))
      | None => (Throw "not-found", sent (OpUpdateDoc (path c) id) w)
      end.
Proof.
  unfold updateDoc, bind. rewrite request_run.
  destruct (head_fault w); [done|]. simpl.
  by destruct (docs c (store w) !! id).
Qed.

Lemma deleteDoc_run c id w :
  deleteDoc c id w =
    if head_fault w then (Throw "unavailable", sent (OpDeleteDoc (path c) id) w)
    else
      (Ok tt,
       set_store (set_docs c (delete id (docs c (store w))))
         (sent (OpDeleteDoc (path c) id) w)).
Proof.
  unfold deleteDoc, bind. rewrite request_run. by destruct (head_fault w).
Qed.
End run_writes.

(** ** Calls without an identity *)

(** C9. With no user identity every mutating operation returns at once,
    leaving the hook state and the world (the log of store operations
    included) as they were and raising nothing; [createList] returns [null]
    for an id. [getListItems] alone still sends its query. *)
Theorem no_identity_noop h w content drawing replyTo messageId listId itemId
    name visibility type emoji updates :
  UseMessages.sendMessage None content replyTo w = (Ok tt, w) ∧
  UseMessages.sendDrawing None drawing replyTo w = (Ok tt, w) ∧
  UseMessages.toggleLike None messageId (h, w) = (Ok tt, (h, w)) ∧
  UseMessages.loadMore None (h, w) = (Ok tt, (h, w)) ∧
  UseLists.createList None name visibility type emoji w = (Ok None, w) ∧
  UseLists.updateList None listId updates w = (Ok tt, w) ∧
  UseLists.deleteList None listId w = (Ok tt, w) ∧
  UseLists.addMessageToList None listId messageId w = (Ok tt, w) ∧
  UseLists.removeFromList None listId messageId w = (Ok tt, w) ∧
  UseLists.toggleItemCompleted None itemId w = (Ok tt, w) ∧
  ∃ rest,
    log (after (UseLists.getListItems listId w)) =
      log w ++ OpGetDocs "listItems" [QWhere "listId" listId; QOrderByDesc "addedAt"] :: rest.
Proof.
  repeat split; try reflexivity.
  - apply loadMore_guard. by right; right; right.
  - unfold UseLists.getListItems, try_catch, bind, after.
    rewrite getDocs_run. destruct (head_fault w); simpl.
    + by exists [].
    + rewrite promise_all_getDoc.
      match goal with |- context [OpGetDoc _ <$> ?ids] => exists (OpGetDoc "messages" <$> ids) end.
      destruct (rejects _ _); simpl; by rewrite <- app_assoc.
Qed.

(** ** [toggleLike], case by case *)

Lemma truthy_Some u : u ≠ "" → truthy (Some u) = true.
Proof. intros Hu. simpl. by destruct (String.eqb_spec u ""). Qed.

Section toggleLike.
Variables (u messageId : string) (h : Hook) (w : World).
Hypothesis identity : u ≠ "".

Lemma toggleLike_read_rejected :
  head_fault w = true →
  UseMessages.toggleLike (Some u) messageId (h, w) =
    (Ok tt,
     (h, logged "Error toggling like:" (sent (OpGetDoc "duoboard_messages" messageId) w))).
Proof.
  intros Hf. unfold UseMessages.toggleLike. rewrite truthy_Some by done.
  unfold try_catch, bind, liftW. simpl. rewrite getDoc_run, Hf. done.
Qed.

Lemma toggleLike_missing :
  head_fault w = false →
  duoboard_messages (store w) !! messageId = None →
  UseMessages.toggleLike (Some u) messageId (h, w) =
    (Ok tt, (h, sent (OpGetDoc "duoboard_messages" messageId) w)).
Proof.
  intros Hf Hd. unfold UseMessages.toggleLike. rewrite truthy_Some by done.
  unfold try_catch, bind, liftW. simpl. rewrite getDoc_run, Hf. simpl.
  by rewrite Hd.
Qed.

Lemma toggleLike_write_rejected d :
  head_fault w = false →
  head_fault (sent (OpGetDoc "duoboard_messages" messageId) w) = true →
  duoboard_messages (store w) !! messageId = Some d →
  UseMessages.toggleLike (Some u) messageId (h, w) =
    (Ok tt,
     (h, logged "Error toggling like:"
           (sent (OpUpdateDoc "duoboard_messages" messageId)
              (sent (OpGetDoc "duoboard_messages" messageId) w)))).
Proof.
  intros Hf Hf' Hd. unfold UseMessages.toggleLike. rewrite truthy_Some by done.
  unfold try_catch, bind, liftW. simpl. rewrite getDoc_run, Hf. simpl.
  rewrite Hd. simpl. rewrite updateDoc_run, Hf'. done.
Qed.

Lemma toggleLike_done d :
  head_fault w = false →
  head_fault (sent (OpGetDoc "duoboard_messages" messageId) w) = false →
  duoboard_messages (store w) !! messageId = Some d →
  UseMessages.toggleLike (Some u) messageId (h, w) =
    (Ok tt,
     (with_messages
        (patch_likes messageId (flip_like (Some u) (likes d)) <$> messages h) h,
      likes_written messageId (flip_like (Some u) (likes d)) d w)).
Proof.
  intros Hf Hf' Hd. unfold UseMessages.toggleLike. rewrite truthy_Some by done.
  unfold try_catch, bind, liftW. simpl. rewrite getDoc_run, Hf. simpl.
  rewrite Hd. simpl. rewrite updateDoc_run, Hf'. simpl.
  rewrite Hd. done.
Qed.
End toggleLike.

Lemma calm_sent n op w : calm (S n) w → head_fault w = false ∧ calm n (sent op w).
Proof. intros Hc. by apply calm_S in Hc. Qed.

Section flip_like.
Variable u : string.
Hypothesis Hplain : plain_identity u.
Implicit Type l : gmap string bool.

Lemma not_inherited : bool_decide (u ∈ object_prototype_names) = false.
Proof. by apply bool_decide_eq_false. Qed.

Lemma truthy_at_own l b : l !! u = Some b → truthy_at l u = b.
Proof. unfold truthy_at. by intros ->. Qed.

Lemma truthy_at_none l : l !! u = None → truthy_at l u = false.
Proof. unfold truthy_at. intros ->. apply not_inherited. Qed.

Lemma flip_liked l : liked u (flip_like (Some u) l) = negb (liked u l).
Proof.
  unfold liked, flip_like. cbn [or_empty].
  destruct (l !! u) as [[]|] eqn:Hu.
  - rewrite (truthy_at_own l true Hu). cbn [negb].
    apply truthy_at_none, lookup_delete_eq.
  - rewrite (truthy_at_own l false Hu). cbn [negb].
    apply truthy_at_own, lookup_insert_eq.
  - rewrite (truthy_at_none l Hu). cbn [negb].
    apply truthy_at_own, lookup_insert_eq.
Qed.

Lemma flip_other l v : v ≠ u → flip_like (Some u) l !! v = l !! v.
Proof.
  intros Hv. unfold flip_like. cbn [or_empty].
  destruct (truthy_at l u); by rewrite ?lookup_delete_ne, ?lookup_insert_ne.
Qed.

Lemma flip_flip_liked l v :
  liked v (flip_like (Some u) (flip_like (Some u) l)) = liked v l.
Proof.
  destruct (decide (v = u)) as [->|Hv].
  - by rewrite !flip_liked, negb_involutive.
  - unfold liked, truthy_at. by rewrite !flip_other.
Qed.

Lemma flip_flip l : l !! u ≠ Some false → flip_like (Some u) (flip_like (Some u) l) = l.
Proof.
  intros Hu. unfold flip_like. cbn [or_empty].
  destruct (l !! u) as [[]|] eqn:Hl; [| done |].
  - rewrite (truthy_at_own l true Hl).
    rewrite (truthy_at_none (delete u l)) by apply lookup_delete_eq.
    rewrite insert_delete_eq. by apply insert_id.
  - rewrite (truthy_at_none l Hl).
    rewrite (truthy_at_own (<[u:=true]> l) true) by apply lookup_insert_eq.
    rewrite delete_insert_eq. by apply delete_id.
Qed.
End flip_like.

Lemma with_likes_id d : with_likes (likes d) d = d.
Proof. by destruct d. Qed.

Lemma with_likes_twice l l' d : with_likes l (with_likes l' d) = with_likes l d.
Proof. done. Qed.

(** C6. For a message the store has and an acting identity [u], with none
    of the four store operations rejected: one [toggleLike] flips whether
    [u] is in the message's like set and leaves every other identity's
    entry, and the other fields of the message, as they were; a second one
    brings every identity's membership back to the original, and the store
    itself when the original entry of [u] was not a stored [false]. The
    identity is one the sign-in provider issues: under a name that every
    object inherits, such as [constructor], the test [newLikes[userId]] is
    truthy without an entry and the like set is written back as it was. *)
Theorem toggleLike_self_inverse u messageId d h w :
  u ≠ "" →
  plain_identity u →
  duoboard_messages (store w) !! messageId = Some d →
  calm 4 w →
  let w1 := world_after (UseMessages.toggleLike (Some u) messageId (h, w)) in
  let w2 :=
    world_after
      (UseMessages.toggleLike (Some u) messageId
         (after (UseMessages.toggleLike (Some u) messageId (h, w)))) in
  duoboard_messages (store w1) !! messageId = Some (with_likes (likes_in w1 messageId) d) ∧
  liked u (likes_in w1 messageId) = negb (liked u (likes d)) ∧
  (∀ v, v ≠ u → likes_in w1 messageId !! v = likes d !! v) ∧
  duoboard_messages (store w2) !! messageId = Some (with_likes (likes_in w2 messageId) d) ∧
  (∀ v, liked v (likes_in w2 messageId) = liked v (likes d)) ∧
  (∀ v, v ≠ u → likes_in w2 messageId !! v = likes d !! v) ∧
  (likes d !! u ≠ Some false → store w2 = store w).
Proof.
  intros Hu Hplain Hd Hc.
  apply (calm_sent _ (OpGetDoc "duoboard_messages" messageId)) in Hc as [Hf1 Hc].
  apply (calm_sent _ (OpUpdateDoc "duoboard_messages" messageId)) in Hc as [Hf2 Hc].
  rewrite (toggleLike_done u messageId h w Hu d Hf1 Hf2 Hd).
  set (l1 := flip_like (Some u) (likes d)).
  set (w1 := likes_written messageId l1 d w).
  assert (Hd1 : duoboard_messages (store w1) !! messageId = Some (with_likes l1 d))
    by apply lookup_insert_eq.
  apply (calm_sent _ (OpGetDoc "duoboard_messages" messageId)) in Hc as [Hf3 Hc].
  apply (calm_sent _ (OpUpdateDoc "duoboard_messages" messageId)) in Hc as [Hf4 _].
  unfold after, world_after. simpl.
  rewrite (toggleLike_done u messageId _ w1 Hu _ Hf3 Hf4 Hd1). simpl.
  unfold likes_in. simpl. rewrite !lookup_insert_eq. simpl.
  repeat split.
  - by apply flip_liked.
  - intros v Hv. by apply flip_other.
  - intros v. by apply flip_flip_liked.
  - intros v Hv. unfold l1. by rewrite !flip_other.
  - intros Hl. unfold l1. rewrite flip_flip by done.
    rewrite insert_insert_eq, with_likes_twice, with_likes_id, insert_id by done.
    by destruct (store w).
Qed.

Lemma toggleLike_self_inverse_witness :
  "alice" ≠ "" ∧
  plain_identity "alice" ∧
  duoboard_messages (store (Sample.world [])) !! "m2" = Some Sample.hello ∧
  calm 4 (Sample.world []) ∧
  liked "alice"
    (likes_in
       (world_after (UseMessages.toggleLike (Some "alice") "m2"
                       (UseMessages.initial, Sample.world []))) "m2")
    = negb (liked "alice" (likes Sample.hello)).
Proof.
  assert (plain_identity "alice") as Hplain
    by (apply (bool_decide_unpack _); by vm_compute).
  split; [done|]. split; [exact Hplain|]. split; [reflexivity|]. split; [reflexivity|].
  apply (toggleLike_self_inverse "alice" "m2" Sample.hello UseMessages.initial
           (Sample.world [])); [done|exact Hplain|reflexivity|reflexivity].
Defined.

(** What [toggleLike] does when the store rejects its write: the failure is
    caught inside the operation and written to the console, the call
    completes, and neither the visible window (nor any other cell of the
    hook) nor the store is changed. *)
Lemma toggleLike_write_failure u messageId d h w :
  u ≠ "" →
  duoboard_messages (store w) !! messageId = Some d →
  head_fault w = false →
  head_fault (sent (OpGetDoc "duoboard_messages" messageId) w) = true →
  let x := UseMessages.toggleLike (Some u) messageId (h, w) in
  outcome x = Ok tt ∧
  hook_after x = h ∧
  store (world_after x) = store w ∧
  console (world_after x) = console w ++ ["Error toggling like:"] ∧
  ops_since w (world_after x) =
    [OpGetDoc "duoboard_messages" messageId; OpUpdateDoc "duoboard_messages" messageId].
Proof.
  intros Hu Hd Hf Hf'. simpl.
  rewrite (toggleLike_write_rejected u messageId h w Hu d Hf Hf' Hd).
  repeat split. unfold ops_since. simpl.
  by rewrite <- app_assoc, drop_app_length.
Qed.

Lemma toggleLike_write_failure_witness :
  "alice" ≠ "" ∧
  duoboard_messages (store (Sample.world [false; true])) !! "m2" = Some Sample.hello ∧
  head_fault (Sample.world [false; true]) = false ∧
  head_fault (sent (OpGetDoc "duoboard_messages" "m2") (Sample.world [false; true])) = true ∧
  hook_after (UseMessages.toggleLike (Some "alice") "m2"
                (UseMessages.initial, Sample.world [false; true]))
    = UseMessages.initial.
Proof.
  split; [done|]. split; [reflexivity|]. split; [reflexivity|]. split; [reflexivity|].
  apply (toggleLike_write_failure "alice" "m2" Sample.hello UseMessages.initial
           (Sample.world [false; true])); [done|reflexivity..].
Defined.

(** C7. The code where the claim fails: the read of ["m2"] is answered and
    the write of its likes is rejected. [toggleLike] completes normally, so
    no failure reaches the caller; the window and the store are as they
    were. Under the same answers its sibling [toggleItemCompleted] raises
    its typed failure, as the sends and every mutation of the lists do. *)
Lemma toggleLike_failure_not_surfaced :
  let x := UseMessages.toggleLike (Some "alice") "m2"
             (UseMessages.initial, Sample.world [false; true]) in
  outcome x = Ok tt ∧
  hook_after x = UseMessages.initial ∧
  store (world_after x) = Sample.store ∧
  outcome (UseLists.toggleItemCompleted (Some "alice") "i1" (Sample.world [false; true]))
    = Throw "Failed to update item".
Proof. vm_compute. done. Qed.

(** ** Point mutations of a document that is not there *)

Lemma toggleItemCompleted_missing u itemId w :
  u ≠ "" →
  head_fault w = false →
  listItems_docs (store w) !! itemId = None →
  UseLists.toggleItemCompleted (Some u) itemId w =
    (Ok tt, sent (OpGetDoc "listItems" itemId) w).
Proof.
  intros Hu Hf Hd. unfold UseLists.toggleItemCompleted. rewrite truthy_Some by done.
  unfold try_catch, bind. simpl. rewrite getDoc_run, Hf. simpl. by rewrite Hd.
Qed.

Lemma ops_since_sent op w : ops_since w (sent op w) = [op].
Proof. unfold ops_since. simpl. by rewrite drop_app_length. Qed.

(** C10. [toggleLike] on a message id, and [toggleItemCompleted] on an
    item id, whose document the store does not have: once the point-read
    has been answered the call returns normally, having sent nothing but
    that read (so no write); the hook state and the store are as they
    were. *)
Theorem missing_target_noop u messageId itemId h w :
  u ≠ "" →
  head_fault w = false →
  duoboard_messages (store w) !! messageId = None →
  listItems_docs (store w) !! itemId = None →
  let x := UseMessages.toggleLike (Some u) messageId (h, w) in
  let y := UseLists.toggleItemCompleted (Some u) itemId w in
  (outcome x = Ok tt ∧
   hook_after x = h ∧
   store (world_after x) = store w ∧
   ops_since w (world_after x) = [OpGetDoc "duoboard_messages" messageId]) ∧
  (outcome y = Ok tt ∧
   store (after y) = store w ∧
   ops_since w (after y) = [OpGetDoc "listItems" itemId]).
Proof.
  intros Hu Hf Hm Hi. simpl.
  rewrite toggleLike_missing, toggleItemCompleted_missing by done.
  unfold outcome, hook_after, world_after, after. cbn [fst snd].
  by rewrite !ops_since_sent.
Qed.

Lemma missing_target_noop_witness :
  "alice" ≠ "" ∧
  head_fault (Sample.world []) = false ∧
  duoboard_messages (store (Sample.world [])) !! "gone" = None ∧
  listItems_docs (store (Sample.world [])) !! "i9" = None ∧
  outcome (UseLists.toggleItemCompleted (Some "alice") "i9" (Sample.world [])) = Ok tt.
Proof.
  split; [done|]. split; [reflexivity|]. split; [reflexivity|]. split; [reflexivity|].
  apply (missing_target_noop "alice" "gone" "i9" UseMessages.initial (Sample.world []));
    [done|reflexivity..].
Defined.

(** ** Deduplication and the lookup table *)

Lemma elem_of_unique_from seen l x :
  x ∈ unique_from seen l ↔ x ∈ l ∧ x ∉ seen.
Proof.
  revert seen. induction l as [|y l IH]; intros seen; simpl.
  - set_solver.
  - case_bool_decide as Hy.
    + rewrite IH. set_solver.
    + rewrite elem_of_cons, IH. destruct (decide (x = y)); set_solver.
Qed.

Lemma NoDup_unique_from seen l : NoDup (unique_from seen l).
Proof.
  revert seen. induction l as [|y l IH]; intros seen; simpl.
  - constructor.
  - case_bool_decide; [apply IH|].
    constructor; [|apply IH]. rewrite elem_of_unique_from. set_solver.
Qed.

Lemma elem_of_unique l x : x ∈ unique l ↔ x ∈ l.
Proof. unfold unique. rewrite elem_of_unique_from. set_solver. Qed.

Lemma NoDup_reply_ids msgs : NoDup (reply_ids msgs).
Proof. apply NoDup_unique_from. Qed.

Lemma elem_of_reply_ids msgs m id :
  m ∈ msgs → reply_ref m = Some id → id ∈ reply_ids msgs.
Proof.
  intros Hm Hr. unfold reply_ids. rewrite elem_of_unique.
  unfold reply_ref, or_null in Hr.
  destruct (truthy (replyTo (doc_data m))) eqn:Ht; [|done].
  apply list_elem_of_fmap. exists m. split.
  - by rewrite Hr.
  - by apply list_elem_of_filter.
Qed.

Lemma snapshot_map_from {D} (c : Collection D) w ids (acc : gmap string (WithId D)) k :
  foldl (λ (acc : gmap string (WithId D)) (docSnap : DocumentSnapshot D),
           match doc_data docSnap with
           | Some d => <[doc_id docSnap := MkDoc (doc_id docSnap) d]> acc
           | None => acc
           end) acc (snapshot_of c w <$> ids) !! k =
    if decide (k ∈ ids) then
      match docs c (store w) !! k with
      | Some d => Some (MkDoc k d)
      | None => acc !! k
      end
    else acc !! k.
Proof.
  revert acc. induction ids as [|id ids IH]; intros acc.
  - by rewrite decide_False by set_solver.
  - rewrite fmap_cons. cbn [foldl snapshot_of doc_data doc_id].
    rewrite IH. destruct (decide (k = id)) as [->|Hk].
    + rewrite (decide_True (P := id ∈ id :: ids)) by set_solver.
      destruct (docs c (store w) !! id) as [d|] eqn:Hd.
      * rewrite lookup_insert_eq. by destruct (decide _).
      * by destruct (decide _).
    + destruct (decide (k ∈ ids)) as [Hin|Hin].
      * rewrite (decide_True (P := k ∈ id :: ids)) by set_solver.
        destruct (docs c (store w) !! k); [done|].
        destruct (docs c (store w) !! id); [|done]. by rewrite lookup_insert_ne.
      * rewrite (decide_False (P := k ∈ id :: ids)) by set_solver.
        destruct (docs c (store w) !! id); [|done]. by rewrite lookup_insert_ne.
Qed.

Lemma snapshot_map_lookup {D} (c : Collection D) w ids k :
  k ∈ ids →
  snapshot_map (snapshot_of c w <$> ids) !! k = MkDoc k <$> docs c (store w) !! k.
Proof.
  intros Hk. unfold snapshot_map. rewrite snapshot_map_from, decide_True by done.
  by destruct (docs c (store w) !! k).
Qed.

(** ** Reference resolution, run *)

Lemma no_reply_ids msgs :
  filter (λ m : Message, truthy (replyTo (doc_data m)) = true) msgs = [] →
  ∀ m, m ∈ msgs → reply_ref m = None.
Proof.
  intros Hnil m Hm. unfold reply_ref, or_null.
  destruct (truthy (replyTo (doc_data m))) eqn:Ht; [|done].
  assert (m ∈ filter (λ m : Message, truthy (replyTo (doc_data m)) = true) msgs) as Hin
    by by apply list_elem_of_filter.
  rewrite Hnil in Hin. by apply elem_of_nil in Hin.
Qed.

Lemma attach_reply_resolve msgs w m :
  m ∈ msgs →
  attach_reply
    (reply_map (snapshot_of UseMessages.MESSAGES_COLLECTION w <$> reply_ids msgs)) m =
  resolve (store w) m.
Proof.
  intros Hm. unfold attach_reply, resolve, reply_map. f_equal.
  destruct (reply_ref m) as [id|] eqn:Hr.
  - pose proof (elem_of_reply_ids _ _ _ Hm Hr) as Hin.
    unfold reply_ref, or_null in Hr.
    destruct (truthy (replyTo (doc_data m))) eqn:Ht; [|done].
    rewrite Hr. simpl. by rewrite snapshot_map_lookup.
  - unfold reply_ref, or_null in Hr.
    destruct (truthy (replyTo (doc_data m))) eqn:Ht; [|done].
    destruct (replyTo (doc_data m)); done.
Qed.

Lemma fetchReplyMessages_run msgs w :
  UseMessages.fetchReplyMessages msgs w =
    (if rejects (length (reply_ids msgs)) (faults w) then Throw "unavailable"
     else Ok (resolve (store w) <$> msgs),
     sent_all (OpGetDoc "duoboard_messages" <$> reply_ids msgs) w).
Proof.
  unfold UseMessages.fetchReplyMessages, reply_ids.
  destruct (filter _ msgs) as [|m0 ms] eqn:Hf.
  - simpl. unfold ret. rewrite sent_all_nil. f_equal. f_equal.
    apply list_fmap_ext. intros i m Hm%list_elem_of_lookup_2.
    unfold resolve. by rewrite (no_reply_ids msgs Hf m Hm).
  - rewrite <- Hf. clear Hf.
    destruct (length _ =? 0)%nat eqn:Hlen.
    + apply Nat.eqb_eq, nil_length_inv in Hlen. rewrite Hlen. simpl.
      unfold ret. rewrite sent_all_nil. f_equal. f_equal.
      apply list_fmap_ext. intros i m Hm%list_elem_of_lookup_2.
      unfold resolve. rewrite (no_reply_ids msgs) ; [done| |done].
      by apply fmap_nil_inv in Hlen.
    + unfold bind. rewrite promise_all_getDoc. fold (reply_ids msgs).
      destruct (rejects _ _); [done|]. unfold ret. f_equal. f_equal.
      apply list_fmap_ext. intros i m Hm%list_elem_of_lookup_2.
      by apply attach_reply_resolve.
Qed.

Lemma on_snapshot_run snapshot h w :
  UseMessages.on_snapshot snapshot (h, w) =
    (Ok tt,
     if rejects (length (reply_ids snapshot)) (faults w) then
       (MkHook (messages h) false (loadingMore h)
          (length snapshot =? MESSAGES_PER_PAGE)%nat (Some "Failed to load messages")
          (last snapshot) (initial_load snapshot h),
        logged "Error fetching messages:"
          (sent_all (OpGetDoc "duoboard_messages" <$> reply_ids snapshot) w))
     else
       (MkHook (reverse (resolve (store w) <$> snapshot)) false (loadingMore h)
          (length snapshot =? MESSAGES_PER_PAGE)%nat (error h)
          (last snapshot) (initial_load snapshot h),
        sent_all (OpGetDoc "duoboard_messages" <$> reply_ids snapshot) w)).
Proof.
  unfold UseMessages.on_snapshot, try_catch, bind, get, liftW, initial_load. simpl.
  destruct (head snapshot) as [m0|], (initialLoadRef h) as [t|] eqn:Hi; simpl;
    rewrite fetchReplyMessages_run;
    destruct (rejects _ _); simpl; rewrite ?Hi; reflexivity.
Qed.

(** ** A delivery of the live query *)

Lemma last_is_oldest batch c :
  newest_first_page batch →
  last batch = Some c →
  c ∈ batch ∧
  ∀ m, m ∈ batch → (timestamp (doc_data c) ≤ timestamp (doc_data m))%nat.
Proof.
  unfold newest_first_page. induction 1 as [|x l Hs IH Hx]; intros Hlast; [done|].
  destruct l as [|y l].
  - injection Hlast as <-. split; [set_solver|]. intros m ->%list_elem_of_singleton. done.
  - change (last (x :: y :: l)) with (last (y :: l)) in Hlast.
    destruct (IH Hlast) as [Hc Hmin]. split; [set_solver|].
    intros m [->|Hm]%elem_of_cons; [|by apply Hmin].
    rewrite Forall_forall in Hx. by apply Hx.
Qed.

Lemma newest_first_total {D} `{Document D} f : Total (newest_first (D := D) f).
Proof.
  intros a b. unfold newest_first, desc_on.
  destruct (Nat.lt_trichotomy (time_of f a) (time_of f b)) as [Hlt|[Heq|Hgt]].
  - right. apply Nat.ltb_lt in Hlt. by rewrite Hlt.
  - rewrite Heq, Nat.eqb_refl, Nat.ltb_irrefl. simpl.
    destruct (String.leb_total (doc_id a) (doc_id b)) as [Hle|Hle];
      [right|left]; by rewrite Hle.
  - left. apply Nat.ltb_lt in Hgt. by rewrite Hgt.
Qed.

Lemma Sorted_weaken {A} (R R' : relation A) l :
  (∀ a b, R a b → R' a b) → Sorted R l → Sorted R' l.
Proof.
  intros HR. induction 1 as [|x l Hs IH Hhd]; constructor; [done|].
  destruct Hhd; constructor. by apply HR.
Qed.

(** The page the live query delivers is ordered newest first and has at
    most [MESSAGES_PER_PAGE] items. *)
Lemma delivered_page_newest_first (m : gmap string MessageData) :
  newest_first_page (run_query initialQuery m) ∧
  (length (run_query initialQuery m) ≤ MESSAGES_PER_PAGE)%nat.
Proof.
  unfold run_query, initialQuery. cbn [constrain]. split; [|rewrite length_take; lia].
  set (rows := merge_sort _ _).
  apply (StronglySorted_app_1_l _ _ (drop MESSAGES_PER_PAGE rows)).
  rewrite take_drop. unfold newest_first_page.
  assert (Transitive (λ a b : Message, (timestamp (doc_data b) ≤ timestamp (doc_data a))%nat))
    by (intros a b c ? ?; lia).
  apply Sorted_StronglySorted; [done|].
  apply (Sorted_weaken (newest_first "timestamp")).
  - intros a b. unfold newest_first, desc_on, time_of. simpl.
    intros [Hlt%Is_true_true%Nat.ltb_lt|[Heq%Is_true_true%Nat.eqb_eq _]%andb_prop_elim]%orb_prop_elim; lia.
  - apply Sorted_merge_sort, newest_first_total.
Qed.

Lemma deliver_on_snapshot h w :
  UseMessages.deliver (h, w) =
    UseMessages.on_snapshot
      (run_query initialQuery (duoboard_messages (store w))) (h, w).
Proof. reflexivity. Qed.

Lemma ops_since_sent_all ops w : ops_since w (sent_all ops w) = ops.
Proof. unfold ops_since. simpl. by rewrite drop_app_length. Qed.

(** C1. A delivery of a batch ordered newest first leaves the pagination
    cursor on the last, that is the oldest, item of the batch, and [hasMore]
    true exactly when the batch has 50 items. It sends one point-read per
    distinct reply reference of the batch and, these reads being answered,
    the visible window becomes the batch in reverse (oldest first),
    whatever it held before, each item carrying the document its [replyTo]
    names in the store, or [null] when it has no reference or the store
    has no such document. *)
Theorem delivery_replaces_window snapshot h w :
  newest_first_page snapshot →
  let x := UseMessages.on_snapshot snapshot (h, w) in
  lastDocRef (hook_after x) = last snapshot ∧
  (∀ c, lastDocRef (hook_after x) = Some c →
        c ∈ snapshot ∧
        ∀ m, m ∈ snapshot → (timestamp (doc_data c) ≤ timestamp (doc_data m))%nat) ∧
  (hasMore (hook_after x) = true ↔ length snapshot = 50%nat) ∧
  NoDup (reply_ids snapshot) ∧
  (∀ m id, m ∈ snapshot → reply_ref m = Some id → id ∈ reply_ids snapshot) ∧
  ops_since w (world_after x) = OpGetDoc "duoboard_messages" <$> reply_ids snapshot ∧
  store (world_after x) = store w ∧
  (calm (length (reply_ids snapshot)) w →
   messages (hook_after x) = reverse (resolve (store w) <$> snapshot) ∧
   error (hook_after x) = error h).
Proof.
  intros Hsorted. simpl. rewrite on_snapshot_run. unfold calm.
  assert (∀ (b : bool) (p q : Hook * World), (if b then p else q).1 =
            if b then p.1 else q.1) as Hif1 by (by intros []).
  assert (∀ (b : bool) (p q : Hook * World), (if b then p else q).2 =
            if b then p.2 else q.2) as Hif2 by (by intros []).
  unfold hook_after, world_after. cbn [fst snd]. rewrite Hif1, Hif2. cbn [fst snd].
  split; [by destruct (rejects _ _)|].
  split.
  { intros c Hc. apply last_is_oldest; [done|]. by destruct (rejects _ _). }
  split; [destruct (rejects _ _); apply Nat.eqb_eq|].
  split; [apply NoDup_reply_ids|].
  split; [apply elem_of_reply_ids|].
  split.
  { destruct (rejects _ _); [|apply ops_since_sent_all].
    unfold ops_since. simpl. by rewrite drop_app_length. }
  split; [by destruct (rejects _ _)|].
  by intros ->.
Qed.

Lemma delivery_replaces_window_witness :
  newest_first_page Sample.page ∧
  calm (length (reply_ids Sample.page)) (Sample.world []) ∧
  messages (hook_after (UseMessages.on_snapshot Sample.page
                          (UseMessages.initial, Sample.world []))) =
    reverse (resolve (store (Sample.world [])) <$> Sample.page).
Proof.
  assert (newest_first_page Sample.page) as Hsorted.
  { unfold newest_first_page, Sample.page.
    repeat (constructor; simpl; try lia). }
  split; [exact Hsorted|]. split; [reflexivity|].
  apply (delivery_replaces_window Sample.page UseMessages.initial (Sample.world []) Hsorted).
  reflexivity.
Defined.

(** C2, as stated, fails: the batch has two references; the read of the
    first is answered, the read of the second is rejected, and the page is
    not delivered: the window stays empty and the feed error is set. In
    [getListItems] the query is answered, the second of the two message
    reads is rejected, and the call raises. *)
Lemma lookup_failure_aborts_page :
  outcome (UseMessages.fetchReplyMessages Sample.page (Sample.world [false; true]))
    = Throw "unavailable" ∧
  messages (hook_after (UseMessages.on_snapshot Sample.page
                          (UseMessages.initial, Sample.world [false; true]))) = [] ∧
  error (hook_after (UseMessages.on_snapshot Sample.page
                       (UseMessages.initial, Sample.world [false; true])))
    = Some "Failed to load messages" ∧
  outcome (UseLists.getListItems "l1" (Sample.world [false; false; true]))
    = Throw "Failed to load list items".
Proof. repeat split; vm_compute; reflexivity. Qed.

Lemma getListItems_run listId w :
  let q : list (Constraint ListItemData) := [Where "listId" listId; OrderByDesc "addedAt"] in
  let items := run_query q (listItems_docs (store w)) in
  let reads := OpGetDoc "messages" <$> ((λ item, messageId (doc_data item)) <$> items) in
  UseLists.getListItems listId w =
    if head_fault w then
      (Throw "Failed to load list items",
       logged "Error fetching list items:" (sent (OpGetDocs "listItems" (describe <$> q)) w))
    else if rejects (length items) (tail (faults w)) then
      (Throw "Failed to load list items",
       logged "Error fetching list items:"
         (sent_all reads (sent (OpGetDocs "listItems" (describe <$> q)) w)))
    else
      (Ok (join_message (store w) <$> items),
       sent_all reads (sent (OpGetDocs "listItems" (describe <$> q)) w)).
Proof.
  intros q items reads. unfold UseLists.getListItems, try_catch, bind.
  rewrite getDocs_run. destruct (head_fault w); [done|]. simpl.
  rewrite promise_all_getDoc. simpl. rewrite length_fmap. fold q. fold items.
  destruct (rejects _ _); [done|]. unfold ret. f_equal. f_equal.
  apply list_fmap_ext. intros i item Hitem%list_elem_of_lookup_2.
  unfold join_message. f_equal.
  rewrite (snapshot_map_lookup UseLists.MESSAGES_COLLECTION); [done|].
  apply list_elem_of_fmap. by exists item.
Qed.

(** C2, as amended. In a batch of point-reads (one per distinct reply
    reference of a delivered page, one per item in [getListItems]) a read
    that is answered without a document leaves that reference [null]; a
    read that is rejected fails the batch as a whole. The delivery then
    keeps the window it had and sets the feed error, and [getListItems]
    raises its typed failure. *)
Theorem lookup_failure_fails_batch snapshot h w listId :
  let x := UseMessages.on_snapshot snapshot (h, w) in
  let rejected := rejects (length (reply_ids snapshot)) (faults w) in
  let items :=
    run_query [Where "listId" listId; OrderByDesc "addedAt"] (listItems_docs (store w)) in
  outcome (UseMessages.fetchReplyMessages snapshot w) =
    (if rejected then Throw "unavailable" else Ok (resolve (store w) <$> snapshot)) ∧
  messages (hook_after x) =
    (if rejected then messages h else reverse (resolve (store w) <$> snapshot)) ∧
  error (hook_after x) =
    (if rejected then Some "Failed to load messages" else error h) ∧
  outcome (UseLists.getListItems listId w) =
    (if head_fault w || rejects (length items) (tail (faults w))
     then Throw "Failed to load list items"
     else Ok (join_message (store w) <$> items)).
Proof.
  simpl. rewrite on_snapshot_run, fetchReplyMessages_run.
  pose proof (getListItems_run listId w) as Hl. simpl in Hl. rewrite Hl.
  unfold outcome, hook_after. simpl.
  destruct (rejects (length (reply_ids snapshot)) (faults w)); simpl;
    destruct (head_fault w); simpl; repeat split; by destruct (rejects _ _).
Qed.

(** ** [createList] *)

Lemma createList_run u name visibility type emoji w :
  u ≠ "" →
  UseLists.createList (Some u) name visibility type emoji w =
    if head_fault w then
      (Throw "Failed to create list",
       logged "Error creating list:" (sent (OpAddDoc "lists") w))
    else
      let id := fresh (dom (lists_docs (store w))) in
      (Ok (Some id),
       MkWorld
         (set_docs UseLists.LISTS_COLLECTION
            (<[id := MkList name u visibility type (clock w) (or_empty emoji)]>
               (lists_docs (store w))) (store w))
         (S (clock w)) (now w) (tail (faults w)) (log w ++ [OpAddDoc "lists"]) (console w)).
Proof.
  intros Hu. unfold UseLists.createList. rewrite truthy_Some by done.
  unfold try_catch, bind. simpl. rewrite addDoc_run.
  by destruct (head_fault w).
Qed.

(** C8, as amended. [createList] does not look at the name: with an
    identity present and the insert not rejected, any name, the empty one
    included, is persisted as it is in a new List with the given
    visibility and kind, the given emoji (the empty string when there is
    none), the caller as owner and the server's time, under an id the
    collection did not have, and that id is returned. *)
Theorem createList_persists u name visibility type emoji w :
  u ≠ "" →
  head_fault w = false →
  let x := UseLists.createList (Some u) name visibility type emoji w in
  let id := fresh (dom (lists_docs (store w))) in
  outcome x = Ok (Some id) ∧
  lists_docs (store w) !! id = None ∧
  lists_docs (store (after x)) =
    <[id := MkList name u visibility type (clock w)
              (match emoji with Some e => e | None => "" end)]> (lists_docs (store w)) ∧
  ops_since w (after x) = [OpAddDoc "lists"].
Proof.
  intros Hu Hf. simpl. rewrite createList_run, Hf by done. simpl.
  split; [done|]. split; [apply not_elem_of_dom, is_fresh|]. split; [done|].
  unfold ops_since. simpl. by rewrite drop_app_length.
Qed.

Lemma createList_persists_witness :
  "alice" ≠ "" ∧
  head_fault (Sample.world []) = false ∧
  outcome (UseLists.createList (Some "alice") "" public collection None (Sample.world []))
    = Ok (Some (fresh (dom (lists_docs (store (Sample.world [])))))).
Proof.
  split; [done|]. split; [reflexivity|].
  apply (createList_persists "alice" "" public collection None (Sample.world []));
    [done|reflexivity].
Defined.

(** C8, as stated, fails: called with the empty name, [createList]
    returns an id and the store holds a new List whose name is empty. *)
Lemma createList_empty_name_persisted :
  let x := UseLists.createList (Some "alice") "" public collection None (Sample.world []) in
  outcome x = Ok (Some "0") ∧
  lists_docs (store (Sample.world [])) !! "0" = None ∧
  lists_docs (store (after x)) !! "0" = Some (MkList "" "alice" public collection 10 "").
Proof. repeat split; vm_compute; reflexivity. Qed.

(** ** Queries *)

Lemma elem_of_rows_of {D} `{Document D} (m : gmap string D) (r : WithId D) :
  r ∈ rows_of m ↔ m !! doc_id r = Some (doc_data r).
Proof.
  unfold rows_of. rewrite merge_sort_Permutation, list_elem_of_fmap. split.
  - intros [[k d] [-> Hkd%elem_of_map_to_list]]. done.
  - intros Hr. exists (doc_id r, doc_data r). split; [by destruct r|].
    by apply elem_of_map_to_list.
Qed.

Lemma elem_of_items_query l (items : gmap string ListItemData) (r : ListItem) :
  r ∈ run_query [Where "listId" l] items ↔
  items !! doc_id r = Some (doc_data r) ∧ listId (doc_data r) = l.
Proof.
  unfold run_query. cbn [constrain]. rewrite list_elem_of_filter, elem_of_rows_of.
  simpl. split; intros [? ?]; split; congruence.
Qed.

Lemma elem_of_existing_query l m (items : gmap string ListItemData) (r : ListItem) :
  r ∈ run_query [Where "listId" l; Where "messageId" m] items ↔
  items !! doc_id r = Some (doc_data r) ∧ listId (doc_data r) = l ∧ messageId (doc_data r) = m.
Proof.
  unfold run_query. cbn [constrain].
  rewrite !list_elem_of_filter, elem_of_rows_of.
  simpl. split; intros H; repeat split; try apply H; destruct H as (?&?&?); congruence.
Qed.

Lemma existing_query_nil l m (items : gmap string ListItemData) :
  run_query [Where "listId" l; Where "messageId" m] items = [] ↔ membership l m items = ∅.
Proof.
  split.
  - intros Hnil. apply map_empty. intros id. apply map_lookup_filter_None.
    right. intros d Hd [Hl Hm]. simpl in *.
    assert (MkDoc id d ∈ run_query [Where "listId" l; Where "messageId" m] items) as Hin
      by by apply elem_of_existing_query.
    rewrite Hnil in Hin. by apply elem_of_nil in Hin.
  - intros Hempty.
    destruct (run_query [Where "listId" l; Where "messageId" m] items) as [|r rs] eqn:Hq; [done|].
    assert (r ∈ run_query [Where "listId" l; Where "messageId" m] items) as Hin
      by (rewrite Hq; set_solver).
    apply elem_of_existing_query in Hin as (Hr & Hl & Hm).
    assert (membership l m items !! doc_id r = Some (doc_data r)) as Hin
      by by apply map_lookup_filter_Some.
    rewrite Hempty in Hin. done.
Qed.

(** ** [addMessageToList] *)

Lemma addMessageToList_run u l m w :
  u ≠ "" →
  let q := OpGetDocs "listItems" [QWhere "listId" l; QWhere "messageId" m] in
  UseLists.addMessageToList (Some u) l m w =
    if head_fault w then
      (Throw "Failed to add to list", logged "Error adding message to list:" (sent q w))
    else if decide (membership l m (listItems_docs (store w)) = ∅) then
      if head_fault (sent q w) then
        (Throw "Failed to add to list",
         logged "Error adding message to list:" (sent (OpAddDoc "listItems") (sent q w)))
      else
        let id := fresh (dom (listItems_docs (store w))) in
        (Ok tt,
         MkWorld
           (set_docs UseLists.LIST_ITEMS_COLLECTION
              (<[id := MkListItem l m (clock w) false]> (listItems_docs (store w))) (store w))
           (S (clock w)) (now w) (tail (tail (faults w)))
           (log w ++ [q; OpAddDoc "listItems"]) (console w))
    else (Ok tt, sent q w).
Proof.
  intros Hu q. unfold UseLists.addMessageToList. rewrite truthy_Some by done.
  unfold try_catch, bind. simpl. rewrite getDocs_run.
  destruct (head_fault w); [done|]. simpl.
  destruct (run_query _ _) as [|r rs] eqn:Hq.
  - apply existing_query_nil in Hq. rewrite decide_True by done.
    rewrite addDoc_run. fold q. destruct (head_fault (sent q w)); [done|].
    simpl. by rewrite <- app_assoc.
  - rewrite decide_False; [done|]. intros Hempty%existing_query_nil.
    by rewrite Hempty in Hq.
Qed.

Lemma membership_insert_same l m id t (items : gmap string ListItemData) :
  membership l m (<[id := MkListItem l m t false]> items) =
    <[id := MkListItem l m t false]> (membership l m items).
Proof. unfold membership. by rewrite map_filter_insert_True. Qed.

Lemma membership_insert_other l m l' m' id t (items : gmap string ListItemData) :
  items !! id = None →
  ¬ (l = l' ∧ m = m') →
  membership l' m' (<[id := MkListItem l m t false]> items) = membership l' m' items.
Proof.
  intros Hid Hne. unfold membership.
  rewrite map_filter_insert_False by (simpl; tauto). by rewrite delete_id.
Qed.

Lemma addMessageToList_cases u l m w :
  u ≠ "" →
  let x := UseLists.addMessageToList (Some u) l m w in
  (listItems_docs (store (after x)) = listItems_docs (store w) ∧
   (outcome x = Ok tt → membership l m (listItems_docs (store w)) ≠ ∅)) ∨
  (outcome x = Ok tt ∧
   membership l m (listItems_docs (store w)) = ∅ ∧
   ∃ id, listItems_docs (store w) !! id = None ∧
         listItems_docs (store (after x)) =
           <[id := MkListItem l m (clock w) false]> (listItems_docs (store w))).
Proof.
  intros Hu. simpl. rewrite addMessageToList_run by done. simpl.
  destruct (head_fault w); [by left|].
  destruct (decide _) as [Hempty|Hsome]; [|by left].
  destruct (head_fault _); [by left|].
  right. split; [done|]. split; [done|].
  eexists. split; [|done]. apply not_elem_of_dom, is_fresh.
Qed.

Lemma addMessageToList_keeps_set_semantics u l m w :
  u ≠ "" →
  set_semantics (listItems_docs (store w)) →
  set_semantics (listItems_docs (store (after (UseLists.addMessageToList (Some u) l m w)))).
Proof.
  intros Hu Hset.
  destruct (addMessageToList_cases u l m w Hu) as [[E _]|(_ & Hempty & id & Hid & E)];
    rewrite E; [done|].
  intros l' m'. destruct (decide (l = l' ∧ m = m')) as [[<- <-]|Hne].
  - rewrite membership_insert_same, Hempty. by rewrite insert_empty, map_size_singleton.
  - rewrite membership_insert_other by done. apply Hset.
Qed.

(** C4. Starting from a store with no item for the pair (listId,
    messageId), two [addMessageToList] calls in a row, of which at least
    one completes normally, leave exactly one item for the pair, and it
    has [completed = false]. And whatever the store answers, a call keeps
    membership a set: no pair gets a second item. *)
Theorem addMessageToList_idempotent u l m w r1 w1 r2 w2 :
  u ≠ "" →
  membership l m (listItems_docs (store w)) = ∅ →
  UseLists.addMessageToList (Some u) l m w = (r1, w1) →
  UseLists.addMessageToList (Some u) l m w1 = (r2, w2) →
  r1 = Ok tt ∨ r2 = Ok tt →
  (∃ id t, membership l m (listItems_docs (store w2)) = {[ id := MkListItem l m t false ]}) ∧
  (set_semantics (listItems_docs (store w)) →
   set_semantics (listItems_docs (store w1)) ∧ set_semantics (listItems_docs (store w2))).
Proof.
  intros Hu Hempty H1 H2 Hok. split.
  - pose proof (addMessageToList_cases u l m w Hu) as C1.
    pose proof (addMessageToList_cases u l m w1 Hu) as C2.
    simpl in C1, C2. rewrite H1 in C1. rewrite H2 in C2.
    unfold after, outcome in C1, C2. simpl in C1, C2.
    destruct C1 as [[E1 N1]|(_ & _ & id & _ & E1)].
    + destruct Hok as [-> | ->]; [by destruct N1|].
      destruct C2 as [[E2 N2]|(_ & Hempty1 & id & _ & E2)].
      * destruct N2; [done|]. by rewrite E1.
      * exists id, (clock w1). rewrite E2, membership_insert_same, Hempty1.
        by rewrite insert_empty.
    + assert (membership l m (listItems_docs (store w1)) = {[ id := MkListItem l m (clock w) false ]})
        as Hone by (by rewrite E1, membership_insert_same, Hempty, insert_empty).
      destruct C2 as [[E2 _]|(_ & Hempty1 & _)].
      * exists id, (clock w). by rewrite E2.
      * rewrite Hone in Hempty1. by apply map_non_empty_singleton in Hempty1.
  - intros Hset.
    pose proof (addMessageToList_keeps_set_semantics u l m w Hu Hset) as S1.
    rewrite H1 in S1. split; [done|].
    pose proof (addMessageToList_keeps_set_semantics u l m w1 Hu S1) as S2.
    by rewrite H2 in S2.
Qed.

Lemma addMessageToList_idempotent_witness :
  let x1 := UseLists.addMessageToList (Some "alice") "l1" "m1" (Sample.world []) in
  let x2 := UseLists.addMessageToList (Some "alice") "l1" "m1" (after x1) in
  "alice" ≠ "" ∧
  membership "l1" "m1" (listItems_docs (store (Sample.world []))) = ∅ ∧
  (outcome x1 = Ok tt ∨ outcome x2 = Ok tt) ∧
  ∃ id t, membership "l1" "m1" (listItems_docs (store (after x2))) =
            {[ id := MkListItem "l1" "m1" t false ]}.
Proof.
  intros x1 x2.
  assert (membership "l1" "m1" (listItems_docs (store (Sample.world []))) = ∅) as Hempty
    by (vm_compute; reflexivity).
  assert (outcome x1 = Ok tt ∨ outcome x2 = Ok tt) as Hok
    by (left; vm_compute; reflexivity).
  split; [done|]. split; [exact Hempty|]. split; [exact Hok|].
  apply (addMessageToList_idempotent "alice" "l1" "m1" (Sample.world [])
           (outcome x1) (after x1) (outcome x2) (after x2));
    [done | exact Hempty | apply surjective_pairing | apply surjective_pairing | exact Hok].
Defined.

(** ** [deleteList] *)

Lemma start_all_deleteDoc_items ids dm mm ls li ob ck nw fs lg cs :
  start_all (deleteDoc listItems_ref <$> ids)
    (MkWorld (MkStore dm mm ls li ob) ck nw fs lg cs) =
  (answers fs ((λ _, tt) <$> ids),
   items_deleted ids (MkWorld (MkStore dm mm ls li ob) ck nw fs lg cs)).
Proof.
  unfold items_deleted. simpl. revert li fs lg.
  induction ids as [|id ids IH]; intros li fs lg; simpl.
  - by rewrite app_nil_r, drop_0.
  - rewrite deleteDoc_run. unfold head_fault. simpl.
    simpl in IH.
    destruct fs as [|[] fs]; unfold sent, set_store; simpl; rewrite IH; simpl;
      rewrite <- app_assoc, ?drop_nil; done.
Qed.

Lemma promise_all_deleteDoc_items ids w :
  promise_all (deleteDoc listItems_ref <$> ids) w =
    (if rejects (length ids) (faults w) then Throw "unavailable"
     else Ok ((λ _, tt) <$> ids),
     items_deleted ids w).
Proof.
  unfold promise_all. destruct w as [[dm mm ls li ob] ck nw fs lg cs].
  rewrite start_all_deleteDoc_items, settle_answers. by rewrite length_fmap.
Qed.

Lemma promise_all_delete_items (items : list ListItem) w :
  promise_all ((λ d, deleteDoc listItems_ref (doc_id d)) <$> items) w =
    (if rejects (length items) (faults w) then Throw "unavailable"
     else Ok ((λ _, tt) <$> (doc_id <$> items)),
     items_deleted (doc_id <$> items) w).
Proof.
  rewrite <- (length_fmap doc_id items), <- promise_all_deleteDoc_items.
  by rewrite <- list_fmap_compose.
Qed.

Lemma lookup_delete_answered {D} fs ids (m : gmap string D) k :
  rejects (length ids) fs = false →
  delete_answered fs ids m !! k = if decide (k ∈ ids) then None else m !! k.
Proof.
  revert fs m. induction ids as [|id ids IH]; intros fs m Hc.
  - by rewrite decide_False by set_solver.
  - cbn [delete_answered]. rewrite IH by (by apply rejects_tail).
    assert ((match fs with true :: _ => m | _ => delete id m end) = delete id m) as ->.
    { destruct fs as [|[] fs]; try done. }
    destruct (decide (k = id)) as [->|Hk].
    + rewrite lookup_delete_eq, (decide_True (P := id ∈ id :: ids)) by set_solver.
      by destruct (decide _).
    + rewrite lookup_delete_ne by done.
      destruct (decide (k ∈ ids)).
      * by rewrite (decide_True (P := k ∈ id :: ids)) by set_solver.
      * by rewrite (decide_False (P := k ∈ id :: ids)) by set_solver.
Qed.

Lemma deleteList_run u l w :
  u ≠ "" →
  let q := OpGetDocs "listItems" [QWhere "listId" l] in
  let ids := doc_id <$> run_query [Where "listId" l] (listItems_docs (store w)) in
  let w2 := items_deleted ids (sent q w) in
  let w3 := sent (OpDeleteDoc "lists" l) w2 in
  UseLists.deleteList (Some u) l w =
    if head_fault w then
      (Throw "Failed to delete list", logged "Error deleting list:" (sent q w))
    else if rejects (length ids) (tail (faults w)) then
      (Throw "Failed to delete list", logged "Error deleting list:" w2)
    else if head_fault w2 then
      (Throw "Failed to delete list", logged "Error deleting list:" w3)
    else
      (Ok tt, set_store (set_docs UseLists.LISTS_COLLECTION (delete l (lists_docs (store w)))) w3).
Proof.
  intros Hu q ids w2 w3. unfold UseLists.deleteList. rewrite truthy_Some by done.
  cbn [negb]. unfold try_catch, bind. cbv beta. rewrite getDocs_run.
  destruct (head_fault w); [done|]. cbv beta iota.
  unfold UseLists.LIST_ITEMS_COLLECTION. rewrite promise_all_delete_items.
  fold ids. change (faults (sent _ w)) with (tail (faults w)).
  replace (length ids)
    with (length (run_query [Where "listId" l] (docs listItems_ref (store w))))
    by (unfold ids; by rewrite length_fmap).
  destruct (rejects _ _); [done|].
  rewrite deleteDoc_run. by destruct (head_fault _).
Qed.

Lemma items_query_complete l (items : gmap string ListItemData) id d :
  items !! id = Some d → listId d = l →
  id ∈ doc_id <$> run_query [Where "listId" l] items.
Proof.
  intros Hd Hl. apply list_elem_of_fmap. exists (MkDoc id d). split; [done|].
  by apply elem_of_items_query.
Qed.

Lemma items_of_deleted l fs (items : gmap string ListItemData) :
  let ids := doc_id <$> run_query [Where "listId" l] items in
  rejects (length ids) fs = false →
  items_of l (delete_answered fs ids items) = ∅.
Proof.
  intros ids Hc. apply map_empty. intros k. apply map_lookup_filter_None.
  right. intros d Hd Hl. simpl in Hl.
  rewrite lookup_delete_answered in Hd by done.
  destruct (decide (k ∈ ids)) as [|Hk]; [done|].
  apply Hk. by eapply items_query_complete.
Qed.

Lemma rejects_split n m fs :
  rejects (n + m) fs = false →
  rejects n fs = false ∧ rejects m (drop n fs) = false.
Proof.
  unfold rejects. rewrite <- take_take_drop, existsb_app. by intros [? ?]%orb_false_iff.
Qed.

(** C5. [deleteList] asks for the items of the list and, once it knows
    them, sends the deletion of every one of them, whatever comes after;
    when the query and these deletions are answered no item of the list is
    left. The deletion of the List document is sent last, and only when no
    item deletion was rejected. With every operation answered the call
    completes, and a call that completes has left no item of the list and
    has removed the List; a call that does not complete raises the typed
    failure and leaves the lists as they were, so the List is never
    removed while one of its items may remain. *)
Theorem deleteList_items_first u l w r w' :
  u ≠ "" →
  UseLists.deleteList (Some u) l w = (r, w') →
  let ids := doc_id <$> run_query [Where "listId" l] (listItems_docs (store w)) in
  (∀ id d, listItems_docs (store w) !! id = Some d → listId d = l → id ∈ ids) ∧
  (calm (1 + (length ids + 1)) w → r = Ok tt) ∧
  (head_fault w = false →
   (OpGetDocs "listItems" [QWhere "listId" l] :: (OpDeleteDoc "listItems" <$> ids))
     `prefix_of` ops_since w w') ∧
  (head_fault w = false → rejects (length ids) (tail (faults w)) = false →
   items_of l (listItems_docs (store w')) = ∅) ∧
  (r = Ok tt →
   ops_since w w' =
     OpGetDocs "listItems" [QWhere "listId" l]
       :: (OpDeleteDoc "listItems" <$> ids) ++ [OpDeleteDoc "lists" l] ∧
   items_of l (listItems_docs (store w')) = ∅ ∧
   lists_docs (store w') = delete l (lists_docs (store w))) ∧
  (r ≠ Ok tt →
   r = Throw "Failed to delete list" ∧ lists_docs (store w') = lists_docs (store w)) ∧
  (head_fault w = false → rejects (length ids) (tail (faults w)) = true →
   r = Throw "Failed to delete list" ∧
   lists_docs (store w') = lists_docs (store w) ∧
   OpDeleteDoc "lists" l ∉ ops_since w w') ∧
  (lists_docs (store w') = lists_docs (store w) ∨
   items_of l (listItems_docs (store w')) = ∅).
Proof.
  intros Hu Hrun ids. rewrite deleteList_run in Hrun by done. fold ids in Hrun.
  split; [intros id d; apply items_query_complete|].
  assert (calm (1 + (length ids + 1)) w →
          head_fault w = false ∧ rejects (length ids) (tail (faults w)) = false ∧
          head_fault (items_deleted ids (sent (OpGetDocs "listItems" [QWhere "listId" l]) w))
            = false) as Hcalm.
  { intros [Hf [Hr Hl]%rejects_split]%calm_S. split; [done|]. split; [done|].
    by rewrite head_fault_rejects. }
  destruct (head_fault w) eqn:Hf.
  { injection Hrun as <- <-. split; [by intros [? _]%Hcalm|].
    repeat split; try done. by left. }
  destruct (rejects (length ids) (tail (faults w))) eqn:Hr.
  { injection Hrun as <- <-. split; [by intros (_ & ? & _)%Hcalm|].
    split; [intros _; unfold ops_since; simpl;
            by rewrite <- app_assoc, drop_app_length|].
    repeat split; try done; [|by left].
    unfold ops_since. simpl. rewrite <- app_assoc, drop_app_length.
    intros [?|(id & ? & _)%list_elem_of_fmap]%elem_of_cons; discriminate. }
  assert (items_of l (delete_answered (tail (faults w)) ids (listItems_docs (store w))) = ∅)
    as Hgone by by apply items_of_deleted.
  destruct (head_fault (items_deleted ids _)) eqn:Hf'.
  { injection Hrun as <- <-. split; [by intros (_ & _ & ?)%Hcalm|].
    split; [intros _; unfold ops_since; simpl;
            rewrite <- !app_assoc, drop_app_length;
            by exists [OpDeleteDoc "lists" l]|].
    repeat split; try done. by left. }
  injection Hrun as <- <-. split; [done|].
  split; [intros _; unfold ops_since; simpl;
          rewrite <- !app_assoc, drop_app_length;
          by exists [OpDeleteDoc "lists" l]|].
  split; [done|]. split; [|split; [done|split; [done|by right]]].
  intros _. split; [|done].
  unfold ops_since. simpl. by rewrite <- !app_assoc, drop_app_length.
Qed.

Lemma deleteList_items_first_witness :
  let w := Sample.world [] in
  let x := UseLists.deleteList (Some "alice") "l1" w in
  "alice" ≠ "" ∧
  calm 4 w ∧
  outcome x = Ok tt ∧
  ops_since w (after x) =
    [OpGetDocs "listItems" [QWhere "listId" "l1"];
     OpDeleteDoc "listItems" "i1"; OpDeleteDoc "listItems" "i2";
     OpDeleteDoc "lists" "l1"] ∧
  items_of "l1" (listItems_docs (store (after x))) = ∅ ∧
  lists_docs (store (after x)) = delete "l1" (lists_docs (store w)).
Proof.
  intros w x. split; [done|]. split; [reflexivity|].
  destruct (deleteList_items_first "alice" "l1" w (outcome x) (after x))
    as (_ & Hdone & _ & _ & Hok & _); [done | apply surjective_pairing |].
  assert (outcome x = Ok tt) as Hx by (apply Hdone; reflexivity).
  split; [exact Hx|]. destruct (Hok Hx) as (Hops & Hitems & Hlists).
  split; [|by split]. rewrite Hops. reflexivity.
Defined.

(** ** [loadMore], run *)

Lemma loadMore_run u cursor h w :
  u ≠ "" →
  may_load h cursor →
  let q := OpGetDocs "duoboard_messages"
             [QOrderByDesc "timestamp"; QStartAfter (doc_id cursor); QLimit 50] in
  let older := older_page w cursor in
  let reads := OpGetDoc "duoboard_messages" <$> reply_ids older in
  let more := (length older =? MESSAGES_PER_PAGE)%nat in
  let cursor' := match last older with Some d => Some d | None => Some cursor end in
  UseMessages.loadMore (Some u) (h, w) =
    (Ok tt,
     if head_fault w then
       (MkHook (messages h) (loading h) false true
          (Some "Failed to load more messages") (Some cursor) (initialLoadRef h),
        logged "Error loading more messages:" (sent q w))
     else if (0 <? length older)%nat then
       if rejects (length (reply_ids older)) (tail (faults w)) then
         (MkHook (messages h) (loading h) false more
            (Some "Failed to load more messages") cursor' (initialLoadRef h),
          logged "Error loading more messages:" (sent_all reads (sent q w)))
       else
         (MkHook (reverse (resolve (store w) <$> older) ++ messages h) (loading h) false
            more (error h) cursor' (initialLoadRef h),
          sent_all reads (sent q w))
     else
       (MkHook (messages h) (loading h) false more (error h) (Some cursor)
          (initialLoadRef h),
        sent q w)).
Proof.
  intros Hu (Hl & Hm & Hc) q older reads more cursor'.
  unfold UseMessages.loadMore, UseMessages.loadMore_of, bind, get.
  cbn [fst snd render seen_loadingMore seen_hasMore]. rewrite Hc, Hl, Hm.
  rewrite truthy_Some by done. cbn [negb orb].
  unfold try_finally, try_catch, bind, setLoadingMore, setHasMore,
    setLastDocRef, setMessages, setError, console_error.
  unfold liftW, liftS, modify, ret.
  cbn [fst snd]. rewrite getDocs_run.
  change (run_query _ _) with older.
  destruct (head_fault w); [by rewrite Hm, Hc|].
  cbn [fst snd]. clearbody older.
  destruct older as [|m0 rest].
  { simpl. by rewrite Hc. }
  assert (last (m0 :: rest) = Some (default m0 (last rest))) as Hlast
    by (rewrite last_cons; by destruct (last rest)).
  rewrite Hlast. cbn [fst snd]. change (0 <? length (m0 :: rest))%nat with true.
  cbv beta iota. cbn [fst snd]. rewrite fetchReplyMessages_run.
  change (faults (sent _ w)) with (tail (faults w)).
  subst cursor'. rewrite Hlast.
  destruct (rejects _ _); reflexivity.
Qed.

(** X1. With an identity, a cursor, [hasMore] set and no load in flight,
    and the query and the reply reads answered, [loadMore] puts the older
    page, reversed and resolved, in front of the window it had; the cursor
    moves to the last item of the page when there is one, [hasMore] tells
    whether the page was full, and the store is only read. *)
Theorem loadMore_prepends u cursor h w :
  u ≠ "" →
  may_load h cursor →
  head_fault w = false →
  rejects (length (reply_ids (older_page w cursor))) (tail (faults w)) = false →
  let x := UseMessages.loadMore (Some u) (h, w) in
  let older := older_page w cursor in
  outcome x = Ok tt ∧
  messages (hook_after x) = reverse (resolve (store w) <$> older) ++ messages h ∧
  lastDocRef (hook_after x) = Some (default cursor (last older)) ∧
  (hasMore (hook_after x) = true ↔ length older = 50%nat) ∧
  loadingMore (hook_after x) = false ∧
  error (hook_after x) = error h ∧
  store (world_after x) = store w ∧
  ops_since w (world_after x) =
    OpGetDocs "duoboard_messages"
      [QOrderByDesc "timestamp"; QStartAfter (doc_id cursor); QLimit 50]
      :: (OpGetDoc "duoboard_messages" <$> reply_ids older).
Proof.
  intros Hu Hmay Hf Hr. cbv zeta. rewrite (loadMore_run u cursor) by done. cbv zeta.
  rewrite Hf. unfold outcome, hook_after, world_after. cbn [fst snd].
  destruct (older_page w cursor) as [|m0 rest] eqn:Holder.
  - simpl. repeat split; try done. unfold ops_since. simpl.
    by rewrite drop_app_length.
  - change (0 <? length (m0 :: rest))%nat with true. cbv iota.
    rewrite Hr. cbn [fst snd messages lastDocRef hasMore loadingMore error].
    split; [done|]. split; [done|].
    split; [by destruct (last (m0 :: rest))|].
    split; [apply Nat.eqb_eq|]. split; [done|]. split; [done|]. split; [done|].
    unfold ops_since. simpl. by rewrite <- app_assoc, drop_app_length.
Qed.

Lemma loadMore_prepends_witness :
  let h := MkHook [] false false true None (Some (MkDoc "m3" Sample.yo)) None in
  "alice" ≠ "" ∧
  may_load h (MkDoc "m3" Sample.yo) ∧
  (doc_id ∘ message_of) <$>
    messages (hook_after (UseMessages.loadMore (Some "alice") (h, Sample.world [])))
    = ["m1"; "m2"].
Proof.
  intros h. split; [done|]. split; [done|].
  destruct (loadMore_prepends "alice" (MkDoc "m3" Sample.yo) h (Sample.world []))
    as (_ & Hm & _); [done | done | reflexivity | reflexivity |].
  rewrite Hm. reflexivity.
Defined.

(** X2. Past its guard [loadMore] never raises and never writes: whatever
    the store answers the call completes, [loadingMore] is back to false,
    the store is as it was and the window still ends with the messages it
    had. When the query itself is rejected the window, the cursor and
    [hasMore] are untouched and the feed error is set. *)
Theorem loadMore_contains_failure u cursor h w :
  u ≠ "" →
  may_load h cursor →
  let x := UseMessages.loadMore (Some u) (h, w) in
  outcome x = Ok tt ∧
  loadingMore (hook_after x) = false ∧
  store (world_after x) = store w ∧
  messages h `suffix_of` messages (hook_after x) ∧
  (head_fault w = true →
   messages (hook_after x) = messages h ∧
   lastDocRef (hook_after x) = lastDocRef h ∧
   hasMore (hook_after x) = hasMore h ∧
   error (hook_after x) = Some "Failed to load more messages").
Proof.
  intros Hu Hmay. cbv zeta. rewrite (loadMore_run u cursor) by done. cbv zeta.
  destruct Hmay as (Hl & Hm & Hc). unfold outcome, hook_after, world_after.
  cbn [fst snd]. split; [done|].
  destruct (head_fault w).
  { cbn. rewrite Hm, Hc. repeat split; done. }
  destruct (0 <? _)%nat; [destruct (rejects _ _)|]; cbn;
    (split; [done|]); (split; [done|]); (split; [|done]);
    try done. by apply suffix_app_r.
Qed.

Lemma loadMore_contains_failure_witness :
  let h := MkHook [] false false true None (Some (MkDoc "m3" Sample.yo)) None in
  "alice" ≠ "" ∧
  may_load h (MkDoc "m3" Sample.yo) ∧
  outcome (UseMessages.loadMore (Some "alice") (h, Sample.world [true])) = Ok tt.
Proof.
  intros h. split; [done|]. split; [done|].
  by apply (loadMore_contains_failure "alice" (MkDoc "m3" Sample.yo) h (Sample.world [true])).
Defined.

(** X3. When the older page arrives but one of its reply reads is
    rejected, [loadMore] has already moved the cursor to the end of that
    page and set [hasMore] for it: the page is not shown, the window is as
    it was and the feed error is set, so the next [loadMore] continues
    behind a page that never reached the window. *)
Theorem loadMore_reply_failure_skips_page u cursor h w :
  u ≠ "" →
  may_load h cursor →
  head_fault w = false →
  older_page w cursor ≠ [] →
  rejects (length (reply_ids (older_page w cursor))) (tail (faults w)) = true →
  let x := UseMessages.loadMore (Some u) (h, w) in
  messages (hook_after x) = messages h ∧
  lastDocRef (hook_after x) = last (older_page w cursor) ∧
  (hasMore (hook_after x) = true ↔ length (older_page w cursor) = 50%nat) ∧
  error (hook_after x) = Some "Failed to load more messages".
Proof.
  intros Hu Hmay Hf Hne Hr. cbv zeta. rewrite (loadMore_run u cursor) by done. cbv zeta.
  rewrite Hf. unfold hook_after. cbn [fst snd].
  destruct (older_page w cursor) as [|m0 rest] eqn:Holder; [done|].
  change (0 <? length (m0 :: rest))%nat with true. cbv iota.
  rewrite Hr. cbn [fst snd messages lastDocRef hasMore error].
  split; [done|]. split.
  { destruct (last (m0 :: rest)) eqn:Hlast; [done|].
    by apply last_None in Hlast. }
  split; [apply Nat.eqb_eq|done].
Qed.

Lemma loadMore_reply_failure_skips_page_witness :
  let h := MkHook [] false false true None (Some (MkDoc "m3" Sample.yo)) None in
  "alice" ≠ "" ∧
  may_load h (MkDoc "m3" Sample.yo) ∧
  head_fault (Sample.world [false; true]) = false ∧
  lastDocRef (hook_after (UseMessages.loadMore (Some "alice") (h, Sample.world [false; true])))
    = Some (MkDoc "m1" Sample.hi) ∧
  messages (hook_after (UseMessages.loadMore (Some "alice") (h, Sample.world [false; true])))
    = [].
Proof.
  intros h. split; [done|]. split; [done|]. split; [reflexivity|].
  destruct (loadMore_reply_failure_skips_page "alice" (MkDoc "m3" Sample.yo) h
              (Sample.world [false; true])) as (Hm & Hc & _);
    [done | done | reflexivity | by vm_compute | reflexivity |].
  rewrite Hm, Hc. split; reflexivity.
Defined.

(** ** The order of a query and cursor pagination *)

Lemma string_leb_trans a b c :
  String.leb a b = true → String.leb b c = true → String.leb a c = true.
Proof.
  unfold String.leb. revert b c.
  induction a as [|x a IH]; intros [|y b] [|z c]; simpl; try done.
  unfold Ascii.compare.
  destruct (N.compare_spec (Ascii.N_of_ascii x) (Ascii.N_of_ascii y)) as [Hxy|Hxy|Hxy];
    try done;
    destruct (N.compare_spec (Ascii.N_of_ascii y) (Ascii.N_of_ascii z)) as [Hyz|Hyz|Hyz];
    try done;
    destruct (N.compare_spec (Ascii.N_of_ascii x) (Ascii.N_of_ascii z)) as [Hxz|Hxz|Hxz];
    try done; try lia.
  apply IH.
Qed.

Lemma string_ltb_leb a b : String.ltb a b = true → String.leb b a = false.
Proof.
  unfold String.ltb, String.leb. rewrite (String.compare_antisym b a).
  by destruct (String.compare a b).
Qed.

Lemma string_leb_ltb a b : String.leb a b = true → a ≠ b → String.ltb a b = true.
Proof.
  unfold String.ltb, String.leb. destruct (String.compare a b) eqn:Hc; try done.
  intros _ Hne. by apply String.compare_eq_iff in Hc.
Qed.

Section order.
Context {D : Type} `{Document D}.
Implicit Types (a b c r : WithId D) (l : list (WithId D)).

#[local] Instance newest_first_trans f : Transitive (newest_first (D := D) f).
Proof.
  intros a b c. unfold newest_first, desc_on.
  intros [Hab%Is_true_true%Nat.ltb_lt|[Hab%Is_true_true%Nat.eqb_eq Hiab%Is_true_true]%andb_prop_elim]%orb_prop_elim
         [Hbc%Is_true_true%Nat.ltb_lt|[Hbc%Is_true_true%Nat.eqb_eq Hibc%Is_true_true]%andb_prop_elim]%orb_prop_elim.
  - apply Is_true_true, orb_true_iff. left. apply Nat.ltb_lt. lia.
  - apply Is_true_true, orb_true_iff. left. apply Nat.ltb_lt. lia.
  - apply Is_true_true, orb_true_iff. left. apply Nat.ltb_lt. lia.
  - apply Is_true_true, orb_true_iff. right. apply andb_true_iff. split.
    + apply Nat.eqb_eq. lia.
    + by apply (string_leb_trans _ (doc_id b)).
Qed.

(** Behind the cursor: later in the order, and another document. *)
Lemma strictly_after_intro f c r :
  newest_first f c r → doc_id r ≠ doc_id c → strictly_after (Some f) c r = true.
Proof.
  unfold strictly_after, newest_first, desc_on.
  rewrite Is_true_true, !orb_true_iff, !andb_true_iff, !Nat.ltb_lt, !Nat.eqb_eq.
  intros [Hlt|[Heq Hle]] Hne; [by left|].
  right. split; [done|]. by apply string_leb_ltb.
Qed.

Lemma strictly_after_elim f c r :
  strictly_after (Some f) c r = true →
  newest_first f c r ∧ (time_of f r ≤ time_of f c)%nat.
Proof.
  unfold strictly_after, newest_first, desc_on.
  rewrite Is_true_true, !orb_true_iff, !andb_true_iff, !Nat.ltb_lt, !Nat.eqb_eq.
  intros [Hlt|[Heq Hid]].
  - split; [by left|lia].
  - split; [|lia]. right. split; [done|]. apply string_ltb_leb in Hid as Hn.
    destruct (String.leb_total (doc_id r) (doc_id c)) as [Hle|Hle]; [done|].
    by rewrite Hn in Hle.
Qed.

(** At or before the cursor in the order: not behind it. *)
Lemma not_strictly_after f c a :
  newest_first f a c → strictly_after (Some f) c a = false.
Proof.
  unfold strictly_after, newest_first, desc_on.
  rewrite Is_true_true, !orb_true_iff, !andb_true_iff, !Nat.ltb_lt, !Nat.eqb_eq.
  intros Hac. apply not_true_is_false.
  rewrite !orb_true_iff, !andb_true_iff, !Nat.ltb_lt, !Nat.eqb_eq.
  intros [Hlt|[Heq Hid%string_ltb_leb]]; destruct Hac as [Hlt'|[Heq' Hle]];
    try lia. by rewrite Hle in Hid.
Qed.
End order.

Lemma filter_none {A} (P : A → Prop) `{∀ x, Decision (P x)} (l : list A) :
  Forall (λ x, ¬ P x) l → filter P l = [].
Proof.
  induction 1 as [|x l Hx _ IH]; [done|]. by rewrite filter_cons_False.
Qed.

Lemma filter_all {A} (P : A → Prop) `{∀ x, Decision (P x)} (l : list A) :
  Forall P l → filter P l = l.
Proof.
  induction 1 as [|x l Hx _ IH]; [done|]. by rewrite filter_cons_True, IH.
Qed.

Section behind.
Context {D : Type} `{Document D}.

(** In an ordered list of distinct documents, those behind one of its
    items are the ones that follow it. *)
Lemma filter_behind f (c : WithId D) (l1 l2 : list (WithId D)) :
  StronglySorted (newest_first f) (l1 ++ c :: l2) →
  NoDup (doc_id <$> (l1 ++ c :: l2)) →
  filter (λ r, strictly_after (Some f) c r = true) (l1 ++ c :: l2) = l2.
Proof.
  intros Hs Hnd. rewrite filter_app, filter_cons_False.
  - rewrite filter_none, filter_all; [done| |].
    + apply StronglySorted_app in Hs as (_ & _ & Hs).
      apply StronglySorted_inv in Hs as [_ Hc].
      rewrite fmap_app, fmap_cons in Hnd.
      apply NoDup_app in Hnd as (_ & _ & Hnd). apply NoDup_cons in Hnd as [Hnotin _].
      rewrite Forall_forall in Hc. apply Forall_forall. intros r Hr.
      apply strictly_after_intro; [by apply Hc|].
      intros Hid. apply Hnotin. rewrite <- Hid. apply list_elem_of_fmap. by exists r.
    + apply Forall_forall. intros a Ha. rewrite not_strictly_after; [done|].
      eapply StronglySorted_app_1_elem_of; [done..|set_solver].
  - rewrite not_strictly_after; [done|].
    unfold newest_first, desc_on. rewrite Nat.ltb_irrefl, Nat.eqb_refl. simpl.
    destruct (String.leb_total (doc_id c) (doc_id c)) as [->| ->]; done.
Qed.
End behind.

Lemma conversation_sorted w : StronglySorted (newest_first "timestamp") (conversation w).
Proof.
  unfold conversation, run_query. cbn [constrain].
  apply StronglySorted_merge_sort; [apply newest_first_trans|apply newest_first_total].
Qed.

Lemma conversation_NoDup w : NoDup (doc_id <$> conversation w).
Proof.
  unfold conversation, run_query. cbn [constrain].
  rewrite merge_sort_Permutation.
  match goal with
  | |- NoDup (doc_id <$> filter ?P ?l) =>
      apply (sublist_NoDup _ (doc_id <$> l)); [|apply fmap_sublist, sublist_filter]
  end.
  unfold rows_of. rewrite merge_sort_Permutation, <- list_fmap_compose.
  apply (NoDup_fst_map_to_list (duoboard_messages (store w))).
Qed.

Lemma elem_of_conversation w (r : Message) :
  r ∈ conversation w ↔ duoboard_messages (store w) !! doc_id r = Some (doc_data r).
Proof.
  unfold conversation, run_query. cbn [constrain].
  rewrite merge_sort_Permutation, list_elem_of_filter, elem_of_rows_of.
  simpl. split; [by intros [_ ?]|]. intros Hr. split; [by eexists|done].
Qed.

(** The query of [loadMore] behind the last item of the newest page gives
    the next page of the conversation. *)
Lemma older_page_next w c :
  last (run_query initialQuery (duoboard_messages (store w))) = Some c →
  older_page w c =
    take MESSAGES_PER_PAGE (drop MESSAGES_PER_PAGE (conversation w)).
Proof.
  intros Hlast.
  change (run_query initialQuery (duoboard_messages (store w)))
    with (take MESSAGES_PER_PAGE (conversation w)) in Hlast.
  change (older_page w c)
    with (take MESSAGES_PER_PAGE
            (filter (λ r, strictly_after (Some "timestamp") c r = true) (conversation w))).
  apply last_Some in Hlast as [l1 Hl1]. f_equal.
  pose proof (take_drop MESSAGES_PER_PAGE (conversation w)) as Hsplit.
  rewrite Hl1, <- app_assoc in Hsplit. simpl in Hsplit.
  rewrite <- Hsplit at 1. apply filter_behind; rewrite Hsplit.
  - apply conversation_sorted.
  - apply conversation_NoDup.
Qed.

Lemma rejects_nil n : rejects n [] = false.
Proof. unfold rejects. by rewrite take_nil. Qed.

(** X4. On a store that answers everything and holds at least a page of
    messages, the first delivery followed by one [loadMore] shows the
    newest hundred messages of the conversation, oldest first, each
    message once: the second page starts where the first one ended. *)
Theorem two_pages_in_order u h w :
  u ≠ "" →
  loadingMore h = false →
  faults w = [] →
  (50 ≤ length (conversation w))%nat →
  let x := UseMessages.loadMore (Some u) (after (UseMessages.deliver (h, w))) in
  messages (hook_after x) = reverse (resolve (store w) <$> take 100 (conversation w)) ∧
  NoDup ((λ m, doc_id (message_of m)) <$> messages (hook_after x)).
Proof.
  intros Hu Hl Hfs Hlen. cbv zeta.
  assert (messages
            (hook_after (UseMessages.loadMore (Some u) (after (UseMessages.deliver (h, w)))))
          = reverse (resolve (store w) <$> take 100 (conversation w))) as Hwin.
  { rewrite deliver_on_snapshot, on_snapshot_run, Hfs.
    rewrite rejects_nil.
    unfold after. cbn [snd].
    set (page := run_query initialQuery (duoboard_messages (store w))).
    assert (length page = 50%nat) as Hpage.
    { change page with (take MESSAGES_PER_PAGE (conversation w)).
      rewrite length_take. unfold MESSAGES_PER_PAGE. lia. }
    destruct (last page) as [c|] eqn:Hlast;
      [|apply last_None in Hlast; by rewrite Hlast in Hpage].
    set (w1 := sent_all _ w).
    assert (faults w1 = []) as Hfs1 by (unfold w1; simpl; by rewrite Hfs, drop_nil).
    rewrite (loadMore_run u c); [|done|].
    2: { split; [done|]. split; [|reflexivity]. simpl. by rewrite Hpage. }
    cbv zeta. unfold head_fault. rewrite Hfs1. cbn [tail]. rewrite rejects_nil.
    change (older_page w1 c) with (older_page w c). change (store w1) with (store w).
    rewrite (older_page_next w c Hlast). unfold hook_after. cbn [fst snd messages].
    destruct (0 <? _)%nat eqn:Hpos; cbn [fst snd messages].
    - rewrite <- reverse_app, <- fmap_app.
      change page with (take MESSAGES_PER_PAGE (conversation w)).
      by rewrite take_take_drop.
    - apply Nat.ltb_ge, Nat.le_0_r, nil_length_inv in Hpos.
      transitivity
        (reverse (resolve (store w) <$>
                  page ++ take MESSAGES_PER_PAGE (drop MESSAGES_PER_PAGE (conversation w))));
        [by rewrite Hpos, app_nil_r|].
      change page with (take MESSAGES_PER_PAGE (conversation w)).
      by rewrite take_take_drop. }
  split; [done|]. rewrite Hwin, fmap_reverse, <- list_fmap_compose.
  rewrite reverse_Permutation.
  apply (sublist_NoDup _ (doc_id <$> conversation w)); [apply conversation_NoDup|].
  apply (fmap_sublist doc_id), sublist_take.
Qed.

Lemma two_pages_in_order_witness :
  "alice" ≠ "" ∧
  loadingMore UseMessages.initial = false ∧
  faults Archive.world = [] ∧
  (50 ≤ length (conversation Archive.world))%nat ∧
  length (messages (hook_after (UseMessages.loadMore (Some "alice")
                                   (after (UseMessages.deliver
                                             (UseMessages.initial, Archive.world))))))
    = 60%nat.
Proof.
  assert (50 ≤ length (conversation Archive.world))%nat as Hlen by (vm_compute; lia).
  split; [done|]. split; [reflexivity|]. split; [reflexivity|]. split; [exact Hlen|].
  destruct (two_pages_in_order "alice" UseMessages.initial Archive.world)
    as [Hwin _]; [done | reflexivity | reflexivity | exact Hlen |].
  rewrite Hwin. vm_compute. reflexivity.
Defined.

(** ** Sending *)

Lemma truthy_inv o : truthy o = true → ∃ u, o = Some u ∧ u ≠ "".
Proof.
  destruct o as [u|]; [|done]. simpl. intros Hu. exists u. split; [done|].
  intros ->. done.
Qed.

Lemma truthy_trim content : trim content ≠ "" → truthy (Some (trim content)) = true.
Proof. apply truthy_Some. Qed.

Lemma sendMessage_run u content replyTo w :
  u ≠ "" →
  trim content ≠ "" →
  UseMessages.sendMessage (Some u) content replyTo w =
    if head_fault w then
      (Throw "Failed to send message",
       logged "Error sending message:" (sent (OpAddDoc "duoboard_messages") w))
    else
      let id := fresh (dom (duoboard_messages (store w))) in
      (Ok tt,
       MkWorld
         (set_docs UseMessages.MESSAGES_COLLECTION
            (<[id := MkMessage u (Some (trim content)) None (clock w) (or_null replyTo) ∅]>
               (duoboard_messages (store w))) (store w))
         (S (clock w)) (now w) (tail (faults w))
         (log w ++ [OpAddDoc "duoboard_messages"]) (console w)).
Proof.
  intros Hu Hc. unfold UseMessages.sendMessage.
  rewrite truthy_Some, truthy_trim by done. cbn [negb orb].
  unfold try_catch, bind. rewrite addDoc_run. by destruct (head_fault w).
Qed.

(** X5. [sendMessage] with an identity and a text that is not blank, the
    insert being answered, adds one document under a name the collection
    did not have: the sender is the caller, the content is the trimmed
    text, there is no image, the like set is empty, the timestamp is the
    server's, and [replyTo] is the given reference or [null]. Nothing else
    is sent to the store. *)
Theorem sendMessage_appends u content replyTo w :
  u ≠ "" →
  trim content ≠ "" →
  head_fault w = false →
  let x := UseMessages.sendMessage (Some u) content replyTo w in
  let id := fresh (dom (duoboard_messages (store w))) in
  outcome x = Ok tt ∧
  duoboard_messages (store w) !! id = None ∧
  duoboard_messages (store (after x)) =
    <[id := MkMessage u (Some (trim content)) None (clock w)
              (if truthy replyTo then replyTo else None) ∅]>
      (duoboard_messages (store w)) ∧
  ops_since w (after x) = [OpAddDoc "duoboard_messages"].
Proof.
  intros Hu Hc Hf. cbv zeta. rewrite sendMessage_run, Hf by done.
  unfold outcome, after. cbn [fst snd]. split; [done|].
  split; [apply not_elem_of_dom, is_fresh|]. split; [done|].
  unfold ops_since. simpl. by rewrite drop_app_length.
Qed.

Lemma sendMessage_appends_witness :
  "alice" ≠ "" ∧
  trim "  see you  " ≠ "" ∧
  head_fault (Sample.world []) = false ∧
  duoboard_messages
    (store (after (UseMessages.sendMessage (Some "alice") "  see you  " (Some "m3")
                     (Sample.world [])))) !! "0"
    = Some (MkMessage "alice" (Some "see you") None 10 (Some "m3") ∅).
Proof.
  split; [done|]. split; [by vm_compute|]. split; [reflexivity|].
  destruct (sendMessage_appends "alice" "  see you  " (Some "m3") (Sample.world []))
    as (_ & _ & Hfeed & _); [done | by vm_compute | reflexivity |].
  rewrite Hfeed. vm_compute. reflexivity.
Defined.

Lemma string_app_cons c (s t : string) : String c s +:+ t = String c (s +:+ t).
Proof. reflexivity. Qed.
Lemma string_app_nil_r (s : string) : s +:+ "" = s.
Proof. induction s as [|c s IH]; [done|]. by rewrite string_app_cons, IH. Qed.
Lemma string_app_assoc (a b c : string) : (a +:+ b) +:+ c = a +:+ (b +:+ c).
Proof. induction a as [|x a IH]; [done|]. by rewrite !string_app_cons, IH. Qed.
Lemma rev_app_spec s1 s2 : String.rev_app s1 s2 = String.rev s1 +:+ s2.
Proof.
  unfold String.rev. revert s2. induction s1 as [|a s1 IH]; intros s2; [done|].
  cbn [String.rev_app]. by rewrite (IH (String a "")), IH, string_app_assoc.
Qed.
Lemma rev_cons a s : String.rev (String a s) = String.rev s +:+ String a "".
Proof. unfold String.rev at 1. cbn [String.rev_app]. apply rev_app_spec. Qed.
Lemma rev_app_distr s1 s2 : String.rev (s1 +:+ s2) = String.rev s2 +:+ String.rev s1.
Proof.
  induction s1 as [|a s1 IH].
  - by rewrite string_app_nil_r.
  - by rewrite string_app_cons, !rev_cons, IH, string_app_assoc.
Qed.
Lemma rev_involutive s : String.rev (String.rev s) = s.
Proof.
  induction s as [|a s IH]; [done|].
  by rewrite rev_cons, rev_app_distr, IH.
Qed.

Section strip_facts.
Variable w1 : Ascii.ascii → bool.
Variable w2 : Ascii.ascii → Ascii.ascii → bool.
Variable w3 : Ascii.ascii → Ascii.ascii → Ascii.ascii → bool.

Lemma strip_eq s :
  strip w1 w2 w3 s =
    match lead w1 w2 w3 s with
    | Some s' => strip w1 w2 w3 s'
    | None => s
    end.
Proof.
  destruct s as [|c1 s1]; [done|]. cbn [lead strip].
  destruct (w1 c1); [done|]. destruct s1 as [|c2 s2]; [done|].
  destruct (w2 c1 c2); [done|]. destruct s2 as [|c3 s3]; [done|].
  by destruct (w3 c1 c2 c3).
Qed.

Lemma lead_split s s' : lead w1 w2 w3 s = Some s' → ∃ tok, tok ≠ "" ∧ s = tok +:+ s'.
Proof.
  destruct s as [|c1 s1]; [done|]. cbn [lead].
  destruct (w1 c1); [intros [= <-]; by exists (String c1 "")|].
  destruct s1 as [|c2 s2]; [done|].
  destruct (w2 c1 c2); [intros [= <-]; by exists (String c1 (String c2 ""))|].
  destruct s2 as [|c3 s3]; [done|].
  destruct (w3 c1 c2 c3); [|done].
  intros [= <-]. by exists (String c1 (String c2 (String c3 ""))).
Qed.

Lemma string_app_length (a b : string) : String.length (a +:+ b) = (String.length a + String.length b)%nat.
Proof. induction a as [|c a IH]; [done|]. rewrite string_app_cons. cbn [String.length]. by rewrite IH. Qed.

Lemma lead_shorter s s' : lead w1 w2 w3 s = Some s' → (String.length s' < String.length s)%nat.
Proof.
  intros (tok & Htok & ->)%lead_split. rewrite string_app_length.
  destruct tok; [done|]. cbn [String.length]. lia.
Qed.

Lemma strip_ind (P : string → Prop) :
  (∀ s, lead w1 w2 w3 s = None → P s) →
  (∀ s s', lead w1 w2 w3 s = Some s' → P s' → P s) →
  ∀ s, P s.
Proof.
  intros Hnone Hsome s.
  remember (String.length s) as n eqn:Hn.
  revert s Hn. induction (lt_wf n) as [n _ IH]. intros s ->.
  destruct (lead w1 w2 w3 s) as [s'|] eqn:Hl; [|by apply Hnone].
  apply (Hsome s s' Hl). apply (IH (String.length s')); [by apply lead_shorter|done].
Qed.

Lemma lead_strip s : lead w1 w2 w3 (strip w1 w2 w3 s) = None.
Proof.
  induction s as [s Hl|s s' Hl IH] using strip_ind; rewrite strip_eq, Hl; done.
Qed.

Lemma strip_fixed s : lead w1 w2 w3 s = None → strip w1 w2 w3 s = s.
Proof. intros Hl. by rewrite strip_eq, Hl. Qed.

Lemma strip_idem s : strip w1 w2 w3 (strip w1 w2 w3 s) = strip w1 w2 w3 s.
Proof. apply strip_fixed, lead_strip. Qed.

Lemma strip_suffix s : ∃ p, s = p +:+ strip w1 w2 w3 s.
Proof.
  induction s as [s Hl|s s' Hl [p IH]] using strip_ind; rewrite strip_eq, Hl.
  - by exists "".
  - apply lead_split in Hl as (tok & _ & ->). exists (tok +:+ p).
    by rewrite string_app_assoc, <- IH.
Qed.

Lemma lead_prefix p q : lead w1 w2 w3 (p +:+ q) = None → lead w1 w2 w3 p = None.
Proof.
  destruct p as [|c1 [|c2 [|c3 p]]]; [done| | |]; rewrite ?string_app_cons; cbn [lead].
  - destruct (w1 c1); [done|]. done.
  - destruct (w1 c1); [done|]. destruct (w2 c1 c2); [done|]. done.
  - destruct (w1 c1); [done|]. destruct (w2 c1 c2); [done|]. by destruct (w3 c1 c2 c3).
Qed.
End strip_facts.

Lemma trim_idem s : trim (trim s) = trim s.
Proof.
  unfold trim. set (t := trim_start s).
  assert (lead white1 white2 white3 t = None) as Ht by apply lead_strip.
  assert (trim_start (trim_end t) = trim_end t) as ->.
  { apply strip_fixed. unfold trim_end.
    destruct (strip_suffix white1 (λ c2 c1, white2 c1 c2) (λ c3 c2 c1, white3 c1 c2 c3)
                (String.rev t)) as [p Hp].
    apply (f_equal String.rev) in Hp. rewrite rev_involutive, rev_app_distr in Hp.
    rewrite Hp in Ht. by apply lead_prefix in Ht. }
  unfold trim_end. by rewrite rev_involutive, strip_idem.
Qed.

Lemma lead_white tok s : tok ∈ white_space → lead white1 white2 white3 (tok +:+ s) = Some s.
Proof.
  unfold white_space. cbn [fmap list_fmap seq app].
  intros H. repeat (apply elem_of_cons in H as [->|H]; [reflexivity|]).
  by apply elem_of_nil in H.
Qed.

Lemma trim_start_blank s : blank s → trim_start s = "".
Proof.
  induction 1 as [|tok s Htok _ IH]; [done|].
  unfold trim_start. by rewrite strip_eq, lead_white.
Qed.

Lemma trim_blank s : blank s → trim s = "".
Proof. intros Hs. unfold trim. by rewrite trim_start_blank. Qed.

(** X6. [sendMessage] with a text of white space only (the empty text
    included, and the white space of the language beyond the space, tab
    and line ends: the no-break space, the ideographic space and the
    like) returns at once: nothing is sent to the store and nothing is
    raised, whoever calls. *)
Theorem sendMessage_blank_noop userId content replyTo w :
  blank content →
  UseMessages.sendMessage userId content replyTo w = (Ok tt, w).
Proof.
  intros Hb. unfold UseMessages.sendMessage. rewrite trim_blank by done.
  simpl. by rewrite orb_true_r.
Qed.

Lemma sendMessage_blank_noop_witness :
  let content := utf8 [194; 160; 32; 227; 128; 128; 10] in
  blank content ∧
  UseMessages.sendMessage (Some "alice") content None (Sample.world []) =
    (Ok tt, Sample.world []).
Proof.
  assert (blank (utf8 [194; 160; 32; 227; 128; 128; 10])) as Hb.
  { change (blank (utf8 [194; 160] +:+ utf8 [32] +:+ utf8 [227; 128; 128]
                     +:+ utf8 [10] +:+ "")).
    repeat (apply blank_more; [apply (bool_decide_unpack _); by vm_compute|]).
    apply blank_empty. }
  split; [exact Hb|].
  by apply (sendMessage_blank_noop (Some "alice") _ None (Sample.world [])).
Defined.

(** X7. When the insert of [sendMessage] is rejected the caller gets the
    typed failure ['Failed to send message'], the error is written to the
    console and the store is as it was. *)
Theorem sendMessage_rejected u content replyTo w :
  u ≠ "" →
  trim content ≠ "" →
  head_fault w = true →
  let x := UseMessages.sendMessage (Some u) content replyTo w in
  outcome x = Throw "Failed to send message" ∧
  store (after x) = store w ∧
  console (after x) = console w ++ ["Error sending message:"].
Proof.
  intros Hu Hc Hf. cbv zeta. by rewrite sendMessage_run, Hf by done.
Qed.

Lemma sendMessage_rejected_witness :
  "alice" ≠ "" ∧
  trim "hi" ≠ "" ∧
  head_fault (Sample.world [true]) = true ∧
  outcome (UseMessages.sendMessage (Some "alice") "hi" None (Sample.world [true]))
    = Throw "Failed to send message".
Proof.
  split; [done|]. split; [by vm_compute|]. split; [reflexivity|].
  apply (sendMessage_rejected "alice" "hi" None (Sample.world [true]));
    [done | by vm_compute | reflexivity].
Defined.

Lemma fetch_blob_run url w :
  fetch_blob url w =
    (if head_fault w then Throw "unavailable" else Ok url, sent (OpFetch url) w).
Proof. unfold fetch_blob, bind. rewrite request_run. by destruct (head_fault w). Qed.

Lemma uploadBytes_run file blob w :
  uploadBytes file blob w =
    if head_fault w then (Throw "unavailable", sent (OpUploadBytes file) w)
    else
      (Ok tt,
       set_store (λ s, set_objects (<[file := blob]> (objects s)) s)
         (sent (OpUploadBytes file) w)).
Proof. unfold uploadBytes, bind. rewrite request_run. by destruct (head_fault w). Qed.

Lemma getDownloadURL_run file w :
  getDownloadURL file w =
    (if head_fault w then Throw "unavailable" else Ok (download_url file),
     sent (OpGetDownloadURL file) w).
Proof. unfold getDownloadURL, bind. rewrite request_run. by destruct (head_fault w). Qed.

Lemma sendDrawing_run u drawing replyTo w :
  u ≠ "" →
  let file := drawing_file u w in
  let failed w' := (Throw "Failed to send drawing" : Result unit,
                    logged "Error sending drawing:" w') in
  let w1 := sent (OpFetch (dataUrl drawing)) w in
  let w2 := set_store (λ s, set_objects (<[file := dataUrl drawing]> (objects s)) s)
              (sent (OpUploadBytes file) w1) in
  let w3 := sent (OpGetDownloadURL file) w2 in
  UseMessages.sendDrawing (Some u) drawing replyTo w =
    if head_fault w then failed w1
    else if head_fault w1 then failed (sent (OpUploadBytes file) w1)
    else if head_fault w2 then failed w3
    else if head_fault w3 then failed (sent (OpAddDoc "duoboard_messages") w3)
    else
      let id := fresh (dom (duoboard_messages (store w))) in
      (Ok tt,
       MkWorld
         (set_docs UseMessages.MESSAGES_COLLECTION
            (<[id := MkMessage u None (Some (download_url file)) (clock w)
                       (or_null replyTo) ∅]> (duoboard_messages (store w))) (store w3))
         (S (clock w)) (now w) (tail (faults w3))
         (log w3 ++ [OpAddDoc "duoboard_messages"]) (console w)).
Proof.
  intros Hu file failed w1 w2 w3. unfold UseMessages.sendDrawing.
  rewrite truthy_Some by done. cbn [negb].
  unfold try_catch, bind, get. rewrite fetch_blob_run.
  destruct (head_fault w); [done|]. cbv beta iota. cbn [or_empty].
  change (now (sent _ w)) with (now w). fold (drawing_file u w). fold file.
  rewrite uploadBytes_run. fold w1.
  destruct (head_fault w1); [done|]. cbv beta iota.
  rewrite getDownloadURL_run. fold w2. fold w3.
  destruct (head_fault w2); [done|]. cbv beta iota.
  rewrite addDoc_run. by destruct (head_fault w3).
Qed.

(** X8. [sendDrawing] fetches the drawing, uploads it, asks for its
    reference and only then inserts the message. With the four operations
    answered the image is in object storage under the caller's file and
    the new message carries its reference, no text and an empty like set.
    If any of them is rejected the caller gets ['Failed to send drawing']
    and no message has been created. *)
Theorem sendDrawing_upload_first u drawing replyTo w :
  u ≠ "" →
  let x := UseMessages.sendDrawing (Some u) drawing replyTo w in
  let file := drawing_file u w in
  let id := fresh (dom (duoboard_messages (store w))) in
  (rejects 4 (faults w) = false →
   outcome x = Ok tt ∧
   objects (store (after x)) !! file = Some (dataUrl drawing) ∧
   duoboard_messages (store w) !! id = None ∧
   duoboard_messages (store (after x)) =
     <[id := MkMessage u None (Some (download_url file)) (clock w)
               (if truthy replyTo then replyTo else None) ∅]>
       (duoboard_messages (store w)) ∧
   ops_since w (after x) =
     [OpFetch (dataUrl drawing); OpUploadBytes file; OpGetDownloadURL file;
      OpAddDoc "duoboard_messages"]) ∧
  (rejects 4 (faults w) = true →
   outcome x = Throw "Failed to send drawing" ∧
   duoboard_messages (store (after x)) = duoboard_messages (store w) ∧
   ops_since w (after x) `prefix_of`
     [OpFetch (dataUrl drawing); OpUploadBytes file; OpGetDownloadURL file;
      OpAddDoc "duoboard_messages"]).
Proof.
  intros Hu. cbv zeta. rewrite sendDrawing_run by done. cbv zeta.
  pose proof (is_fresh (dom (duoboard_messages (store w)))) as Hfresh.
  apply not_elem_of_dom in Hfresh.
  destruct w as [st ck nw fs lg cs].
  unfold rejects, head_fault, outcome, after, ops_since.
  destruct fs as [|[] [|[] [|[] [|[] fs]]]]; cbn -[fresh dom pretty drawing_file];
    rewrite <- ?app_assoc, ?drop_app_length; cbn -[fresh dom pretty drawing_file];
    (split; intros ?); try done;
    repeat split; try done; try (by rewrite lookup_insert_eq);
    by eexists.
Qed.

Lemma sendDrawing_upload_first_witness :
  "alice" ≠ "" ∧
  outcome (UseMessages.sendDrawing (Some "alice") (MkDrawing "data:image/png;base64,AAAA" 2 2)
             None (Sample.world [false; true]))
    = Throw "Failed to send drawing".
Proof.
  split; [done|].
  apply (sendDrawing_upload_first "alice" (MkDrawing "data:image/png;base64,AAAA" 2 2)
           None (Sample.world [false; true])); [done|reflexivity].
Defined.

(** ** What the feed operations keep *)

Lemma toggleLike_feed userId messageId h w :
  let w' := world_after (UseMessages.toggleLike userId messageId (h, w)) in
  (duoboard_messages (store w') = duoboard_messages (store w) ∧ clock w' = clock w) ∨
  (∃ d, duoboard_messages (store w) !! messageId = Some d ∧
        clock w' = clock w ∧
        duoboard_messages (store w') =
          <[messageId := with_likes (flip_like userId (likes d)) d]>
            (duoboard_messages (store w))).
Proof.
  cbv zeta. destruct (truthy userId) eqn:Ht.
  - apply truthy_inv in Ht as (u & -> & Hu).
    destruct (head_fault w) eqn:Hf.
    { rewrite toggleLike_read_rejected by done. by left. }
    destruct (duoboard_messages (store w) !! messageId) as [d|] eqn:Hd.
    + destruct (head_fault (sent (OpGetDoc "duoboard_messages" messageId) w)) eqn:Hf'.
      * rewrite (toggleLike_write_rejected u messageId h w Hu d) by done. by left.
      * rewrite (toggleLike_done u messageId h w Hu d) by done. right. by exists d.
    + rewrite toggleLike_missing by done. by left.
  - unfold UseMessages.toggleLike. rewrite Ht. by left.
Qed.

Lemma sendMessage_feed userId content replyTo w :
  let w' := after (UseMessages.sendMessage userId content replyTo w) in
  (duoboard_messages (store w') = duoboard_messages (store w) ∧ clock w' = clock w) ∨
  (∃ u id, userId = Some u ∧ trim content ≠ "" ∧
           duoboard_messages (store w) !! id = None ∧
           clock w' = S (clock w) ∧
           duoboard_messages (store w') =
             <[id := MkMessage u (Some (trim content)) None (clock w) (or_null replyTo) ∅]>
               (duoboard_messages (store w))).
Proof.
  cbv zeta. destruct (truthy userId) eqn:Ht.
  - apply truthy_inv in Ht as (u & -> & Hu).
    destruct (decide (trim content = "")) as [Hb|Hb].
    { unfold UseMessages.sendMessage. rewrite Hb. simpl. rewrite orb_true_r. by left. }
    rewrite sendMessage_run by done. destruct (head_fault w); [by left|].
    right. eexists u, _. repeat split; try done. apply not_elem_of_dom, is_fresh.
  - unfold UseMessages.sendMessage. rewrite Ht. by left.
Qed.

Lemma sendDrawing_feed userId drawing replyTo w :
  let w' := after (UseMessages.sendDrawing userId drawing replyTo w) in
  (duoboard_messages (store w') = duoboard_messages (store w) ∧ clock w' = clock w) ∨
  (∃ u id url, userId = Some u ∧
               duoboard_messages (store w) !! id = None ∧
               clock w' = S (clock w) ∧
               duoboard_messages (store w') =
                 <[id := MkMessage u None (Some url) (clock w) (or_null replyTo) ∅]>
                   (duoboard_messages (store w))).
Proof.
  cbv zeta. destruct (truthy userId) eqn:Ht.
  - apply truthy_inv in Ht as (u & -> & Hu).
    rewrite sendDrawing_run by done. cbv zeta.
    repeat (match goal with |- context [if head_fault ?w then _ else _] =>
              destruct (head_fault w) end; [by left|]).
    right. eexists u, _, _. repeat split; try done. apply not_elem_of_dom, is_fresh.
  - unfold UseMessages.sendDrawing. rewrite Ht. by left.
Qed.

(** X9. Whatever the arguments and whatever the store answers,
    [sendMessage], [sendDrawing] and [toggleLike] keep the feed such that
    every message has a text or an image and not both. *)
Theorem feed_keeps_one_payload userId content drawing replyTo messageId h w :
  map_Forall (λ _ d, one_payload d) (duoboard_messages (store w)) →
  map_Forall (λ _ d, one_payload d)
    (duoboard_messages (store (after (UseMessages.sendMessage userId content replyTo w)))) ∧
  map_Forall (λ _ d, one_payload d)
    (duoboard_messages (store (after (UseMessages.sendDrawing userId drawing replyTo w)))) ∧
  map_Forall (λ _ d, one_payload d)
    (duoboard_messages
       (store (world_after (UseMessages.toggleLike userId messageId (h, w))))).
Proof.
  intros Hall. repeat split.
  - destruct (sendMessage_feed userId content replyTo w)
      as [[-> _]|(u & id & _ & _ & _ & _ & ->)]; [done|].
    apply map_Forall_insert_2; [|done]. left. split; [by eexists|done].
  - destruct (sendDrawing_feed userId drawing replyTo w)
      as [[-> _]|(u & id & url & _ & _ & _ & ->)]; [done|].
    apply map_Forall_insert_2; [|done]. right. split; [done|by eexists].
  - destruct (toggleLike_feed userId messageId h w) as [[-> _]|(d & Hd & _ & ->)]; [done|].
    apply map_Forall_insert_2; [|done]. by apply (Hall messageId d).
Qed.

Lemma feed_keeps_one_payload_witness :
  map_Forall (λ _ d, one_payload d) (duoboard_messages (store (Sample.world []))) ∧
  map_Forall (λ _ d, one_payload d)
    (duoboard_messages
       (store (after (UseMessages.sendMessage (Some "alice") "hi" None (Sample.world []))))).
Proof.
  assert (map_Forall (λ _ d, one_payload d) (duoboard_messages (store (Sample.world []))))
    as Hall.
  { apply (bool_decide_unpack _). vm_compute. exact I. }
  split; [exact Hall|].
  by apply (feed_keeps_one_payload (Some "alice") "hi" (MkDrawing "" 0 0) None "m1"
              UseMessages.initial (Sample.world []) Hall).
Defined.

Lemma newest_first_time (a b : Message) :
  newest_first "timestamp" a b →
  (timestamp (doc_data b) ≤ timestamp (doc_data a))%nat.
Proof.
  unfold newest_first, desc_on, time_of. simpl.
  intros [Hlt%Is_true_true%Nat.ltb_lt|[Heq%Is_true_true%Nat.eqb_eq _]%andb_prop_elim]%orb_prop_elim;
    lia.
Qed.

Lemma head_of_conversation w (r : Message) :
  r ∈ conversation w →
  (∀ x, x ∈ conversation w → doc_id x ≠ doc_id r →
        (timestamp (doc_data x) < timestamp (doc_data r))%nat) →
  head (conversation w) = Some r.
Proof.
  intros Hr Hnewest. pose proof (conversation_sorted w) as Hs.
  pose proof (elem_of_conversation w) as Hin.
  destruct (conversation w) as [|y l]; [by apply elem_of_nil in Hr|].
  simpl. f_equal. apply elem_of_cons in Hr as [->|Hr]; [done|].
  apply StronglySorted_inv in Hs as [_ Hy]. rewrite Forall_forall in Hy.
  pose proof (newest_first_time _ _ (Hy _ Hr)) as Hle.
  destruct (decide (doc_id y = doc_id r)) as [Hid|Hid].
  - assert (y ∈ y :: l) as Hyin by apply list_elem_of_here.
    assert (r ∈ y :: l) as Hrin by by apply list_elem_of_further.
    apply Hin in Hyin. apply Hin in Hrin. rewrite Hid, Hrin in Hyin.
    destruct y, r. simpl in *. congruence.
  - assert (timestamp (doc_data y) < timestamp (doc_data r))%nat
      by (apply Hnewest; [apply list_elem_of_here|done]). lia.
Qed.

(** X10. On a store whose clock is ahead of every stamped message, a
    message sent with [sendMessage] is the newest of the conversation: the
    next delivery shows it at the bottom of the window, with the message it
    replies to when the store has it. The clock is ahead of the feed again,
    so the next one sent comes after it. *)
Theorem sent_message_shows_last u content replyTo h w :
  u ≠ "" →
  trim content ≠ "" →
  clock_ahead w →
  faults w = [] →
  let w1 := after (UseMessages.sendMessage (Some u) content replyTo w) in
  let id := fresh (dom (duoboard_messages (store w))) in
  let sent_doc :=
    MkDoc id (MkMessage u (Some (trim content)) None (clock w)
                (if truthy replyTo then replyTo else None) ∅) in
  last (messages (hook_after (UseMessages.deliver (h, w1)))) =
    Some (resolve (store w1) sent_doc) ∧
  clock_ahead w1.
Proof.
  intros Hu Hc Hahead Hfs. cbv zeta.
  set (id := fresh (dom (duoboard_messages (store w)))).
  set (d := MkMessage u (Some (trim content)) None (clock w)
              (if truthy replyTo then replyTo else None) ∅).
  assert (duoboard_messages (store w) !! id = None) as Hfresh
    by apply not_elem_of_dom, is_fresh.
  assert (head_fault w = false) as Hf by (unfold head_fault; by rewrite Hfs).
  rewrite sendMessage_run, Hf by done. cbv zeta. unfold after. cbn [snd]. fold id.
  set (w1 := MkWorld _ _ _ _ _ _).
  assert (duoboard_messages (store w1) = <[id := d]> (duoboard_messages (store w))) as Hfeed
    by done.
  assert (clock_ahead w1) as Hahead1.
  { unfold clock_ahead. rewrite Hfeed. apply map_Forall_insert_2.
    - simpl. lia.
    - intros k x Hk. apply Hahead in Hk. simpl in *. lia. }
  split; [|done].
  assert (head (conversation w1) = Some (MkDoc id d)) as Hhead.
  { apply head_of_conversation.
    - apply elem_of_conversation. rewrite Hfeed. simpl. apply lookup_insert_eq.
    - intros x Hx Hne. apply elem_of_conversation in Hx. rewrite Hfeed in Hx.
      simpl in Hne. rewrite lookup_insert_ne in Hx by done.
      apply Hahead in Hx. simpl in *. lia. }
  rewrite deliver_on_snapshot, on_snapshot_run.
  assert (faults w1 = []) as -> by (unfold w1; simpl; by rewrite Hfs).
  rewrite rejects_nil. unfold hook_after. cbn [fst snd messages].
  rewrite last_reverse.
  change (run_query initialQuery (duoboard_messages (store w1)))
    with (take MESSAGES_PER_PAGE (conversation w1)).
  destruct (conversation w1) as [|y l]; [done|].
  simpl in Hhead. injection Hhead as ->. done.
Qed.

Lemma sent_message_shows_last_witness :
  "alice" ≠ "" ∧
  trim "see you" ≠ "" ∧
  clock_ahead (Sample.world []) ∧
  faults (Sample.world []) = [] ∧
  (λ m, content (doc_data (message_of m))) <$>
    last (messages (hook_after (UseMessages.deliver
      (UseMessages.initial,
       after (UseMessages.sendMessage (Some "alice") "see you" None (Sample.world []))))))
    = Some (Some "see you").
Proof.
  assert (clock_ahead (Sample.world [])) as Hahead.
  { apply (bool_decide_unpack _). vm_compute. exact I. }
  split; [done|]. split; [by vm_compute|]. split; [exact Hahead|]. split; [reflexivity|].
  destruct (sent_message_shows_last "alice" "see you" None UseMessages.initial
              (Sample.world [])) as [Hlast _];
    [done | by vm_compute | exact Hahead | reflexivity |].
  rewrite Hlast. reflexivity.
Defined.

(** ** [toggleLike] and what the bubbles show *)

Lemma patch_likes_id messageId l m :
  doc_id (message_of (patch_likes messageId l m)) = doc_id (message_of m).
Proof. unfold patch_likes. by destruct (String.eqb _ _). Qed.

Lemma patch_likes_reply messageId l m :
  replyToMessage (patch_likes messageId l m) = replyToMessage m.
Proof. unfold patch_likes. by destruct (String.eqb _ _). Qed.

Lemma patch_likes_same messageId l m :
  doc_id (message_of m) = messageId →
  doc_data (message_of (patch_likes messageId l m)) = with_likes l (doc_data (message_of m)).
Proof. intros <-. unfold patch_likes. by rewrite String.eqb_refl. Qed.

Lemma patch_likes_other messageId l m :
  doc_id (message_of m) ≠ messageId → patch_likes messageId l m = m.
Proof.
  intros Hne. unfold patch_likes. by destruct (String.eqb_spec (doc_id (message_of m)) messageId).
Qed.

(** X11. After a [toggleLike] that the store has answered, the window has
    the same messages in the same places; those with the toggled id carry
    the like set just written to the store, the others are untouched, and
    no embedded reply copy is changed, not even a copy of the toggled
    message. *)
Theorem toggleLike_patches_window u messageId d h w :
  u ≠ "" →
  duoboard_messages (store w) !! messageId = Some d →
  calm 2 w →
  let x := UseMessages.toggleLike (Some u) messageId (h, w) in
  (λ m, doc_id (message_of m)) <$> messages (hook_after x) =
    (λ m, doc_id (message_of m)) <$> messages h ∧
  replyToMessage <$> messages (hook_after x) = replyToMessage <$> messages h ∧
  (∀ m, m ∈ messages (hook_after x) → doc_id (message_of m) = messageId →
        likes (doc_data (message_of m)) = likes_in (world_after x) messageId) ∧
  (∀ i m, messages h !! i = Some m → doc_id (message_of m) ≠ messageId →
          messages (hook_after x) !! i = Some m).
Proof.
  intros Hu Hd Hc. cbv zeta.
  apply (calm_sent _ (OpGetDoc "duoboard_messages" messageId)) in Hc as [Hf1 Hc].
  apply (calm_sent _ (OpUpdateDoc "duoboard_messages" messageId)) in Hc as [Hf2 _].
  rewrite (toggleLike_done u messageId h w Hu d Hf1 Hf2 Hd).
  unfold hook_after, world_after. cbn [fst snd messages with_messages].
  split; [|split; [|split]].
  - rewrite <- list_fmap_compose. apply list_fmap_ext. intros i m _. simpl.
    apply patch_likes_id.
  - rewrite <- list_fmap_compose. apply list_fmap_ext. intros i m _. simpl.
    apply patch_likes_reply.
  - intros m' (m & -> & Hm)%list_elem_of_fmap Hid. rewrite patch_likes_id in Hid.
    rewrite patch_likes_same by done. unfold likes_in. simpl.
    by rewrite lookup_insert_eq.
  - intros i m Hm Hne. rewrite list_lookup_fmap, Hm. simpl.
    by rewrite patch_likes_other.
Qed.

Lemma toggleLike_patches_window_witness :
  let h := with_messages (resolve Sample.store <$> reverse Sample.page) UseMessages.initial in
  "alice" ≠ "" ∧
  duoboard_messages (store (Sample.world [])) !! "m2" = Some Sample.hello ∧
  calm 2 (Sample.world []) ∧
  (λ m, doc_id (message_of m)) <$>
    messages (hook_after (UseMessages.toggleLike (Some "alice") "m2" (h, Sample.world [])))
    = ["m1"; "m2"; "m3"].
Proof.
  intros h. split; [done|]. split; [reflexivity|]. split; [reflexivity|].
  destruct (toggleLike_patches_window "alice" "m2" Sample.hello h (Sample.world []))
    as [Hids _]; [done | reflexivity | reflexivity |].
  rewrite Hids. reflexivity.
Defined.

Lemma flip_like_clean u l :
  plain_identity u → clean_likes l → clean_likes (flip_like (Some u) l).
Proof.
  intros Hu Hl. unfold flip_like. cbn [or_empty].
  destruct (truthy_at l u); [by apply map_Forall_delete|].
  by apply map_Forall_insert_2.
Qed.

Lemma likedByMe_liked l u : MessageBubble.likedByMe l u = liked u l.
Proof. reflexivity. Qed.

Lemma truthy_at_plain l v :
  plain_identity v → truthy_at l v = true ↔ l !! v = Some true.
Proof.
  intros Hv. unfold truthy_at. destruct (l !! v) as [b|].
  - split; [by intros ->|by intros [= ->]].
  - split; [|done]. by intros ?%bool_decide_eq_true.
Qed.

(** X12. For a message whose like set has only [true] entries under
    identities, as every like set this code writes for an identity, a
    [toggleLike] the store has answered leaves such a like set again; the
    bubble's "liked by me" for the caller is flipped and its like count
    goes down by one when the caller liked the message and up by one
    otherwise; the bubble shows the message as liked exactly when some
    identity likes it. The acting identity is not one of the names every
    object inherits, for which the bubble's test is always truthy. *)
Theorem toggleLike_like_count u messageId d h w :
  u ≠ "" →
  plain_identity u →
  duoboard_messages (store w) !! messageId = Some d →
  clean_likes (likes d) →
  calm 2 w →
  let l' := likes_in (world_after (UseMessages.toggleLike (Some u) messageId (h, w)))
              messageId in
  clean_likes l' ∧
  MessageBubble.likedByMe l' u = negb (MessageBubble.likedByMe (likes d) u) ∧
  MessageBubble.likeCount l' =
    (if MessageBubble.likedByMe (likes d) u
     then MessageBubble.likeCount (likes d) - 1
     else MessageBubble.likeCount (likes d) + 1)%nat ∧
  (MessageBubble.isLiked l' = true ↔
   ∃ v, plain_identity v ∧ MessageBubble.likedByMe l' v = true).
Proof.
  intros Hu Hplain Hd Hclean Hc. cbv zeta.
  apply (calm_sent _ (OpGetDoc "duoboard_messages" messageId)) in Hc as [Hf1 Hc].
  apply (calm_sent _ (OpUpdateDoc "duoboard_messages" messageId)) in Hc as [Hf2 _].
  rewrite (toggleLike_done u messageId h w Hu d Hf1 Hf2 Hd).
  unfold world_after, likes_in. cbn [fst snd]. simpl. rewrite lookup_insert_eq. simpl.
  pose proof (flip_like_clean u _ Hplain Hclean) as Hclean'.
  split; [done|]. split; [by rewrite !likedByMe_liked, flip_liked|]. split.
  - unfold MessageBubble.likeCount, MessageBubble.likedByMe, flip_like. cbn [or_empty].
    destruct (likes d !! u) as [b|] eqn:Hl.
    + destruct (Hclean u b Hl) as [-> _].
      rewrite (truthy_at_own u (likes d) true Hl).
      rewrite map_size_delete_Some by done. lia.
    + rewrite (truthy_at_none u Hplain (likes d) Hl).
      rewrite map_size_insert_None by done. lia.
  - unfold MessageBubble.isLiked, MessageBubble.likedByMe.
    rewrite Nat.ltb_lt. split.
    + intros Hpos. destruct (map_choose (flip_like (Some u) (likes d))) as (v & b & Hv).
      { apply map_size_non_empty_iff. lia. }
      destruct (Hclean' v b Hv) as [-> Hplain'].
      exists v. split; [done|]. by apply truthy_at_plain.
    + intros (v & Hplain' & Hv). apply truthy_at_plain in Hv; [|done].
      assert (size (flip_like (Some u) (likes d)) ≠ 0)%nat; [|lia].
      apply map_size_non_empty_iff. intros Hempty. by rewrite Hempty in Hv.
Qed.

Lemma toggleLike_like_count_witness :
  "alice" ≠ "" ∧
  plain_identity "alice" ∧
  duoboard_messages (store (Sample.world [])) !! "m2" = Some Sample.hello ∧
  clean_likes (likes Sample.hello) ∧
  calm 2 (Sample.world []) ∧
  MessageBubble.likeCount
    (likes_in (world_after (UseMessages.toggleLike (Some "alice") "m2"
                              (UseMessages.initial, Sample.world []))) "m2") = 1%nat.
Proof.
  assert (clean_likes (likes Sample.hello)) as Hclean by apply map_Forall_empty.
  assert (plain_identity "alice") as Hplain
    by (apply (bool_decide_unpack _); by vm_compute).
  split; [done|]. split; [exact Hplain|]. split; [reflexivity|]. split; [exact Hclean|].
  split; [reflexivity|].
  destruct (toggleLike_like_count "alice" "m2" Sample.hello UseMessages.initial
              (Sample.world [])) as (_ & _ & Hcount & _);
    [done | exact Hplain | reflexivity | exact Hclean | reflexivity |].
  rewrite Hcount. reflexivity.
Defined.

(** ** [getMessageById] *)

Lemma NoDup_key_inj {A K} (key : A → K) (l : list A) x y :
  NoDup (key <$> l) → x ∈ l → y ∈ l → key x = key y → x = y.
Proof.
  intros Hnd [i Hi]%list_elem_of_lookup [j Hj]%list_elem_of_lookup Hk.
  assert (i = j) as ->; [|congruence].
  apply (NoDup_lookup (key <$> l) i j (key x)); [done| |].
  - by rewrite list_lookup_fmap, Hi.
  - by rewrite list_lookup_fmap, Hj, Hk.
Qed.

Lemma getMessageById_found h (m : MessageWithReply) :
  NoDup ((λ m, doc_id (message_of m)) <$> messages h) →
  m ∈ messages h →
  UseMessages.getMessageById h (doc_id (message_of m)) = Some m.
Proof.
  intros Hnd Hm. unfold UseMessages.getMessageById.
  destruct (list_find _ (messages h)) as [[i y]|] eqn:Hfind; simpl.
  - apply list_find_Some in Hfind as (Hy & Hid & _). f_equal.
    apply (NoDup_key_inj (λ m, doc_id (message_of m)) (messages h)); try done.
    by eapply list_elem_of_lookup_2.
  - apply list_find_None in Hfind. rewrite Forall_forall in Hfind.
    by destruct (Hfind m Hm).
Qed.

Lemma getMessageById_absent h id :
  id ∉ (λ m, doc_id (message_of m)) <$> messages h →
  UseMessages.getMessageById h id = None.
Proof.
  intros Hid. unfold UseMessages.getMessageById.
  destruct (list_find _ (messages h)) as [[i y]|] eqn:Hfind; [|done].
  apply list_find_Some in Hfind as (Hy & Hy' & _). destruct Hid.
  apply list_elem_of_fmap. exists y. split; [done|]. by eapply list_elem_of_lookup_2.
Qed.

(** X13. After a delivery of a batch of distinct documents whose reply
    reads were answered, [getMessageById] finds every message of the
    batch, with its reply resolved, and finds nothing under any other
    id. *)
Theorem getMessageById_after_delivery snapshot h w :
  NoDup (doc_id <$> snapshot) →
  calm (length (reply_ids snapshot)) w →
  let h' := hook_after (UseMessages.on_snapshot snapshot (h, w)) in
  (∀ m, m ∈ snapshot →
        UseMessages.getMessageById h' (doc_id m) = Some (resolve (store w) m)) ∧
  (∀ id, id ∉ doc_id <$> snapshot → UseMessages.getMessageById h' id = None).
Proof.
  intros Hnd Hc. cbv zeta. rewrite on_snapshot_run. unfold calm in Hc. rewrite Hc.
  unfold hook_after. cbn [fst snd].
  assert ((λ m, doc_id (message_of m)) <$> reverse (resolve (store w) <$> snapshot)
          = reverse (doc_id <$> snapshot)) as Hids.
  { rewrite fmap_reverse, <- list_fmap_compose. done. }
  split.
  - intros m Hm.
    apply (getMessageById_found _ (resolve (store w) m)); cbn [messages].
    + rewrite Hids. by rewrite reverse_Permutation.
    + apply elem_of_reverse, list_elem_of_fmap. by exists m.
  - intros id Hid. apply getMessageById_absent. cbn [messages].
    rewrite Hids. by rewrite elem_of_reverse.
Qed.

Lemma getMessageById_after_delivery_witness :
  NoDup (doc_id <$> Sample.page) ∧
  calm (length (reply_ids Sample.page)) (Sample.world []) ∧
  UseMessages.getMessageById
    (hook_after (UseMessages.on_snapshot Sample.page (UseMessages.initial, Sample.world [])))
    "m2"
  = Some (MkWithReply (MkDoc "m2" Sample.hello) (Some (MkDoc "m1" Sample.hi))).
Proof.
  assert (NoDup (doc_id <$> Sample.page)) as Hnd.
  { apply (bool_decide_unpack _). vm_compute. exact I. }
  split; [exact Hnd|]. split; [reflexivity|].
  destruct (getMessageById_after_delivery Sample.page UseMessages.initial (Sample.world []))
    as [Hfound _]; [exact Hnd | reflexivity |].
  assert (MkDoc "m2" Sample.hello ∈ Sample.page) as Hin
    by apply list_elem_of_further, list_elem_of_here.
  exact (eq_trans (Hfound _ Hin) eq_refl).
Defined.

(** ** [toggleItemCompleted] on an item the store has *)

Lemma toggleItemCompleted_run u itemId d w :
  u ≠ "" →
  listItems_docs (store w) !! itemId = Some d →
  let w1 := sent (OpGetDoc "listItems" itemId) w in
  let w2 := sent (OpUpdateDoc "listItems" itemId) w1 in
  UseLists.toggleItemCompleted (Some u) itemId w =
    if head_fault w then
      (Throw "Failed to update item", logged "Error toggling item completion:" w1)
    else if head_fault w1 then
      (Throw "Failed to update item", logged "Error toggling item completion:" w2)
    else
      (Ok tt,
       set_store
         (set_docs UseLists.LIST_ITEMS_COLLECTION
            (<[itemId := with_completed (negb (completed d)) d]> (listItems_docs (store w))))
         w2).
Proof.
  intros Hu Hd w1 w2. unfold UseLists.toggleItemCompleted. rewrite truthy_Some by done.
  cbn [negb]. unfold try_catch, bind. rewrite getDoc_run.
  destruct (head_fault w); [done|]. cbv beta iota. cbn [snapshot_of doc_data].
  change (docs UseLists.LIST_ITEMS_COLLECTION (store w)) with (listItems_docs (store w)).
  rewrite Hd. cbv beta iota zeta. rewrite updateDoc_run.
  change (sent (OpGetDoc (path UseLists.LIST_ITEMS_COLLECTION) itemId) w) with w1.
  destruct (head_fault w1); [done|].
  change (docs UseLists.LIST_ITEMS_COLLECTION (store w1)) with (listItems_docs (store w)).
  by rewrite Hd.
Qed.

Lemma with_completed_twice b d :
  with_completed (negb (negb b)) (with_completed (negb b) d) = with_completed b d.
Proof. by rewrite negb_involutive. Qed.

(** X14. [toggleItemCompleted] on an item the store has, its read and its
    write answered, negates [completed] and leaves the item's list,
    message and time, and every other item, as they were; a second call
    brings the store back to what it was. *)
Theorem toggleItemCompleted_involutive u itemId d w :
  u ≠ "" →
  listItems_docs (store w) !! itemId = Some d →
  calm 4 w →
  let x1 := UseLists.toggleItemCompleted (Some u) itemId w in
  let x2 := UseLists.toggleItemCompleted (Some u) itemId (after x1) in
  outcome x1 = Ok tt ∧
  listItems_docs (store (after x1)) =
    <[itemId := MkListItem (listId d) (messageId d) (addedAt d) (negb (completed d))]>
      (listItems_docs (store w)) ∧
  outcome x2 = Ok tt ∧
  store (after x2) = store w.
Proof.
  intros Hu Hd Hc. cbv zeta.
  apply (calm_sent _ (OpGetDoc "listItems" itemId)) in Hc as [Hf1 Hc].
  apply (calm_sent _ (OpUpdateDoc "listItems" itemId)) in Hc as [Hf2 Hc].
  rewrite (toggleItemCompleted_run u itemId d w Hu Hd). cbv zeta. rewrite Hf1, Hf2.
  unfold outcome, after. cbn [fst snd]. split; [done|]. split; [done|].
  set (w1 := set_store _ _).
  assert (listItems_docs (store w1) !! itemId = Some (with_completed (negb (completed d)) d))
    as Hd1 by apply lookup_insert_eq.
  apply (calm_sent _ (OpGetDoc "listItems" itemId)) in Hc as [Hf3 Hc].
  apply (calm_sent _ (OpUpdateDoc "listItems" itemId)) in Hc as [Hf4 _].
  rewrite (toggleItemCompleted_run u itemId _ w1 Hu Hd1). cbv zeta.
  change (head_fault w1) with (head_fault (sent (OpUpdateDoc "listItems" itemId)
                                            (sent (OpGetDoc "listItems" itemId) w))).
  rewrite Hf3.
  change (head_fault (sent (OpGetDoc "listItems" itemId) w1))
    with (head_fault (sent (OpGetDoc "listItems" itemId)
                        (sent (OpUpdateDoc "listItems" itemId)
                           (sent (OpGetDoc "listItems" itemId) w)))).
  rewrite Hf4. cbn [fst snd]. split; [done|].
  simpl. rewrite insert_insert_eq, negb_involutive.
  replace (with_completed (completed d) (with_completed (negb (completed d)) d)) with d
    by (by destruct d).
  rewrite insert_id by done. by destruct (store w).
Qed.

Lemma toggleItemCompleted_involutive_witness :
  "alice" ≠ "" ∧
  listItems_docs (store (Sample.world [])) !! "i1" = Some Sample.saved ∧
  calm 4 (Sample.world []) ∧
  listItems_docs
    (store (after (UseLists.toggleItemCompleted (Some "alice") "i1" (Sample.world []))))
    !! "i1" = Some (MkListItem "l1" "m2" 5 true).
Proof.
  split; [done|]. split; [reflexivity|]. split; [reflexivity|].
  destruct (toggleItemCompleted_involutive "alice" "i1" Sample.saved (Sample.world []))
    as (_ & Hitems & _); [done | reflexivity | reflexivity |].
  rewrite Hitems. reflexivity.
Defined.

(** X15. When the read or the write of [toggleItemCompleted] is rejected
    the caller gets the typed failure ['Failed to update item'] and the
    store is as it was: unlike [toggleLike], the failure is raised. *)
Theorem toggleItemCompleted_rejected u itemId d w :
  u ≠ "" →
  listItems_docs (store w) !! itemId = Some d →
  rejects 2 (faults w) = true →
  let x := UseLists.toggleItemCompleted (Some u) itemId w in
  outcome x = Throw "Failed to update item" ∧
  store (after x) = store w ∧
  console (after x) = console w ++ ["Error toggling item completion:"].
Proof.
  intros Hu Hd Hr. cbv zeta.
  rewrite (toggleItemCompleted_run u itemId d w Hu Hd). cbv zeta.
  unfold head_fault. simpl. unfold rejects in Hr.
  destruct (faults w) as [|[] [|[] fs]]; try done.
Qed.

Lemma toggleItemCompleted_rejected_witness :
  "alice" ≠ "" ∧
  listItems_docs (store (Sample.world [false; true])) !! "i1" = Some Sample.saved ∧
  rejects 2 (faults (Sample.world [false; true])) = true ∧
  outcome (UseLists.toggleItemCompleted (Some "alice") "i1" (Sample.world [false; true]))
    = Throw "Failed to update item".
Proof.
  split; [done|]. split; [reflexivity|]. split; [reflexivity|].
  apply (toggleItemCompleted_rejected "alice" "i1" Sample.saved (Sample.world [false; true]));
    [done | reflexivity | reflexivity].
Defined.

(** ** [removeFromList] *)

Lemma removeFromList_run u l m w :
  u ≠ "" →
  let q := OpGetDocs "listItems" [QWhere "listId" l; QWhere "messageId" m] in
  let ids := doc_id <$> run_query [Where "listId" l; Where "messageId" m]
                          (listItems_docs (store w)) in
  UseLists.removeFromList (Some u) l m w =
    if head_fault w then
      (Throw "Failed to remove from list",
       logged "Error removing from list:" (sent q w))
    else if rejects (length ids) (tail (faults w)) then
      (Throw "Failed to remove from list",
       logged "Error removing from list:" (items_deleted ids (sent q w)))
    else (Ok tt, items_deleted ids (sent q w)).
Proof.
  intros Hu q ids. unfold UseLists.removeFromList. rewrite truthy_Some by done.
  cbn [negb]. unfold try_catch, bind. cbv beta. rewrite getDocs_run.
  destruct (head_fault w); [done|]. cbv beta iota.
  unfold UseLists.LIST_ITEMS_COLLECTION. rewrite promise_all_delete_items.
  fold ids. change (faults (sent _ w)) with (tail (faults w)).
  replace (length ids)
    with (length (run_query [Where "listId" l; Where "messageId" m]
                    (docs listItems_ref (store w))))
    by (unfold ids; by rewrite length_fmap).
  by destruct (rejects _ _).
Qed.

Lemma existing_query_complete l m (items : gmap string ListItemData) id d :
  items !! id = Some d → listId d = l → messageId d = m →
  id ∈ doc_id <$> run_query [Where "listId" l; Where "messageId" m] items.
Proof.
  intros Hd Hl Hm. apply list_elem_of_fmap. exists (MkDoc id d). split; [done|].
  by apply elem_of_existing_query.
Qed.

Lemma existing_query_sound l m (items : gmap string ListItemData) id :
  id ∈ doc_id <$> run_query [Where "listId" l; Where "messageId" m] items →
  ∃ d, items !! id = Some d ∧ listId d = l ∧ messageId d = m.
Proof.
  intros (r & -> & Hr)%list_elem_of_fmap. apply elem_of_existing_query in Hr.
  by exists (doc_data r).
Qed.

Lemma delete_answered_lookup {D} fs ids (m : gmap string D) k :
  delete_answered fs ids m !! k = m !! k ∨
  (k ∈ ids ∧ delete_answered fs ids m !! k = None).
Proof.
  revert fs m. induction ids as [|id ids IH]; intros fs m; [by left|].
  cbn [delete_answered].
  set (m' := match fs with true :: _ => m | _ => delete id m end).
  assert (m' !! k = m !! k ∨ (k = id ∧ m' !! k = None)) as Hm'.
  { subst m'. destruct fs as [|[] fs]; try (by left);
      (destruct (decide (k = id)) as [->|];
       [right; split; [done|apply lookup_delete_eq]|left; by rewrite lookup_delete_ne]). }
  destruct (IH (tail fs) m') as [Heq|[Hin Hnone]].
  - rewrite Heq. destruct Hm' as [->|[-> Hn]]; [by left|].
    right. split; [apply list_elem_of_here|done].
  - right. split; [by apply list_elem_of_further|done].
Qed.

(** X16. [removeFromList], its query and its deletions answered, removes
    every item that records the pair (listId, messageId), duplicates
    included, and nothing else: every other item is still there and the
    other collections are untouched. *)
Theorem removeFromList_removes_all u l m w :
  u ≠ "" →
  head_fault w = false →
  rejects (length (run_query [Where "listId" l; Where "messageId" m]
                     (listItems_docs (store w)))) (tail (faults w)) = false →
  let x := UseLists.removeFromList (Some u) l m w in
  outcome x = Ok tt ∧
  membership l m (listItems_docs (store (after x))) = ∅ ∧
  (∀ id d, listItems_docs (store w) !! id = Some d →
           ¬ (listId d = l ∧ messageId d = m) →
           listItems_docs (store (after x)) !! id = Some d) ∧
  lists_docs (store (after x)) = lists_docs (store w) ∧
  duoboard_messages (store (after x)) = duoboard_messages (store w) ∧
  messages_docs (store (after x)) = messages_docs (store w).
Proof.
  intros Hu Hf Hr. cbv zeta. rewrite removeFromList_run, Hf by done. cbv zeta.
  rewrite length_fmap, Hr. unfold outcome, after. cbn [fst snd].
  split; [done|]. simpl. rewrite <- (length_fmap doc_id) in Hr. split; [|split; [|done]].
  - apply map_empty. intros k. apply map_lookup_filter_None. right.
    intros d Hd [Hl Hm]. simpl in *.
    rewrite lookup_delete_answered in Hd by done.
    destruct (decide _) as [|Hk]; [done|].
    apply Hk. by eapply existing_query_complete.
  - intros id d Hd Hne. rewrite lookup_delete_answered by done.
    destruct (decide _) as [Hin|]; [|done].
    apply existing_query_sound in Hin as (d' & Hd' & Hl & Hm).
    rewrite Hd in Hd'. injection Hd' as <-. by destruct Hne.
Qed.

Lemma removeFromList_removes_all_witness :
  "alice" ≠ "" ∧
  head_fault (Sample.world []) = false ∧
  listItems_docs
    (store (after (UseLists.removeFromList (Some "alice") "l1" "m2" (Sample.world []))))
    !! "i2" = Some Sample.saved_again.
Proof.
  split; [done|]. split; [reflexivity|].
  destruct (removeFromList_removes_all "alice" "l1" "m2" (Sample.world []))
    as (_ & _ & Hkept & _); [done | reflexivity | reflexivity |].
  apply Hkept; [reflexivity|]. by intros [_ ?].
Defined.



(** ** Adding and then removing *)

Lemma rows_of_NoDup {D} `{Document D} (m : gmap string D) : NoDup (doc_id <$> rows_of m).
Proof.
  unfold rows_of. rewrite merge_sort_Permutation, <- list_fmap_compose.
  apply (NoDup_fst_map_to_list m).
Qed.

Lemma existing_query_NoDup l m (items : gmap string ListItemData) :
  NoDup (doc_id <$> run_query [Where "listId" l; Where "messageId" m] items).
Proof.
  unfold run_query. cbn [constrain].
  apply (sublist_NoDup _ (doc_id <$> rows_of items)); [apply rows_of_NoDup|].
  apply fmap_sublist. etrans; apply sublist_filter.
Qed.

Lemma existing_query_fresh l m t id (items : gmap string ListItemData) :
  membership l m items = ∅ →
  doc_id <$> run_query [Where "listId" l; Where "messageId" m]
               (<[id := MkListItem l m t false]> items) = [id].
Proof.
  intros Hempty.
  pose proof (existing_query_NoDup l m (<[id := MkListItem l m t false]> items)) as Hnd.
  assert (∀ k, k ∈ doc_id <$> run_query [Where "listId" l; Where "messageId" m]
                               (<[id := MkListItem l m t false]> items) → k = id) as Hall.
  { intros k (d & Hd & Hl & Hm)%existing_query_sound.
    destruct (decide (k = id)) as [|Hk]; [done|].
    rewrite lookup_insert_ne in Hd by done.
    assert (membership l m items !! k = Some d) as Hin by by apply map_lookup_filter_Some.
    by rewrite Hempty in Hin. }
  assert (id ∈ doc_id <$> run_query [Where "listId" l; Where "messageId" m]
                            (<[id := MkListItem l m t false]> items)) as Hin.
  { eapply existing_query_complete; [apply lookup_insert_eq|done|done]. }
  destruct (doc_id <$> run_query _ _) as [|a [|b ids]].
  - by apply elem_of_nil in Hin.
  - f_equal. apply Hall, list_elem_of_here.
  - rewrite (Hall a), (Hall b) in Hnd
      by (apply list_elem_of_here || apply list_elem_of_further, list_elem_of_here).
    apply NoDup_cons in Hnd as [Hnd _]. destruct Hnd. apply list_elem_of_here.
Qed.

Lemma store_eta s :
  MkStore (duoboard_messages s) (messages_docs s) (lists_docs s) (listItems_docs s)
    (objects s) = s.
Proof. by destruct s. Qed.

(** X18. On a store that holds no item for the pair (listId, messageId) and
    answers the four operations, [addMessageToList] followed by
    [removeFromList] for the same pair both complete, the pair has exactly
    one item in between, and the store ends as it began. *)
Theorem add_then_remove_restores u l m w :
  u ≠ "" →
  calm 4 w →
  membership l m (listItems_docs (store w)) = ∅ →
  let x := UseLists.addMessageToList (Some u) l m w in
  let y := UseLists.removeFromList (Some u) l m (after x) in
  outcome x = Ok tt ∧
  size (membership l m (listItems_docs (store (after x)))) = 1%nat ∧
  outcome y = Ok tt ∧
  store (after y) = store w.
Proof.
  intros Hu Hc Hempty. cbv zeta.
  apply (calm_sent _ (OpGetDocs "listItems" [QWhere "listId" l; QWhere "messageId" m]))
    in Hc as [Hf1 Hc].
  apply (calm_sent _ (OpAddDoc "listItems")) in Hc as [Hf2 Hc].
  rewrite addMessageToList_run by done. cbv zeta.
  rewrite Hf1, decide_True, Hf2 by done.
  unfold outcome at 1, after. cbn [fst snd].
  set (id := fresh (dom (listItems_docs (store w)))).
  set (w1 := MkWorld _ _ _ _ _ _).
  change (calm 2 w1) in Hc. apply calm_S in Hc as [Hf3 Hr].
  split; [done|]. split.
  { change (listItems_docs (store w1))
      with (<[id := MkListItem l m (clock w) false]> (listItems_docs (store w))).
    by rewrite membership_insert_same, Hempty, insert_empty, map_size_singleton. }
  rewrite removeFromList_run, Hf3 by done. cbv zeta.
  change (listItems_docs (store w1))
    with (<[id := MkListItem l m (clock w) false]> (listItems_docs (store w))).
  rewrite existing_query_fresh by done. cbn [length]. rewrite Hr.
  unfold outcome. cbn [fst snd]. split; [done|].
  unfold items_deleted. cbn [store delete_answered].
  change (faults (sent _ w1)) with (tail (faults w1)).
  change (store (sent _ w1)) with (store w1).
  assert ((match tail (faults w1) with
           | true :: _ => listItems_docs (store w1)
           | _ => delete id (listItems_docs (store w1))
           end) = listItems_docs (store w)) as ->.
  { unfold rejects in Hr. destruct (tail (faults w1)) as [|[] fs]; [|done|];
      (change (listItems_docs (store w1))
         with (<[id := MkListItem l m (clock w) false]> (listItems_docs (store w)));
       apply delete_insert_id, not_elem_of_dom, is_fresh). }
  apply (store_eta (store w)).
Qed.

Lemma add_then_remove_restores_witness :
  let x := UseLists.addMessageToList (Some "alice") "l1" "m1" (Sample.world []) in
  "alice" ≠ "" ∧
  calm 4 (Sample.world []) ∧
  store (after (UseLists.removeFromList (Some "alice") "l1" "m1" (after x))) = Sample.store.
Proof.
  split; [done|]. split; [reflexivity|].
  by destruct (add_then_remove_restores "alice" "l1" "m1" (Sample.world []))
    as (_ & _ & _ & Hback); [done | reflexivity | by vm_compute |].
Defined.

(** ** [updateList] *)

Lemma updateList_run u l updates w :
  u ≠ "" →
  let w1 := sent (OpUpdateDoc "lists" l) w in
  UseLists.updateList (Some u) l updates w =
    if head_fault w then
      (Throw "Failed to update list", logged "Error updating list:" w1)
    else
      match lists_docs (store w) !! l with
      | Some d =>
          (Ok tt,
           set_store
             (set_docs UseLists.LISTS_COLLECTION
                (<[l := apply_updates updates d]> (lists_docs (store w))))
             w1)
      | None => (Throw "Failed to update list", logged "Error updating list:" w1)
      end.
Proof.
  intros Hu w1. unfold UseLists.updateList. rewrite truthy_Some by done.
  cbn [negb]. unfold try_catch. rewrite updateDoc_run.
  destruct (head_fault w); [done|].
  change (docs UseLists.LISTS_COLLECTION (store w)) with (lists_docs (store w)).
  by destruct (lists_docs (store w) !! l).
Qed.

(** X19. [updateList], its write answered, changes the fields the update
    names and no other: the owner and the creation time of the list stay,
    a field the update leaves out keeps its value, the other lists and
    the items are untouched, and no list is created. On a list the store
    does not have it raises ['Failed to update list'] and leaves the
    store as it was. The caller need not own the list. *)
Theorem updateList_patches u l updates w :
  u ≠ "" →
  head_fault w = false →
  let x := UseLists.updateList (Some u) l updates w in
  (∀ d, lists_docs (store w) !! l = Some d →
     outcome x = Ok tt ∧
     ∃ d', lists_docs (store (after x)) !! l = Some d' ∧
       ownerId d' = ownerId d ∧ createdAt d' = createdAt d ∧
       name d' = default (name d) (new_name updates) ∧
       visibility d' = default (visibility d) (new_visibility updates) ∧
       type d' = default (type d) (new_type updates) ∧
       emoji d' = default (emoji d) (new_emoji updates)) ∧
  (lists_docs (store w) !! l = None →
     outcome x = Throw "Failed to update list" ∧ store (after x) = store w) ∧
  (∀ k, k ≠ l → lists_docs (store (after x)) !! k = lists_docs (store w) !! k) ∧
  dom (lists_docs (store (after x))) = dom (lists_docs (store w)) ∧
  listItems_docs (store (after x)) = listItems_docs (store w).
Proof.
  intros Hu Hf. cbv zeta. rewrite updateList_run, Hf by done. cbv zeta.
  unfold outcome, after.
  destruct (lists_docs (store w) !! l) as [d|] eqn:Hd; cbn [fst snd].
  - split; [|split; [done|]].
    + intros ? [= <-]. split; [done|]. exists (apply_updates updates d).
      split; [apply lookup_insert_eq|done].
    + split; [|split; [|done]].
      * intros k Hk. simpl. by rewrite lookup_insert_ne.
      * simpl. rewrite dom_insert_L.
        apply (elem_of_dom_2 (D := gset string)) in Hd. set_solver.
  - split; [done|]. split; [done|]. done.
Qed.

Lemma updateList_patches_witness :
  let x := UseLists.updateList (Some "bob") "l1"
             (MkUpdates (Some "Shopping") None None None) (Sample.world []) in
  "bob" ≠ "" ∧
  head_fault (Sample.world []) = false ∧
  lists_docs (store (after x)) !! "l1"
    = Some (MkList "Shopping" "alice" private checklist 4 "").
Proof.
  split; [done|]. split; [reflexivity|].
  destruct (updateList_patches "bob" "l1" (MkUpdates (Some "Shopping") None None None)
              (Sample.world [])) as (Hfound & _); [done | reflexivity |].
  destruct (Hfound Sample.groceries eq_refl)
    as (_ & d' & Hd' & Ho & Hc & Hn & Hv & Ht & He).
  rewrite Hd'. f_equal. destruct d'. simpl in *. by subst.
Defined.

(** ** [getListItems] *)

Lemma items_page_empty l (items : gmap string ListItemData) :
  items_of l items = ∅ →
  run_query [Where "listId" l; OrderByDesc "addedAt"] items = [].
Proof.
  intros Hempty. unfold run_query. cbn [constrain].
  change (filter _ (rows_of items)) with (run_query [Where "listId" l] items).
  destruct (run_query [Where "listId" l] items) as [|r rs] eqn:Hq; [done|].
  assert (r ∈ run_query [Where "listId" l] items) as Hin
    by (rewrite Hq; apply list_elem_of_here).
  apply elem_of_items_query in Hin as [Hr Hl].
  assert (items_of l items !! doc_id r = Some (doc_data r)) as Hin
    by by apply map_lookup_filter_Some.
  by rewrite Hempty in Hin.
Qed.

Lemma elem_of_items_page l (items : gmap string ListItemData) (r : ListItem) :
  r ∈ run_query [Where "listId" l; OrderByDesc "addedAt"] items ↔
  items !! doc_id r = Some (doc_data r) ∧ listId (doc_data r) = l.
Proof.
  unfold run_query. cbn [constrain].
  rewrite merge_sort_Permutation, list_elem_of_filter.
  change (filter _ (rows_of items)) with (run_query [Where "listId" l] items).
  rewrite elem_of_items_query. split; [by intros [_ ?]|].
  intros Hr. split; [by eexists|done].
Qed.

Lemma items_page_NoDup l (items : gmap string ListItemData) :
  NoDup (doc_id <$> run_query [Where "listId" l; OrderByDesc "addedAt"] items).
Proof.
  unfold run_query. cbn [constrain]. rewrite merge_sort_Permutation.
  apply (sublist_NoDup _ (doc_id <$> rows_of items)); [apply rows_of_NoDup|].
  apply fmap_sublist. etrans; apply sublist_filter.
Qed.

Lemma items_page_sorted l (items : gmap string ListItemData) :
  StronglySorted (λ a b : ListItem, (addedAt (doc_data b) ≤ addedAt (doc_data a))%nat)
    (run_query [Where "listId" l; OrderByDesc "addedAt"] items).
Proof.
  unfold run_query. cbn [constrain].
  assert (Transitive (λ a b : ListItem, (addedAt (doc_data b) ≤ addedAt (doc_data a))%nat))
    by (intros a b c ? ?; lia).
  apply Sorted_StronglySorted; [done|].
  apply (Sorted_weaken (newest_first "addedAt")).
  - intros a b. unfold newest_first, desc_on, time_of. simpl.
    intros [Hlt%Is_true_true%Nat.ltb_lt|[Heq%Is_true_true%Nat.eqb_eq _]%andb_prop_elim]%orb_prop_elim; lia.
  - apply Sorted_merge_sort, newest_first_total.
Qed.

(** X20. [getListItems], its query and its reads answered, returns the
    items of the list and no other, each once, the latest added first,
    each with the message its [messageId] names in the ['messages']
    collection or [null] when that collection has none; it changes
    nothing in the store. *)
Theorem getListItems_joins l w :
  head_fault w = false →
  rejects (length (run_query [Where "listId" l; OrderByDesc "addedAt"]
                     (listItems_docs (store w)))) (tail (faults w)) = false →
  let x := UseLists.getListItems l w in
  ∃ rows,
    outcome x = Ok rows ∧
    (∀ id d, listItems_docs (store w) !! id = Some d → listId d = l →
             MkDoc id d ∈ item_of <$> rows) ∧
    (∀ row, row ∈ rows →
       listItems_docs (store w) !! doc_id (item_of row) = Some (doc_data (item_of row)) ∧
       listId (doc_data (item_of row)) = l ∧
       message row =
         MkDoc (messageId (doc_data (item_of row)))
           <$> messages_docs (store w) !! messageId (doc_data (item_of row))) ∧
    NoDup ((λ row, doc_id (item_of row)) <$> rows) ∧
    StronglySorted (λ a b : ListItem, (addedAt (doc_data b) ≤ addedAt (doc_data a))%nat)
      (item_of <$> rows) ∧
    store (after x) = store w.
Proof.
  intros Hf Hr. cbv zeta. rewrite getListItems_run, Hf. cbv zeta. rewrite Hr.
  eexists. split; [reflexivity|]. unfold after. cbn [snd].
  assert (item_of <$> (join_message (store w)
            <$> run_query [Where "listId" l; OrderByDesc "addedAt"] (listItems_docs (store w)))
          = run_query [Where "listId" l; OrderByDesc "addedAt"] (listItems_docs (store w)))
    as Hitems.
  { rewrite <- list_fmap_compose. etrans; [|apply list_fmap_id].
    by apply list_fmap_ext. }
  split; [|split; [|split; [|split; [|done]]]].
  - intros id d Hd Hl. rewrite Hitems. by apply elem_of_items_page.
  - intros row (r & -> & [Hr' Hl]%elem_of_items_page)%list_elem_of_fmap. done.
  - rewrite (list_fmap_compose item_of doc_id), Hitems. apply items_page_NoDup.
  - rewrite Hitems. apply items_page_sorted.
Qed.

Lemma getListItems_joins_witness :
  head_fault (Sample.world []) = false ∧
  ∃ rows, outcome (UseLists.getListItems "l1" (Sample.world [])) = Ok rows ∧
          (item_of <$> rows) = [MkDoc "i2" Sample.saved_again; MkDoc "i1" Sample.saved].
Proof.
  split; [reflexivity|].
  destruct (getListItems_joins "l1" (Sample.world [])) as (rows & Hrows & _);
    [reflexivity | reflexivity |].
  exists rows. split; [exact Hrows|].
  vm_compute in Hrows. injection Hrows as <-. reflexivity.
Defined.

(** X21. Once [deleteList] has completed, [getListItems] for that list,
    its query answered, returns the empty list after a single query: no
    item is left to read a message for. *)
Theorem deleted_list_reads_empty u l w :
  u ≠ "" →
  let x := UseLists.deleteList (Some u) l w in
  outcome x = Ok tt →
  head_fault (after x) = false →
  outcome (UseLists.getListItems l (after x)) = Ok [] ∧
  ops_since (after x) (after (UseLists.getListItems l (after x)))
    = [OpGetDocs "listItems" [QWhere "listId" l; QOrderByDesc "addedAt"]].
Proof.
  intros Hu. cbv zeta. rewrite deleteList_run by done. cbv zeta.
  destruct (head_fault w); [done|].
  destruct (rejects _ _) eqn:Hr; [done|].
  destruct (head_fault (items_deleted _ _)); [done|].
  unfold outcome at 1, after. cbn [fst snd]. intros _ Hf.
  rewrite getListItems_run, Hf. cbv zeta.
  match goal with
  | |- context [run_query [Where "listId" l; OrderByDesc "addedAt"] ?m] =>
      assert (run_query [Where "listId" l; OrderByDesc "addedAt"] m = []) as ->
  end.
  { apply items_page_empty. simpl. by apply items_of_deleted. }
  cbn [length fmap list_fmap]. unfold rejects. rewrite take_0. cbn [existsb].
  unfold outcome. cbn [fst snd]. split; [done|].
  rewrite sent_all_nil. apply ops_since_sent.
Qed.

Lemma deleted_list_reads_empty_witness :
  let x := UseLists.deleteList (Some "alice") "l1" (Sample.world []) in
  "alice" ≠ "" ∧ outcome x = Ok tt ∧ head_fault (after x) = false ∧
  outcome (UseLists.getListItems "l1" (after x)) = Ok [].
Proof.
  split; [done|]. split; [reflexivity|]. split; [reflexivity|].
  by destruct (deleted_list_reads_empty "alice" "l1" (Sample.world []))
    as [Hempty _]; [done | reflexivity | reflexivity |].
Defined.

(** ** What [deleteList] leaves alone *)

Lemma items_query_sound l (items : gmap string ListItemData) id :
  id ∈ doc_id <$> run_query [Where "listId" l] items →
  ∃ d, items !! id = Some d ∧ listId d = l.
Proof.
  intros (r & -> & Hr)%list_elem_of_fmap. apply elem_of_items_query in Hr.
  by exists (doc_data r).
Qed.

(** X22. Whatever the store answers, [deleteList] removes no item of
    another list, creates or changes no item, and touches no List
    document but the one it was called for. *)
Theorem deleteList_spares_others u l w :
  u ≠ "" →
  let x := UseLists.deleteList (Some u) l w in
  (∀ id d, listItems_docs (store w) !! id = Some d → listId d ≠ l →
           listItems_docs (store (after x)) !! id = Some d) ∧
  (∀ id, listItems_docs (store (after x)) !! id = listItems_docs (store w) !! id ∨
         listItems_docs (store (after x)) !! id = None) ∧
  (∀ k, k ≠ l → lists_docs (store (after x)) !! k = lists_docs (store w) !! k).
Proof.
  intros Hu. cbv zeta. rewrite deleteList_run by done. cbv zeta.
  unfold after.
  assert (∀ fs id d, listItems_docs (store w) !! id = Some d → listId d ≠ l →
            delete_answered fs
              (doc_id <$> run_query [Where "listId" l] (listItems_docs (store w)))
              (listItems_docs (store w)) !! id = Some d) as Hkept.
  { intros fs id d Hd Hne.
    destruct (delete_answered_lookup fs
                (doc_id <$> run_query [Where "listId" l] (listItems_docs (store w)))
                (listItems_docs (store w)) id) as [->|[Hin _]]; [done|].
    apply items_query_sound in Hin as (d' & Hd' & Hl). congruence. }
  assert (∀ fs id,
            delete_answered fs
              (doc_id <$> run_query [Where "listId" l] (listItems_docs (store w)))
              (listItems_docs (store w)) !! id = listItems_docs (store w) !! id ∨
            delete_answered fs
              (doc_id <$> run_query [Where "listId" l] (listItems_docs (store w)))
              (listItems_docs (store w)) !! id = None) as Hsub.
  { intros fs id.
    destruct (delete_answered_lookup fs
                (doc_id <$> run_query [Where "listId" l] (listItems_docs (store w)))
                (listItems_docs (store w)) id) as [->|[_ ->]]; [by left|by right]. }
  destruct (head_fault w); cbn [snd]; [by split; [|split; [left|]]|].
  destruct (rejects _ _); cbn [snd]; simpl; [by split; [apply Hkept|split; [apply Hsub|]]|].
  destruct (head_fault (items_deleted _ _)); cbn [snd]; simpl;
    (split; [apply Hkept|split; [apply Hsub|]]); [done|].
  intros k Hk. by rewrite lookup_delete_ne.
Qed.

Lemma deleteList_spares_others_witness :
  "alice" ≠ "" ∧
  ∀ fs, lists_docs (store (after (UseLists.deleteList (Some "alice") "l9" (Sample.world fs))))
          !! "l1" = Some Sample.groceries.
Proof.
  split; [done|]. intros fs.
  destruct (deleteList_spares_others "alice" "l9" (Sample.world fs)) as (_ & _ & Hlists);
    [done|].
  by rewrite Hlists.
Defined.

(** ** Invariants through the monad *)

Section keeps.
Context {St : Type} (I : St → Prop).

Lemma keeps_ret {A} (a : A) : keeps I (ret a).
Proof. by intros s. Qed.

Lemma keeps_throw {A} e : keeps I (throw (A := A) e).
Proof. by intros s. Qed.

Lemma keeps_get : keeps I get.
Proof. by intros s. Qed.

Lemma keeps_bind {A B} (c : Eff St A) (k : A → Eff St B) :
  keeps I c → (∀ a, keeps I (k a)) → keeps I (bind c k).
Proof.
  intros Hc Hk s Hs. unfold bind. specialize (Hc s Hs).
  destruct (c s) as [[a|e] s']; [by apply Hk|done].
Qed.

Lemma keeps_try_catch {A} (c : Eff St A) h :
  keeps I c → (∀ e, keeps I (h e)) → keeps I (try_catch c h).
Proof.
  intros Hc Hh s Hs. unfold try_catch. specialize (Hc s Hs).
  destruct (c s) as [[a|e] s']; [done|by apply Hh].
Qed.

Lemma keeps_try_finally {A} (c : Eff St A) f :
  keeps I c → keeps I f → keeps I (try_finally c f).
Proof.
  intros Hc Hf s Hs. unfold try_finally. specialize (Hc s Hs).
  destruct (c s) as [r s']. specialize (Hf s' Hc).
  by destruct (f s') as [[?|?] s''].
Qed.

Lemma keeps_start_all {A} (cs : list (Eff St A)) s :
  Forall (keeps I) cs → I s → I (start_all cs s).2.
Proof.
  intros Hcs. revert s. induction Hcs as [|c cs Hc _ IH]; intros s Hs; [done|].
  cbn [start_all]. specialize (Hc s Hs). destruct (c s) as [r s1].
  specialize (IH s1 Hc). by destruct (start_all cs s1).
Qed.

Lemma keeps_promise_all {A} (cs : list (Eff St A)) :
  Forall (keeps I) cs → keeps I (promise_all cs).
Proof.
  intros Hcs s Hs. unfold promise_all.
  pose proof (keeps_start_all cs s Hcs Hs) as H. by destruct (start_all cs s).
Qed.
End keeps.

Lemma keeps_leaves {St A X} (part : St → X) (c : Eff St A) :
  (∀ v, keeps (λ s, part s = v) c) → leaves part c.
Proof. intros Hc s. by apply (Hc (part s)). Qed.

Section keeps_store.
Context (J : Store → Prop).

Lemma keeps_liftW {A} (c : Eff World A) : keeps (inv_W J) c → keeps (inv_M J) (liftW c).
Proof.
  intros Hc [h w] Hw. unfold liftW, inv_M. cbn [fst snd].
  specialize (Hc w Hw). by destruct (c w).
Qed.

Lemma keeps_liftS {A} (c : Eff Hook A) : keeps (inv_M J) (liftS c).
Proof. intros [h w] Hw. unfold liftS, inv_M. cbn [fst snd]. by destruct (c h). Qed.

Lemma keeps_request op : keeps (inv_W J) (request op).
Proof. intros w Hw. rewrite request_run. by destruct (head_fault w). Qed.

Lemma keeps_console_error msg : keeps (inv_W J) (console_error msg).
Proof. by intros w Hw. Qed.

Lemma keeps_getDoc {D} (c : Collection D) id : keeps (inv_W J) (getDoc c id).
Proof. intros w Hw. rewrite getDoc_run. by destruct (head_fault w). Qed.

Lemma keeps_getDocs {D} `{Document D} (c : Collection D) q : keeps (inv_W J) (getDocs c q).
Proof. intros w Hw. rewrite getDocs_run. by destruct (head_fault w). Qed.

Lemma keeps_addDoc {D} (c : Collection D) mk :
  untouched_by J c → keeps (inv_W J) (addDoc c mk).
Proof.
  intros Hc w Hw. rewrite addDoc_run. destruct (head_fault w); [done|]. by apply Hc.
Qed.

Lemma keeps_updateDoc {D} (c : Collection D) id patch :
  untouched_by J c → keeps (inv_W J) (updateDoc c id patch).
Proof.
  intros Hc w Hw. rewrite updateDoc_run. destruct (head_fault w); [done|].
  destruct (docs c (store w) !! id); [by apply Hc|done].
Qed.

Lemma keeps_deleteDoc {D} (c : Collection D) id :
  untouched_by J c → keeps (inv_W J) (deleteDoc c id).
Proof.
  intros Hc w Hw. rewrite deleteDoc_run. destruct (head_fault w); [done|]. by apply Hc.
Qed.

Lemma keeps_fetch_blob url : keeps (inv_W J) (fetch_blob url).
Proof. intros w Hw. rewrite fetch_blob_run. by destruct (head_fault w). Qed.

Lemma keeps_getDownloadURL file : keeps (inv_W J) (getDownloadURL file).
Proof. intros w Hw. rewrite getDownloadURL_run. by destruct (head_fault w). Qed.

Lemma keeps_uploadBytes file blob :
  (∀ o s, J s → J (set_objects o s)) → keeps (inv_W J) (uploadBytes file blob).
Proof.
  intros Ho w Hw. rewrite uploadBytes_run. destruct (head_fault w); [done|]. by apply Ho.
Qed.
End keeps_store.

Lemma keeps_fetchReplyMessages J msgs : keeps (inv_W J) (fetchReplyMessages msgs).
Proof.
  unfold fetchReplyMessages. destruct (_ =? _)%nat; [apply keeps_ret|].
  apply keeps_bind; [|intros ?; apply keeps_ret].
  apply keeps_promise_all, Forall_fmap, Forall_forall. intros id _. apply keeps_getDoc.
Qed.

Ltac keeps_step :=
  first
    [ apply keeps_ret | apply keeps_throw | apply keeps_get
    | apply keeps_liftS
    | apply keeps_fetchReplyMessages
    | apply keeps_request | apply keeps_console_error
    | apply keeps_getDoc | apply keeps_getDocs
    | apply keeps_fetch_blob | apply keeps_getDownloadURL
    | apply keeps_addDoc | apply keeps_updateDoc | apply keeps_deleteDoc
    | apply keeps_uploadBytes
    | apply keeps_liftW
    | apply keeps_bind; [|intros ?]
    | apply keeps_try_catch; [|intros ?]
    | apply keeps_try_finally
    | apply keeps_promise_all, Forall_fmap, Forall_forall; intros ? _; cbv beta
    | match goal with
      | |- keeps _ (if ?b then _ else _) => destruct b
      | |- keeps _ (match ?x with _ => _ end) => destruct x
      end ].

Ltac keeps_all := repeat keeps_step; try assumption.

Section apart.
Variable userId : option string.

Lemma keeps_on_snapshot J snapshot : keeps (inv_M J) (UseMessages.on_snapshot snapshot).
Proof. unfold UseMessages.on_snapshot. keeps_all. Qed.

Lemma keeps_deliver J : keeps (inv_M J) UseMessages.deliver.
Proof. unfold UseMessages.deliver. apply keeps_bind; [apply keeps_get|intros ?]. apply keeps_on_snapshot. Qed.

Lemma keeps_loadMore J : keeps (inv_M J) (UseMessages.loadMore userId).
Proof. unfold UseMessages.loadMore, UseMessages.loadMore_of. keeps_all. Qed.

Lemma keeps_getListItems J l : keeps (inv_W J) (UseLists.getListItems l).
Proof. unfold UseLists.getListItems. keeps_all. Qed.

Lemma keeps_sendMessage J content replyTo :
  untouched_by J UseMessages.MESSAGES_COLLECTION →
  keeps (inv_W J) (UseMessages.sendMessage userId content replyTo).
Proof. intros HJ. unfold UseMessages.sendMessage. keeps_all. Qed.

Lemma keeps_sendDrawing J drawing replyTo :
  untouched_by J UseMessages.MESSAGES_COLLECTION →
  (∀ o s, J s → J (set_objects o s)) →
  keeps (inv_W J) (UseMessages.sendDrawing userId drawing replyTo).
Proof. intros HJ Ho. unfold UseMessages.sendDrawing. keeps_all. Qed.

Lemma keeps_toggleLike J messageId :
  untouched_by J UseMessages.MESSAGES_COLLECTION →
  keeps (inv_M J) (UseMessages.toggleLike userId messageId).
Proof. intros HJ. unfold UseMessages.toggleLike. keeps_all. Qed.

Lemma keeps_createList J name visibility type emoji :
  untouched_by J UseLists.LISTS_COLLECTION →
  keeps (inv_W J) (UseLists.createList userId name visibility type emoji).
Proof. intros HJ. unfold UseLists.createList. keeps_all. Qed.

Lemma keeps_updateList J l updates :
  untouched_by J UseLists.LISTS_COLLECTION →
  keeps (inv_W J) (UseLists.updateList userId l updates).
Proof. intros HJ. unfold UseLists.updateList. keeps_all. Qed.

Lemma keeps_deleteList J l :
  untouched_by J UseLists.LISTS_COLLECTION →
  untouched_by J UseLists.LIST_ITEMS_COLLECTION →
  keeps (inv_W J) (UseLists.deleteList userId l).
Proof. intros HJ HJ'. unfold UseLists.deleteList. keeps_all. Qed.

Lemma keeps_addMessageToList J l m :
  untouched_by J UseLists.LIST_ITEMS_COLLECTION →
  keeps (inv_W J) (UseLists.addMessageToList userId l m).
Proof. intros HJ. unfold UseLists.addMessageToList. keeps_all. Qed.

Lemma keeps_removeFromList J l m :
  untouched_by J UseLists.LIST_ITEMS_COLLECTION →
  keeps (inv_W J) (UseLists.removeFromList userId l m).
Proof. intros HJ. unfold UseLists.removeFromList. keeps_all. Qed.

Lemma keeps_toggleItemCompleted J itemId :
  untouched_by J UseLists.LIST_ITEMS_COLLECTION →
  keeps (inv_W J) (UseLists.toggleItemCompleted userId itemId).
Proof. intros HJ. unfold UseLists.toggleItemCompleted. keeps_all. Qed.
End apart.

Ltac leaves_by lem :=
  apply keeps_leaves; intros v;
  match goal with
  | |- @keeps World _ (λ s, ?part (store s) = _) ?c =>
      change (keeps (inv_W (λ s, part s = v)) c)
  | |- @keeps World _ (λ s, store s = _) ?c =>
      change (keeps (inv_W (λ s, s = v)) c)
  | |- @keeps (Hook * World) _ (λ s, ?part (store s.2) = _) ?c =>
      change (keeps (inv_M (λ s, part s = v)) c)
  | |- @keeps (Hook * World) _ (λ s, store s.2 = _) ?c =>
      change (keeps (inv_M (λ s, s = v)) c)
  end;
  apply lem; by intros ? ? ?.

(** X23. The two hooks keep to their own collections, whatever the store
    answers: no call of [useMessages] (a delivery, [loadMore],
    [sendMessage], [sendDrawing], [toggleLike]) changes a list or a list
    item, no call of [useLists] changes the feed or the stored images, and
    no call of either writes the ['messages'] collection that
    [getListItems] reads; a delivery, [loadMore] and [getListItems] change
    nothing in the store at all. *)
Theorem hooks_keep_apart userId :
  (leaves (λ hw, lists_side (store hw.2)) UseMessages.deliver ∧
   leaves (λ hw, lists_side (store hw.2)) (UseMessages.loadMore userId) ∧
   (∀ content replyTo,
      leaves (λ w, lists_side (store w)) (UseMessages.sendMessage userId content replyTo)) ∧
   (∀ drawing replyTo,
      leaves (λ w, lists_side (store w)) (UseMessages.sendDrawing userId drawing replyTo)) ∧
   (∀ messageId,
      leaves (λ hw, lists_side (store hw.2)) (UseMessages.toggleLike userId messageId))) ∧
  ((∀ name visibility type emoji,
      leaves (λ w, feed_side (store w))
        (UseLists.createList userId name visibility type emoji)) ∧
   (∀ l updates, leaves (λ w, feed_side (store w)) (UseLists.updateList userId l updates)) ∧
   (∀ l, leaves (λ w, feed_side (store w)) (UseLists.deleteList userId l)) ∧
   (∀ l m, leaves (λ w, feed_side (store w)) (UseLists.addMessageToList userId l m)) ∧
   (∀ l m, leaves (λ w, feed_side (store w)) (UseLists.removeFromList userId l m)) ∧
   (∀ itemId,
      leaves (λ w, feed_side (store w)) (UseLists.toggleItemCompleted userId itemId)) ∧
   (∀ l, leaves (λ w, feed_side (store w)) (UseLists.getListItems l))) ∧
  (leaves (λ hw, store hw.2) UseMessages.deliver ∧
   leaves (λ hw, store hw.2) (UseMessages.loadMore userId) ∧
   (∀ l, leaves store (UseLists.getListItems l))).
Proof.
  split; [|split].
  - split; [leaves_by keeps_deliver|]. split; [leaves_by keeps_loadMore|].
    split; [intros; leaves_by keeps_sendMessage|].
    split; [intros; leaves_by keeps_sendDrawing|].
    intros; leaves_by keeps_toggleLike.
  - split; [intros; leaves_by keeps_createList|].
    split; [intros; leaves_by keeps_updateList|].
    split; [intros; leaves_by keeps_deleteList|].
    split; [intros; leaves_by keeps_addMessageToList|].
    split; [intros; leaves_by keeps_removeFromList|].
    split; [intros; leaves_by keeps_toggleItemCompleted|].
    intros; leaves_by keeps_getListItems.
  - split; [leaves_by keeps_deliver|]. split; [leaves_by keeps_loadMore|].
    intros; leaves_by keeps_getListItems.
Qed.

(** ** A message saved to a list and read back *)

Lemma addMessageToList_member u l m w :
  u ≠ "" →
  faults w = [] →
  let y := UseLists.addMessageToList (Some u) l m w in
  outcome y = Ok tt ∧
  faults (after y) = [] ∧
  messages_docs (store (after y)) = messages_docs (store w) ∧
  duoboard_messages (store (after y)) = duoboard_messages (store w) ∧
  ∃ id d, listItems_docs (store (after y)) !! id = Some d ∧ listId d = l ∧ messageId d = m.
Proof.
  intros Hu Hfs. cbv zeta. rewrite addMessageToList_run by done. cbv zeta.
  unfold head_fault. cbn [sent faults]. rewrite Hfs. cbn [tail].
  unfold outcome, after.
  destruct (decide _) as [Hempty|Hsome]; cbn [fst snd].
  - split; [done|]. split; [done|]. split; [done|]. split; [done|].
    eexists _, _. split; [apply lookup_insert_eq|done].
  - split; [done|]. split; [simpl; by rewrite Hfs|]. split; [done|]. split; [done|].
    apply map_choose in Hsome as (id & d & (Hd & Hl & Hm)%map_lookup_filter_Some).
    by exists id, d.
Qed.

(** X24. A message sent with [sendMessage] and then saved with
    [addMessageToList] under the name the store gave it is in the feed
    collection, and [getListItems] returns its item with [message = null]
    unless the ['messages'] collection happens to hold a document of that
    name: the item is joined against another collection than the one the
    message was written to. *)
Theorem saved_message_has_no_join u content l w :
  u ≠ "" →
  trim content ≠ "" →
  faults w = [] →
  let id := fresh (dom (duoboard_messages (store w))) in
  messages_docs (store w) !! id = None →
  let x := UseMessages.sendMessage (Some u) content None w in
  let y := UseLists.addMessageToList (Some u) l id (after x) in
  let z := UseLists.getListItems l (after y) in
  outcome x = Ok tt ∧ outcome y = Ok tt ∧
  is_Some (duoboard_messages (store (after y)) !! id) ∧
  ∃ rows, outcome z = Ok rows ∧
    ∃ row, row ∈ rows ∧ messageId (doc_data (item_of row)) = id ∧ message row = None.
Proof.
  intros Hu Hc Hfs id Hnone. cbv zeta.
  assert (head_fault w = false) as Hf by (unfold head_fault; by rewrite Hfs).
  rewrite sendMessage_run, Hf by done. cbv zeta. fold id.
  set (w1 := MkWorld _ _ _ _ _ _).
  change (after (Ok tt, w1)) with w1. change (outcome (Ok tt, w1)) with (Ok tt : Result unit).
  assert (faults w1 = []) as Hfs1 by (unfold w1; cbn [faults]; by rewrite Hfs).
  destruct (addMessageToList_member u l id w1 Hu Hfs1)
    as (Hy & Hfs2 & Hmsgs & Hfeed & iid & d & Hd & Hl & Hm).
  set (w2 := after (UseLists.addMessageToList (Some u) l id w1)) in *.
  split; [done|]. split; [done|]. split.
  { rewrite Hfeed. eexists. apply lookup_insert_eq. }
  rewrite getListItems_run. cbv zeta. unfold head_fault. rewrite Hfs2. cbn [tail].
  rewrite rejects_nil. eexists. split; [reflexivity|].
  exists (join_message (store w2) (MkDoc iid d)). split; [|split; [done|]].
  - apply list_elem_of_fmap. eexists. split; [done|]. by apply elem_of_items_page.
  - change (messages_docs (store w1)) with (messages_docs (store w)) in Hmsgs.
    unfold join_message. cbn [message doc_data item_of]. by rewrite Hm, Hmsgs, Hnone.
Qed.

Lemma saved_message_has_no_join_witness :
  let w := Sample.world [] in
  let x := UseMessages.sendMessage (Some "alice") "milk" None w in
  let y := UseLists.addMessageToList (Some "alice") "l1" "0" (after x) in
  "alice" ≠ "" ∧ trim "milk" ≠ "" ∧ faults w = [] ∧
  messages_docs (store w) !! fresh (dom (duoboard_messages (store w))) = None ∧
  ∃ rows, outcome (UseLists.getListItems "l1" (after y)) = Ok rows ∧
    ∃ row, row ∈ rows ∧ messageId (doc_data (item_of row)) = "0" ∧ message row = None.
Proof.
  split; [done|]. split; [by vm_compute|]. split; [reflexivity|]. split; [reflexivity|].
  destruct (saved_message_has_no_join "alice" "milk" "l1" (Sample.world []))
    as (_ & _ & _ & Hrows); [done | by vm_compute | reflexivity | reflexivity |].
  exact Hrows.
Defined.

(** ** From the input box to the feed *)

Lemma truthy_empty_trim s : trim s = "" → truthy (Some (trim s)) = false.
Proof. by intros ->. Qed.

Lemma handleSendMessage_run u content p h w :
  u ≠ "" →
  trim content ≠ "" →
  ChatPage.handleSendMessage (Some u) content (p, (h, w)) =
    if head_fault w then
      (Ok tt,
       (p, (h, logged "Failed to send message:"
                 (logged "Error sending message:" (sent (OpAddDoc "duoboard_messages") w)))))
    else
      let id := fresh (dom (duoboard_messages (store w))) in
      (Ok tt,
       (ChatPage.MkPage (ChatPage.showDrawCanvas p) (ChatPage.showListPicker p)
          (ChatPage.showListView p) None (ChatPage.selectedMessageForList p)
          (ChatPage.likeAnimatingId p) (ChatPage.scrollToMessageId p),
        (h,
         MkWorld
           (set_docs UseMessages.MESSAGES_COLLECTION
              (<[id := MkMessage u (Some (trim content)) None (clock w)
                         (or_null (ChatPage.id_of <$> ChatPage.replyingTo p)) ∅]>
                 (duoboard_messages (store w))) (store w))
           (S (clock w)) (now w) (tail (faults w))
           (log w ++ [OpAddDoc "duoboard_messages"]) (console w)))).
Proof.
  intros Hu Hc. unfold ChatPage.handleSendMessage, try_catch, bind, get, liftW.
  cbn [fst snd]. rewrite sendMessage_run by done.
  by destruct (head_fault w).
Qed.

Lemma handleSubmit_run {St} (onSend : string → Eff St unit) text (s : St) :
  MessageInput.handleSubmit onSend false (text, s) =
    if truthy (Some (trim text)) then (Ok tt, ("", (onSend (trim text) s).2))
    else (Ok tt, (text, s)).
Proof.
  unfold MessageInput.handleSubmit, bind, get. cbn [fst snd].
  destruct (truthy _); [|done]. cbn [andb negb].
  unfold liftW, detach. cbn [fst snd]. by destruct (onSend _ _).
Qed.

(** X25. Submitting the input box. A text that is blank changes nothing.
    Otherwise the box is emptied and the trimmed text goes to
    [sendMessage] with the message being replied to: when the insert is
    answered the new message carries that reference and the reply
    selection is cleared; when it is rejected nothing is raised, the store
    is as it was, the reply selection is kept and both handlers have
    logged the failure. *)
Theorem submit_sends_reply u text p h w :
  u ≠ "" →
  let x := MessageInput.handleSubmit (ChatPage.handleSendMessage (Some u)) false
             (text, (p, (h, w))) in
  outcome x = Ok tt ∧
  (trim text = "" → after x = (text, (p, (h, w)))) ∧
  (trim text ≠ "" →
   (after x).1 = "" ∧
   (after x).2.2.1 = h ∧
   (head_fault w = false →
    duoboard_messages (store (after x).2.2.2) =
      <[fresh (dom (duoboard_messages (store w))) :=
          MkMessage u (Some (trim text)) None (clock w)
            (or_null (ChatPage.id_of <$> ChatPage.replyingTo p)) ∅]>
        (duoboard_messages (store w)) ∧
    ChatPage.replyingTo (after x).2.1 = None) ∧
   (head_fault w = true →
    store (after x).2.2.2 = store w ∧
    ChatPage.replyingTo (after x).2.1 = ChatPage.replyingTo p ∧
    console (after x).2.2.2 =
      console w ++ ["Error sending message:"; "Failed to send message:"])).
Proof.
  intros Hu. cbv zeta. rewrite handleSubmit_run.
  destruct (decide (trim text = "")) as [Hb|Hb].
  - rewrite truthy_empty_trim by done. unfold outcome, after. cbn [fst snd].
    split; [done|]. split; [done|]. by intros [].
  - rewrite truthy_trim by done.
    rewrite handleSendMessage_run by (by rewrite ?trim_idem).
    rewrite trim_idem. unfold outcome, after. cbv zeta.
    destruct (head_fault w); cbn [fst snd]; (split; [done|]); (split; [by intros ?|]);
      intros _; (split; [done|]); (split; [done|]); split; try done.
    intros _. split; [done|]. split; [done|]. simpl. by rewrite <- app_assoc.
Qed.

Lemma submit_sends_reply_witness :
  let reply := MkWithReply (MkDoc "m1" Sample.hi) None in
  let p := ChatPage.MkPage false false false (Some reply) None None None in
  let x := MessageInput.handleSubmit (ChatPage.handleSendMessage (Some "bob")) false
             (" ok ", (p, (UseMessages.initial, Sample.world []))) in
  "bob" ≠ "" ∧
  duoboard_messages (store (after x).2.2.2) !! "0"
    = Some (MkMessage "bob" (Some "ok") None 10 (Some "m1") ∅).
Proof.
  split; [done|].
  destruct (submit_sends_reply "bob" " ok "
              (ChatPage.MkPage false false false
                 (Some (MkWithReply (MkDoc "m1" Sample.hi) None)) None None None)
              UseMessages.initial (Sample.world []))
    as (_ & _ & Hsent); [done|].
  destruct Hsent as (_ & _ & Hok & _); [by vm_compute|].
  destruct Hok as [Hfeed _]; [reflexivity|].
  rewrite Hfeed. vm_compute. reflexivity.
Defined.

(** ** Creating a list from the picker *)

Lemma handleSelectList_run u listId msg p h w :
  ChatPage.selectedMessageForList p = Some msg →
  ChatPage.handleSelectList (Some u) listId (p, (h, w)) =
    let r := UseLists.addMessageToList (Some u) listId (ChatPage.id_of msg) w in
    match r.1 with
    | Ok _ => (Ok tt, (picker_closed p, (h, r.2)))
    | Throw e => (Throw e, (p, (h, r.2)))
    end.
Proof.
  intros Hsel. unfold ChatPage.handleSelectList, bind, get. cbn [fst snd].
  rewrite Hsel. unfold liftW. cbn [fst snd].
  by destruct (UseLists.addMessageToList _ _ _ _) as [[[]|e] w'].
Qed.

Lemma handleCreateList_run {St} onSelectList onCreateList con f (s : St) :
  trim (ListPicker.newListName f) ≠ "" →
  ListPicker.handleCreateList onSelectList onCreateList con (f, s) =
    let c := onCreateList (trim (ListPicker.newListName f))
               (ListPicker.newListVisibility f) (ListPicker.newListType f)
               (Some (ListPicker.newListEmoji f)) s in
    match c.1 with
    | Ok listId =>
        (Ok tt,
         (ListPicker.initial,
          if truthy listId then (onSelectList (or_empty listId) c.2).2 else c.2))
    | Throw e =>
        ((con "Failed to create list:" c.2).1,
         (with_creating false f, (con "Failed to create list:" c.2).2))
    end.
Proof.
  intros Hname.
  unfold ListPicker.handleCreateList, ListPicker.setCreating, ListPicker.resetForm,
    try_finally, try_catch, bind, get, liftW, liftS, modify, detach, ret.
  cbn [fst snd]. rewrite truthy_trim by done. cbn [negb fst snd]. cbv zeta.
  destruct (onCreateList _ _ _ _ _) as [[listId|e] s1]; cbn [fst snd].
  - destruct (truthy listId); cbn [fst snd]; [|done]. by destruct (onSelectList _ _).
  - destruct (con _ _) as [[[]|e'] s2]; by destruct f.
Qed.

Lemma mounted_picker_run u f p h w :
  trim (ListPicker.newListName f) ≠ "" →
  mounted_picker (Some u) (f, (p, (h, w))) =
    let c := UseLists.createList (Some u) (trim (ListPicker.newListName f))
               (ListPicker.newListVisibility f) (ListPicker.newListType f)
               (Some (ListPicker.newListEmoji f)) w in
    match c.1 with
    | Ok listId =>
        (Ok tt,
         (ListPicker.initial,
          if truthy listId
          then (ChatPage.handleSelectList (Some u) (or_empty listId) (p, (h, c.2))).2
          else (p, (h, c.2))))
    | Throw e => (Ok tt, (with_creating false f, (p, (h, logged "Failed to create list:" c.2))))
    end.
Proof.
  intros Hname. unfold mounted_picker. rewrite handleCreateList_run by done.
  cbv zeta. unfold ChatPage.handleCreateList, liftW. cbn [fst snd].
  by destruct (UseLists.createList _ _ _ _ _ _) as [[listId|e] w1].
Qed.

Lemma addMessageToList_lists userId l m :
  leaves (λ w, lists_docs (store w)) (UseLists.addMessageToList userId l m).
Proof. leaves_by keeps_addMessageToList. Qed.

(** X26. Creating a list from the picker while a message is selected,
    with a name that is not blank and a store that answers: the list is
    created under the trimmed name with the chosen visibility, kind and
    icon and the caller as owner, the selected message is a member of it,
    the picker is closed, the selection is cleared and the form is back
    to its defaults. *)
Theorem picker_creates_and_saves u f msg p h w :
  u ≠ "" →
  trim (ListPicker.newListName f) ≠ "" →
  ChatPage.selectedMessageForList p = Some msg →
  faults w = [] →
  let id := fresh (dom (lists_docs (store w))) in
  id ≠ "" →
  let x := mounted_picker (Some u) (f, (p, (h, w))) in
  outcome x = Ok tt ∧
  lists_docs (store (after x).2.2.2) =
    <[id := MkList (trim (ListPicker.newListName f)) u (ListPicker.newListVisibility f)
              (ListPicker.newListType f) (clock w) (ListPicker.newListEmoji f)]>
      (lists_docs (store w)) ∧
  membership id (ChatPage.id_of msg) (listItems_docs (store (after x).2.2.2)) ≠ ∅ ∧
  (after x).1 = ListPicker.initial ∧
  (after x).2.1 = picker_closed p.
Proof.
  intros Hu Hname Hsel Hfs id Hid. cbv zeta.
  assert (head_fault w = false) as Hf by (unfold head_fault; by rewrite Hfs).
  rewrite mounted_picker_run by done. cbv zeta.
  rewrite createList_run, Hf by done. cbv zeta. cbn [fst snd]. fold id.
  rewrite truthy_Some by done. cbn [or_empty].
  set (w1 := MkWorld _ _ _ _ _ _).
  assert (faults w1 = []) as Hfs1 by (unfold w1; cbn [faults]; by rewrite Hfs).
  rewrite (handleSelectList_run u id msg p h w1 Hsel). cbv zeta.
  destruct (addMessageToList_member u id (ChatPage.id_of msg) w1 Hu Hfs1)
    as (Hy & _ & _ & _ & iid & d & Hd & Hl & Hm).
  pose proof (addMessageToList_lists (Some u) id (ChatPage.id_of msg) w1) as Hlists.
  unfold outcome, after in *.
  destruct (UseLists.addMessageToList _ _ _ _) as [r w2].
  cbn [fst snd] in *. subst r. cbn [fst snd].
  split; [done|]. split; [|split; [|done]].
  - exact Hlists.
  - intros Hempty.
    assert (membership id (ChatPage.id_of msg) (listItems_docs (store w2)) !! iid = Some d)
      as Hin by by apply map_lookup_filter_Some.
    by rewrite Hempty in Hin.
Qed.

Lemma picker_creates_and_saves_witness :
  let f := ListPicker.MkForm true " Later " private checklist "x" false in
  let p := ChatPage.MkPage false true false None
             (Some (MkWithReply (MkDoc "m2" Sample.hello) None)) None None in
  let x := mounted_picker (Some "alice") (f, (p, (UseMessages.initial, Sample.world []))) in
  "alice" ≠ "" ∧
  trim " Later " ≠ "" ∧
  fresh (dom (lists_docs (store (Sample.world [])))) ≠ "" ∧
  lists_docs (store (after x).2.2.2) !! "0"
    = Some (MkList "Later" "alice" private checklist 10 "x") ∧
  ChatPage.showListPicker (after x).2.1 = false.
Proof.
  split; [done|]. split; [by vm_compute|]. split; [by vm_compute|].
  destruct (picker_creates_and_saves "alice"
              (ListPicker.MkForm true " Later " private checklist "x" false)
              (MkWithReply (MkDoc "m2" Sample.hello) None)
              (ChatPage.MkPage false true false None
                 (Some (MkWithReply (MkDoc "m2" Sample.hello) None)) None None)
              UseMessages.initial (Sample.world []))
    as (_ & Hlists & _ & _ & Hpage);
    [done | by vm_compute | reflexivity | reflexivity | by vm_compute |].
  split; [|by rewrite Hpage].
  rewrite Hlists. vm_compute. reflexivity.
Defined.

Lemma handleCreateList_blank {St} onSelectList onCreateList con f (s : St) :
  trim (ListPicker.newListName f) = "" →
  ListPicker.handleCreateList onSelectList onCreateList con (f, s) = (Ok tt, (f, s)).
Proof.
  intros Hname. unfold ListPicker.handleCreateList, bind, get. cbn [fst snd].
  by rewrite truthy_empty_trim.
Qed.

(** X27. What the picker does when creating does not go through. A blank
    name changes nothing and sends nothing. When the insert of the list is
    rejected the failure is caught and logged: nothing is raised, the
    store is as it was, and the form keeps what was typed, with
    [creating] back to false. When the list is created but saving the
    selected message to it is rejected, nothing is raised either: the list
    stays created without the item, the form is reset, and the picker
    stays open with its selection. *)
Theorem picker_failure_modes u f p h w :
  u ≠ "" →
  let x := mounted_picker (Some u) (f, (p, (h, w))) in
  let name := trim (ListPicker.newListName f) in
  (name = "" → x = (Ok tt, (f, (p, (h, w))))) ∧
  (name ≠ "" → head_fault w = true →
   outcome x = Ok tt ∧
   (after x).1 = with_creating false f ∧
   (after x).2.1 = p ∧
   store (after x).2.2.2 = store w ∧
   console (after x).2.2.2 =
     console w ++ ["Error creating list:"; "Failed to create list:"]) ∧
  (∀ msg fs,
     name ≠ "" →
     ChatPage.selectedMessageForList p = Some msg →
     faults w = false :: true :: fs →
     fresh (dom (lists_docs (store w))) ≠ "" →
     outcome x = Ok tt ∧
     (after x).1 = ListPicker.initial ∧
     (after x).2.1 = p ∧
     is_Some (lists_docs (store (after x).2.2.2) !! fresh (dom (lists_docs (store w)))) ∧
     listItems_docs (store (after x).2.2.2) = listItems_docs (store w)).
Proof.
  intros Hu. cbv zeta. split; [|split].
  - intros Hname. unfold mounted_picker. by apply handleCreateList_blank.
  - intros Hname Hf. rewrite mounted_picker_run by done. cbv zeta.
    rewrite createList_run, Hf by done. unfold outcome, after. cbn [fst snd].
    split; [done|]. split; [done|]. split; [done|]. split; [done|].
    simpl. by rewrite <- app_assoc.
  - intros msg fs Hname Hsel Hfs Hid.
    assert (head_fault w = false) as Hf by (unfold head_fault; by rewrite Hfs).
    rewrite mounted_picker_run by done. cbv zeta.
    rewrite createList_run, Hf by done. cbv zeta. cbn [fst snd].
    rewrite truthy_Some by done. cbn [or_empty].
    set (w1 := MkWorld _ _ _ _ _ _).
    assert (head_fault w1 = true) as Hf1
      by (unfold head_fault, w1; cbn [faults]; by rewrite Hfs).
    rewrite (handleSelectList_run u _ msg p h w1 Hsel). cbv zeta.
    rewrite addMessageToList_run, Hf1 by done. unfold outcome, after. cbn [fst snd].
    split; [done|]. split; [done|]. split; [done|]. split; [|done].
    eexists. apply lookup_insert_eq.
Qed.

Lemma picker_failure_modes_witness :
  let f := ListPicker.MkForm true "Later" private checklist "x" false in
  let p := ChatPage.MkPage false true false None
             (Some (MkWithReply (MkDoc "m2" Sample.hello) None)) None None in
  let x := mounted_picker (Some "alice")
             (f, (p, (UseMessages.initial, Sample.world [false; true]))) in
  "alice" ≠ "" ∧
  ChatPage.showListPicker (after x).2.1 = true ∧
  listItems_docs (store (after x).2.2.2) = listItems_docs Sample.store.
Proof.
  split; [done|].
  destruct (picker_failure_modes "alice"
              (ListPicker.MkForm true "Later" private checklist "x" false)
              (ChatPage.MkPage false true false None
                 (Some (MkWithReply (MkDoc "m2" Sample.hello) None)) None None)
              UseMessages.initial (Sample.world [false; true]))
    as (_ & _ & Hsave); [done|].
  destruct (Hsave (MkWithReply (MkDoc "m2" Sample.hello) None) [])
    as (_ & _ & Hpage & _ & Hitems);
    [by vm_compute | reflexivity | reflexivity | by vm_compute |].
  split; [by rewrite Hpage|exact Hitems].
Defined.

(** ** The list view after a removal *)

Lemma removed_pair_gone l m fs (items : gmap string ListItemData) :
  let ids := doc_id <$> run_query [Where "listId" l; Where "messageId" m] items in
  rejects (length ids) fs = false →
  membership l m (delete_answered fs ids items) = ∅.
Proof.
  intros ids Hr. apply map_empty. intros k. apply map_lookup_filter_None. right.
  intros d Hd [Hl Hm]. simpl in *.
  rewrite lookup_delete_answered in Hd by done.
  destruct (decide _) as [|Hk]; [done|].
  apply Hk. by eapply existing_query_complete.
Qed.

Lemma other_pairs_kept l m fs (items : gmap string ListItemData) id d :
  let ids := doc_id <$> run_query [Where "listId" l; Where "messageId" m] items in
  items !! id = Some d →
  ¬ (listId d = l ∧ messageId d = m) →
  delete_answered fs ids items !! id = Some d.
Proof.
  intros ids Hd Hne.
  destruct (delete_answered_lookup fs ids items id) as [->|[Hin _]]; [done|].
  apply existing_query_sound in Hin as (d' & Hd' & Hl & Hm).
  rewrite Hd in Hd'. injection Hd' as <-. by destruct Hne.
Qed.

Lemma handleRemove_run {St} onGetListItems onRemoveFromList m v (s : St) lst :
  ListView.selectedList v = Some lst →
  ListView.handleRemove onGetListItems onRemoveFromList m (v, s) =
    match onRemoveFromList (doc_id lst) m s with
    | (Ok _, s1) =>
        match onGetListItems (doc_id lst) s1 with
        | (Ok rows, s2) =>
            (Ok tt,
             (ListView.MkView (ListView.selectedList v) rows (ListView.loading v)
                (ListView.confirmDelete v), s2))
        | (Throw e, s2) => (Throw e, (v, s2))
        end
    | (Throw e, s1) => (Throw e, (v, s1))
    end.
Proof.
  intros Hsel.
  unfold ListView.handleRemove, ListView.setItems, bind, get, liftW, liftS, modify.
  cbn [fst snd]. rewrite Hsel.
  destruct (onRemoveFromList _ _ _) as [[[]|e] s1]; cbn [fst snd]; [|done].
  destruct (onGetListItems _ _) as [[rows|e] s2]; cbn [fst snd]; by rewrite ?Hsel.
Qed.

(** X28. Removing a message from the list the view shows, on a store that
    answers: the pair has no item left, and the view is refreshed from the
    store, so it shows no row for that message and still shows every
    other item of the list. With no list selected the handler does
    nothing. *)
Theorem view_remove_refreshes u m v w :
  u ≠ "" →
  let x := ListView.handleRemove UseLists.getListItems (UseLists.removeFromList (Some u))
             m (v, w) in
  (ListView.selectedList v = None → x = (Ok tt, (v, w))) ∧
  (∀ lst, ListView.selectedList v = Some lst → faults w = [] →
     outcome x = Ok tt ∧
     membership (doc_id lst) m (listItems_docs (store (after x).2)) = ∅ ∧
     ListView.items (after x).1 =
       join_message (store (after x).2)
         <$> run_query [Where "listId" (doc_id lst); OrderByDesc "addedAt"]
               (listItems_docs (store (after x).2)) ∧
     (∀ row, row ∈ ListView.items (after x).1 →
             messageId (doc_data (item_of row)) ≠ m) ∧
     (∀ id d, listItems_docs (store w) !! id = Some d →
              listId d = doc_id lst → messageId d ≠ m →
              MkDoc id d ∈ item_of <$> ListView.items (after x).1)).
Proof.
  intros Hu. cbv zeta. split.
  { intros Hsel. unfold ListView.handleRemove, bind, get. cbn [fst snd]. by rewrite Hsel. }
  intros lst Hsel Hfs.
  assert (head_fault w = false) as Hf by (unfold head_fault; by rewrite Hfs).
  rewrite (handleRemove_run _ _ m v w lst Hsel).
  rewrite removeFromList_run, Hf by done. cbv zeta.
  rewrite Hfs. cbn [tail]. rewrite rejects_nil.
  set (ids := doc_id <$> run_query _ _).
  set (w1 := items_deleted ids _).
  assert (faults w1 = []) as Hfs1.
  { unfold w1, items_deleted. cbn [faults sent]. rewrite Hfs. cbn [tail]. apply drop_nil. }
  rewrite getListItems_run. cbv zeta. unfold head_fault. rewrite Hfs1. cbn [tail].
  rewrite rejects_nil. unfold outcome, after. cbn [fst snd ListView.items store sent_all sent].
  assert (membership (doc_id lst) m (listItems_docs (store w1)) = ∅) as Hgone.
  { unfold w1, items_deleted. cbn [store listItems_docs sent].
    apply removed_pair_gone. unfold sent. cbn [faults]. rewrite Hfs. apply rejects_nil. }
  split; [done|]. split; [done|]. split; [done|]. split.
  - intros row (r & -> & [Hr Hl]%elem_of_items_page)%list_elem_of_fmap Hm.
    cbn [join_message item_of] in Hm.
    assert (membership (doc_id lst) m (listItems_docs (store w1)) !! doc_id r
            = Some (doc_data r)) as Hin by by apply map_lookup_filter_Some.
    by rewrite Hgone in Hin.
  - intros id d Hd Hl Hm. rewrite <- list_fmap_compose.
    apply list_elem_of_fmap. exists (MkDoc id d). split; [done|].
    apply elem_of_items_page. split; [|done].
    unfold w1, items_deleted. cbn [store listItems_docs sent doc_id doc_data].
    apply other_pairs_kept; [done|]. by intros [_ ?].
Qed.

Lemma view_remove_refreshes_witness :
  let v := ListView.MkView (Some (MkDoc "l1" Sample.groceries)) [] false None in
  let x := ListView.handleRemove UseLists.getListItems (UseLists.removeFromList (Some "alice"))
             "m2" (v, Sample.world []) in
  "alice" ≠ "" ∧
  (item_of <$> ListView.items (after x).1) = [MkDoc "i2" Sample.saved_again].
Proof.
  split; [done|].
  destruct (view_remove_refreshes "alice" "m2"
              (ListView.MkView (Some (MkDoc "l1" Sample.groceries)) [] false None)
              (Sample.world [])) as [_ Hsel]; [done|].
  destruct (Hsel (MkDoc "l1" Sample.groceries)) as (_ & _ & Hitems & _);
    [reflexivity | reflexivity |].
  rewrite Hitems. vm_compute. reflexivity.
Defined.

(** ** Double taps *)

Lemma list_pair_ind {A} (P : list A → Prop) :
  P [] → (∀ x, P [x]) → (∀ x y l, P l → P (x :: y :: l)) → ∀ l, P l.
Proof.
  intros Hnil Hone Hstep l.
  assert (P l ∧ ∀ x, P (x :: l)) as [? _]; [|done].
  induction l as [|y l [IH1 IH2]]; [by split|]. split; [apply IH2|].
  intros x. by apply Hstep.
Qed.

Lemma handleTap_late delay now lastTapRef :
  (lastTapRef + delay ≤ now)%Z →
  UseGestures.handleTap delay now lastTapRef = (false, now).
Proof.
  intros Hlate. unfold UseGestures.handleTap. cbv zeta.
  destruct (Z.ltb_spec (now - lastTapRef) delay) as [Hlt|Hge]; [lia|].
  by rewrite andb_false_r.
Qed.

Lemma handleTap_soon delay now lastTapRef :
  (lastTapRef < now < lastTapRef + delay)%Z →
  UseGestures.handleTap delay now lastTapRef = (true, 0%Z).
Proof.
  intros Hsoon. unfold UseGestures.handleTap. cbv zeta.
  destruct (Z.ltb_spec 0 (now - lastTapRef)) as [Hlt|Hge]; [|lia].
  destruct (Z.ltb_spec (now - lastTapRef) delay) as [Hlt'|Hge']; [done|lia].
Qed.

Lemma taps_apart delay times lastTapRef :
  match times with
  | t :: _ => (lastTapRef + delay ≤ t)%Z
  | [] => True
  end →
  apart delay times →
  taps delay times lastTapRef = replicate (length times) false.
Proof.
  revert lastTapRef. induction times as [|t times IH]; intros lastTapRef Hfirst Hap; [done|].
  cbn [taps length replicate]. rewrite handleTap_late by done. cbn [fst snd].
  f_equal. apply IH; destruct times as [|t' times]; try done; by destruct Hap.
Qed.

(** X29. [useDoubleTap], on a clock that has run for at least [delay]: in
    a burst of taps, each within [delay] of the one before, every second
    tap calls [onDoubleTap] and no other does, so three quick taps like
    once and four like twice; taps that are at least [delay] apart never
    call it. *)
Theorem double_tap_every_second delay times :
  Forall (λ t, delay ≤ t)%Z times →
  (burst delay times → taps delay times 0 = every_second (length times)) ∧
  (apart delay times → taps delay times 0 = replicate (length times) false).
Proof.
  intros Hclock. split.
  - revert Hclock. induction times as [|t|t1 t2 times IH] using list_pair_ind;
      intros Hclock Hburst; [done| |].
    + apply Forall_cons in Hclock as [Ht _]. cbn [taps length every_second].
      by rewrite handleTap_late by lia.
    + apply Forall_cons in Hclock as [Ht1 [Ht2 Hclock]%Forall_cons].
      destruct Hburst as [Hgap Hburst].
      cbn [taps length every_second]. rewrite handleTap_late by lia. cbn [fst snd].
      rewrite handleTap_soon by lia. cbn [fst snd]. f_equal. f_equal.
      apply IH; [done|]. destruct times as [|t3 times]; [done|]. by destruct Hburst.
  - intros Hap. apply taps_apart; [|done].
    destruct times as [|t times]; [done|]. apply Forall_cons in Hclock as [Ht _]. lia.
Qed.

Lemma double_tap_every_second_witness :
  Forall (λ t, UseGestures.default_delay ≤ t)%Z [1000; 1100; 1250; 1400]%Z ∧
  taps UseGestures.default_delay [1000; 1100; 1250; 1400]%Z 0 = [false; true; false; true].
Proof.
  assert (Forall (λ t, UseGestures.default_delay ≤ t)%Z [1000; 1100; 1250; 1400]%Z) as Hclock
    by (repeat constructor; by vm_compute).
  split; [exact Hclock|].
  apply (double_tap_every_second UseGestures.default_delay [1000; 1100; 1250; 1400]%Z Hclock).
  unfold UseGestures.default_delay. simpl. lia.
Defined.

(** ** The lists a user is shown *)

Lemma shown_iff v (d : ListData) :
  ListsFeed.shown v d ↔ visibility d = public ∨ ownerId d = v.
Proof.
  unfold ListsFeed.shown. cbn. destruct (visibility d); split; intros [H|H];
    try (by left); try (by right); try discriminate; right; congruence.
Qed.

Lemma elem_of_listsQuery v (m : gmap string ListData) (r : WithId ListData) :
  r ∈ ListsFeed.listsQuery v m ↔
  m !! doc_id r = Some (doc_data r) ∧
  (visibility (doc_data r) = public ∨ ownerId (doc_data r) = v).
Proof.
  unfold ListsFeed.listsQuery, run_query. cbn [constrain].
  rewrite merge_sort_Permutation, list_elem_of_filter, elem_of_rows_of.
  rewrite map_lookup_filter_Some. cbn [snd]. rewrite shown_iff.
  split; [by intros [_ ?]|]. intros Hr. split; [by eexists|done].
Qed.

Lemma listsQuery_NoDup v (m : gmap string ListData) :
  NoDup (doc_id <$> ListsFeed.listsQuery v m).
Proof.
  unfold ListsFeed.listsQuery, run_query. cbn [constrain]. rewrite merge_sort_Permutation.
  match goal with
  | |- NoDup (doc_id <$> filter ?P ?l) =>
      apply (sublist_NoDup _ (doc_id <$> l)); [|apply fmap_sublist, sublist_filter]
  end.
  apply rows_of_NoDup.
Qed.

Lemma listsQuery_sorted v (m : gmap string ListData) :
  StronglySorted (λ a b : WithId ListData,
                    (createdAt (doc_data b) ≤ createdAt (doc_data a))%nat)
    (ListsFeed.listsQuery v m).
Proof.
  unfold ListsFeed.listsQuery, run_query. cbn [constrain].
  assert (Transitive (λ a b : WithId ListData,
                        (createdAt (doc_data b) ≤ createdAt (doc_data a))%nat))
    by (intros a b c ? ?; lia).
  apply Sorted_StronglySorted; [done|].
  apply (Sorted_weaken (newest_first "createdAt")).
  - intros a b. unfold newest_first, desc_on, time_of. simpl.
    intros [Hlt%Is_true_true%Nat.ltb_lt|[Heq%Is_true_true%Nat.eqb_eq _]%andb_prop_elim]%orb_prop_elim; lia.
  - apply Sorted_merge_sort, newest_first_total.
Qed.

Lemma lists_deliver_run v h w :
  v ≠ "" →
  ListsFeed.deliver (Some v) (h, w) =
    (Ok tt,
     (ListsFeed.MkHook (ListsFeed.listsQuery v (lists_docs (store w))) false
        (ListsFeed.error h), w)).
Proof. intros Hv. unfold ListsFeed.deliver. by rewrite truthy_Some. Qed.

(** X30. The lists a user is shown. After [createList] by one user, a
    delivery of the live query to another shows the new list exactly when
    it is public or the two are the same user. Every delivery shows each
    list that is public or owned by the viewer once, the latest created
    first, and never a private list of somebody else. *)
Theorem private_lists_stay_private u v name vis kind emoji h w :
  u ≠ "" →
  v ≠ "" →
  head_fault w = false →
  let x := UseLists.createList (Some u) name vis kind emoji w in
  let id := fresh (dom (lists_docs (store w))) in
  let y := ListsFeed.deliver (Some v) (h, after x) in
  let seen := ListsFeed.lists (after y).1 in
  (id ∈ doc_id <$> seen ↔ vis = public ∨ u = v) ∧
  (∀ r, r ∈ seen →
        lists_docs (store (after x)) !! doc_id r = Some (doc_data r) ∧
        (visibility (doc_data r) = public ∨ ownerId (doc_data r) = v)) ∧
  (∀ k d, lists_docs (store (after x)) !! k = Some d →
          visibility d = public ∨ ownerId d = v → MkDoc k d ∈ seen) ∧
  NoDup (doc_id <$> seen) ∧
  StronglySorted (λ a b : WithId ListData,
                    (createdAt (doc_data b) ≤ createdAt (doc_data a))%nat) seen ∧
  ListsFeed.loading (after y).1 = false.
Proof.
  intros Hu Hv Hf. cbv zeta. rewrite lists_deliver_run by done.
  unfold after at 1 2 3 4 5 6. cbn [fst snd ListsFeed.lists ListsFeed.loading].
  split; [|split; [|split; [|split; [|split; [|done]]]]].
  - rewrite createList_run, Hf by done. cbv zeta. unfold after. cbn [snd store].
    set (id := fresh _). set (d := MkList _ _ _ _ _ _).
    change (lists_docs (set_docs UseLists.LISTS_COLLECTION ?m _)) with m.
    split.
    + intros (r & Hid & [Hr Hshown]%elem_of_listsQuery)%list_elem_of_fmap.
      rewrite <- Hid, lookup_insert_eq in Hr. injection Hr as Hr. by rewrite <- Hr in Hshown.
    + intros Hshown. apply list_elem_of_fmap. exists (MkDoc id d). split; [done|].
      apply elem_of_listsQuery. split; [apply lookup_insert_eq|done].
  - intros r Hr. by apply elem_of_listsQuery in Hr.
  - intros k d Hd Hshown. by apply elem_of_listsQuery.
  - apply listsQuery_NoDup.
  - apply listsQuery_sorted.
Qed.

Lemma private_lists_stay_private_witness :
  let x := UseLists.createList (Some "alice") "Plans" private collection None
             (Sample.world []) in
  let y := ListsFeed.deliver (Some "bob") (ListsFeed.initial, after x) in
  "alice" ≠ "" ∧ "bob" ≠ "" ∧ head_fault (Sample.world []) = false ∧
  fresh (dom (lists_docs (store (Sample.world [])))) ∉ doc_id <$> ListsFeed.lists (after y).1.
Proof.
  split; [done|]. split; [done|]. split; [reflexivity|].
  destruct (private_lists_stay_private "alice" "bob" "Plans" private collection None
              ListsFeed.initial (Sample.world []))
    as (Hnew & _); [done | done | reflexivity |].
  intros [Hpub|Hsame]%Hnew; discriminate.
Defined.
